(** * install_go/download.go: version catalogue, archive fetcher, extractor

    A shallow embedding of [getAllGoVersion], [downloadGoVersion], [unpack],
    [unpackTar] and [unpackZip], together with the library routines they
    call (Go's [strings], [strconv], [bufio.Scanner], [sort.SliceStable],
    [path/filepath], [io], the parts of [os] that are used, and
    [github.com/blang/semver]).  Go strings are byte strings ([string]),
    byte slices are [list byte], machine integers are [N] or [Z] with
    their range checks written out. *)

From Stdlib Require Import ZArith NArith Ascii String Lia OrderedTypeEx.
From Stdlib.Strings Require Import Byte.
From stdpp Require Import gmap strings list fin_maps sorting.

Local Open Scope string_scope.
Set Warnings "-notation-for-abbreviation,-clear-no-such-hyp".

(** ** Package [strings] *)

(** [s[n:]] and [s[:n]] on byte strings. *)
Fixpoint str_drop (n : nat) (s : string) : string :=
  match n, s with
  | S k, String _ s' => str_drop k s'
  | _, _ => s
  end.

Fixpoint str_take (n : nat) (s : string) : string :=
  match n, s with
  | S k, String c s' => String c (str_take k s')
  | _, _ => ""
  end.

Definition strings_HasPrefix (s pre : string) : bool := String.prefix pre s.

Fixpoint strings_Contains (s substr : string) : bool :=
  if String.prefix substr s then true
  else match s with
       | "" => false
       | String _ s' => strings_Contains s' substr
       end.

(** The scanning loop of [strings.Replace s old new (-1)] for a non-empty
    [old]: matches are taken leftmost first and do not overlap; [skip]
    counts the bytes of the current match still to be consumed. *)
Fixpoint replace_go (old new : string) (skip : nat) (s : string) : string :=
  match s with
  | "" => ""
  | String c s' =>
      match skip with
      | S k => replace_go old new k s'
      | O =>
          if String.prefix old s
          then new +:+ replace_go old new (String.length old - 1) s'
          else String c (replace_go old new 0 s')
      end
  end.

(** [strings.Replace s old new (-1)].  Every call of the program passes a
    non-empty literal for [old]; Go's rune-wise insertion for an empty
    [old] is not needed and the string is returned as it is. *)
Definition strings_Replace (s old new : string) : string :=
  if String.eqb old "" then s else replace_go old new 0 s.

(** The loop of [strings.SplitN s sep n] for a non-empty [sep] and [n > 0]:
    the head piece and the pieces after it. *)
Fixpoint split_go (sep : string) (n skip : nat) (s : string) : string * list string :=
  match s with
  | "" => ("", [])
  | String c s' =>
      match skip with
      | S k => split_go sep n k s'
      | O =>
          if (1 <? n)%nat && String.prefix sep s
          then let '(p, ps) := split_go sep (n - 1) (String.length sep - 1) s' in
               ("", p :: ps)
          else let '(p, ps) := split_go sep n 0 s' in (String c p, ps)
      end
  end.

Definition strings_SplitN (s sep : string) (n : nat) : list string :=
  match n with
  | O => []
  | _ => let '(p, ps) := split_go sep n 0 s in p :: ps
  end.

(** [strings.Split s sep]: as many pieces as there are separators, plus one. *)
Definition strings_Split (s sep : string) : list string :=
  strings_SplitN s sep (S (String.length s)).

Fixpoint strings_IndexByte (s : string) (c : ascii) : option nat :=
  match s with
  | "" => None
  | String d s' =>
      if Ascii.eqb d c then Some O else S <$> strings_IndexByte s' c
  end.

Definition byte_in (lo hi : N) (c : ascii) : bool :=
  (lo <=? N_of_ascii c)%N && (N_of_ascii c <=? hi)%N.

Definition is_byte (n : N) (c : ascii) : bool := (N_of_ascii c =? n)%N.

(** Width in bytes of the white-space rune ([unicode.IsSpace]) that starts
    [s], or 0 when [s] does not start with one.  The multi-byte cases are
    the UTF-8 encodings of U+0085, U+00A0, U+1680, U+2000..U+200A, U+2028,
    U+2029, U+202F, U+205F and U+3000; their lead bytes are never
    continuation bytes, so matching on bytes agrees with decoding runes. *)
Definition space_width (s : string) : nat :=
  match s with
  | "" => 0
  | String c s1 =>
      if byte_in 9 13 c || is_byte 32 c then 1
      else match s1 with
           | "" => 0
           | String d s2 =>
               if is_byte 194 c && (is_byte 133 d || is_byte 160 d) then 2
               else match s2 with
                    | "" => 0
                    | String e _ =>
                        if is_byte 225 c && is_byte 154 d && is_byte 128 e then 3
                        else if is_byte 226 c && is_byte 128 d
                                && (byte_in 128 138 e || is_byte 168 e
                                    || is_byte 169 e || is_byte 175 e) then 3
                        else if is_byte 226 c && is_byte 129 d && is_byte 159 e then 3
                        else if is_byte 227 c && is_byte 128 d && is_byte 128 e then 3
                        else 0
                    end
           end
  end.

Definition cons_field (p : string) (ps : list string) : list string :=
  if String.eqb p "" then ps else p :: ps.

(** The run of non-space bytes at the head of [s] and the fields after it. *)
Fixpoint fields_go (skip : nat) (s : string) : string * list string :=
  match s with
  | "" => ("", [])
  | String c s' =>
      match skip with
      | S k => fields_go k s'
      | O =>
          match space_width s with
          | S k => let '(p, ps) := fields_go k s' in ("", cons_field p ps)
          | O => let '(p, ps) := fields_go 0 s' in (String c p, ps)
          end
      end
  end.

Definition strings_Fields (s : string) : list string :=
  let '(p, ps) := fields_go 0 s in cons_field p ps.

(** ** Package [strconv] *)

Definition is_digit (c : ascii) : bool := byte_in 48 57 c.

Definition digit_val (c : ascii) : N := (N_of_ascii c - 48)%N.

Definition maxUint64 : N := 18446744073709551615%N.

(** Digits accumulated left to right; [None] on a byte that is no digit or
    as soon as the value leaves the 64-bit range. *)
Fixpoint parse_digits (acc : N) (s : string) : option N :=
  match s with
  | "" => Some acc
  | String c s' =>
      if is_digit c
      then let acc' := (acc * 10 + digit_val c)%N in
           if (acc' <=? maxUint64)%N then parse_digits acc' s' else None
      else None
  end.

(** [strconv.ParseUint s 10 64]: [None] stands for a returned error. *)
Definition strconv_ParseUint (s : string) : option N :=
  match s with
  | "" => None
  | _ => parse_digits 0 s
  end.

(** [strconv.Atoi s] on a 64-bit platform. *)
Definition strconv_Atoi (s : string) : option Z :=
  match s with
  | "" => None
  | String c s' =>
      let neg := Ascii.eqb c "-"%char in
      let digits := if neg || Ascii.eqb c "+"%char then s' else s in
      match strconv_ParseUint digits with
      | None => None
      | Some un =>
          if neg then (if (un <=? 9223372036854775808)%N then Some (- Z.of_N un)%Z else None)
          else (if (un <=? 9223372036854775807)%N then Some (Z.of_N un) else None)
      end
  end.

(** ** Package [github.com/blang/semver] *)

Record PRVersion := {
  VersionStr : string;
  VersionNum : N;
  IsNum : bool
}.

Record Version := {
  Major : N;
  Minor : N;
  Patch : N;
  Pre : list PRVersion;
  Build : list string
}.

(** The zero value [Version{}], returned beside every error. *)
Definition Version_zero : Version :=
  {| Major := 0; Minor := 0; Patch := 0; Pre := []; Build := [] |}.

Definition numbers : string := "0123456789".
Definition alphanum : string :=
  "abcdefghijklmnopqrstuvwxyzABCDEFGHIJKLMNOPQRSTUVWXYZ-0123456789".

Fixpoint contains_byte (set : string) (c : ascii) : bool :=
  match set with
  | "" => false
  | String d set' => Ascii.eqb d c || contains_byte set' c
  end.

Fixpoint containsOnly (s set : string) : bool :=
  match s with
  | "" => true
  | String c s' => contains_byte set c && containsOnly s' set
  end.

Definition hasLeadingZeroes (s : string) : bool :=
  match s with
  | String c (String _ _) => Ascii.eqb c "0"%char
  | _ => false
  end.

(** One numeric component (major, minor or patch). *)
Definition parse_number (s : string) : option N :=
  if negb (containsOnly s numbers) then None
  else if hasLeadingZeroes s then None
  else strconv_ParseUint s.

Definition NewPRVersion (s : string) : option PRVersion :=
  match s with
  | "" => None
  | _ =>
      if containsOnly s numbers then
        if hasLeadingZeroes s then None
        else match strconv_ParseUint s with
             | Some num => Some {| VersionStr := ""; VersionNum := num; IsNum := true |}
             | None => None
             end
      else if containsOnly s alphanum then
        Some {| VersionStr := s; VersionNum := 0; IsNum := false |}
      else None
  end.

Fixpoint parse_prerelease (l : list string) : option (list PRVersion) :=
  match l with
  | [] => Some []
  | s :: l' =>
      match NewPRVersion s with
      | None => None
      | Some p => cons p <$> parse_prerelease l'
      end
  end.

Fixpoint parse_build (l : list string) : option (list string) :=
  match l with
  | [] => Some []
  | s :: l' =>
      if String.eqb s "" then None
      else if negb (containsOnly s alphanum) then None
      else cons s <$> parse_build l'
  end.

(** [semver.Parse]: [None] stands for the error result (whose [Version]
    is the zero value). *)
Definition semver_Parse (s : string) : option Version :=
  match s with
  | "" => None
  | _ =>
      match strings_SplitN s "." 3 with
      | [p0; p1; p2] =>
          match parse_number p0 with
          | None => None
          | Some major =>
              match parse_number p1 with
              | None => None
              | Some minor =>
                  let '(build, patchStr) :=
                    match strings_IndexByte p2 "+"%char with
                    | Some i => (strings_Split (str_drop (S i) p2) ".", str_take i p2)
                    | None => ([], p2)
                    end in
                  let '(prerelease, patchStr) :=
                    match strings_IndexByte patchStr "-"%char with
                    | Some i => (strings_Split (str_drop (S i) patchStr) ".", str_take i patchStr)
                    | None => ([], patchStr)
                    end in
                  match parse_number patchStr with
                  | None => None
                  | Some patch =>
                      match parse_prerelease prerelease with
                      | None => None
                      | Some pre =>
                          match parse_build build with
                          | None => None
                          | Some bld =>
                              Some {| Major := major; Minor := minor; Patch := patch;
                                      Pre := pre; Build := bld |}
                          end
                      end
                  end
              end
          end
      | _ => None
      end
  end.

Definition semver_Make (s : string) : option Version := semver_Parse s.

Definition compare_N (a b : N) : Z :=
  if (a =? b)%N then 0%Z else if (b <? a)%N then 1%Z else (-1)%Z.

Definition PRVersion_Compare (v o : PRVersion) : Z :=
  if IsNum v && negb (IsNum o) then (-1)%Z
  else if negb (IsNum v) && IsNum o then 1%Z
  else if IsNum v && IsNum o then compare_N (VersionNum v) (VersionNum o)
  else if String.eqb (VersionStr v) (VersionStr o) then 0%Z
  else match String.compare (VersionStr v) (VersionStr o) with
       | Gt => 1%Z
       | _ => (-1)%Z
       end.

(** The element-wise loop over the two pre-release lists, with the length
    comparison that follows it. *)
Fixpoint Pre_Compare (v o : list PRVersion) : Z :=
  match v, o with
  | [], [] => 0%Z
  | [], _ :: _ => (-1)%Z
  | _ :: _, [] => 1%Z
  | x :: v', y :: o' =>
      let comp := PRVersion_Compare x y in
      if (comp =? 0)%Z then Pre_Compare v' o'
      else if (comp =? 1)%Z then 1%Z else (-1)%Z
  end.

Definition Version_Compare (v o : Version) : Z :=
  if negb (Major v =? Major o)%N then (if (Major o <? Major v)%N then 1 else -1)%Z
  else if negb (Minor v =? Minor o)%N then (if (Minor o <? Minor v)%N then 1 else -1)%Z
  else if negb (Patch v =? Patch o)%N then (if (Patch o <? Patch v)%N then 1 else -1)%Z
  else match Pre v, Pre o with
       | [], [] => 0%Z
       | [], _ :: _ => 1%Z
       | _ :: _, [] => (-1)%Z
       | pv, po => Pre_Compare pv po
       end.

Definition Version_GE (v o : Version) : bool := (0 <=? Version_Compare v o)%Z.

(** ** Package [sort]: [SliceStable]

    The slice is a list addressed by index; [less] compares two elements,
    so that the callback [less(i, j)] of the program is [Less data i j] on
    the current contents. *)

Section Sort.
Context {A : Type}.
Variable less : A → A → bool.

Definition Less (data : list A) (i j : nat) : bool :=
  match data !! i, data !! j with
  | Some x, Some y => less x y
  | _, _ => false
  end.

Definition Swap (data : list A) (i j : nat) : list A :=
  match data !! i, data !! j with
  | Some x, Some y => <[i := y]> (<[j := x]> data)
  | _, _ => data
  end.

(** [for j := i; j > a && data.Less(j, j-1); j-- { data.Swap(j, j-1) }] *)
Fixpoint insertion_inner (a j : nat) (data : list A) : list A :=
  match j with
  | S j' =>
      if (a <? j)%nat && Less data j j'
      then insertion_inner a j' (Swap data j j')
      else data
  | O => data
  end.

(** [insertionSort_func(data, a, b)]: [for i := a + 1; i < b; i++]. *)
Definition insertionSort_func (data : list A) (a b : nat) : list A :=
  foldl (λ d i, insertion_inner a i d) data (seq (a + 1) (b - (a + 1))).

(** The binary searches of [symMerge_func] all have the shape
    [for i < j { h := (i+j)/2; if P(h) { i = h + 1 } else { j = h } }];
    [fuel] bounds the number of rounds. *)
Fixpoint search_loop (P : nat → bool) (fuel i j : nat) : nat :=
  match fuel with
  | O => i
  | S fuel' =>
      if (i <? j)%nat
      then let h := ((i + j) / 2)%nat in
           if P h then search_loop P fuel' (h + 1) j else search_loop P fuel' i h
      else i
  end.

(** [data[a:b]] *)
Definition slice (data : list A) (a b : nat) : list A :=
  take (b - a) (drop a data).

(** [rotate_func(data, a, m, b)] exchanges the adjacent blocks [data[a:m]]
    and [data[m:b]]; it is modelled by this effect, not by the block swaps
    that achieve it. *)
Definition rotate_func (data : list A) (a m b : nat) : list A :=
  take a data ++ slice data m b ++ slice data a m ++ drop b data.

(** [symMerge_func(data, a, m, b)] merges the sorted [data[a:m]] and
    [data[m:b]]; [fuel] bounds the depth of the recursion. *)
Fixpoint symMerge_func (fuel : nat) (data : list A) (a m b : nat) : list A :=
  match fuel with
  | O => data
  | S fuel' =>
      if (m - a =? 1)%nat then
        let i := search_loop (λ h, Less data h a) (b - m) m b in
        foldl (λ d k, Swap d k (k + 1)) data (seq a (i - 1 - a))
      else if (b - m =? 1)%nat then
        let i := search_loop (λ h, negb (Less data m h)) (m - a) a m in
        foldl (λ d k, Swap d k (k - 1)) data (rev (seq (i + 1) (m - i)))
      else
        let mid := ((a + b) / 2)%nat in
        let n := (mid + m)%nat in
        let '(start, r) := if (mid <? m)%nat then ((n - b)%nat, mid) else (a, m) in
        let p := (n - 1)%nat in
        let start := search_loop (λ c, negb (Less data (p - c) c)) (r - start) start r in
        let end_ := (n - start)%nat in
        let data :=
          if (start <? m)%nat && (m <? end_)%nat
          then rotate_func data start m end_ else data in
        let data :=
          if (a <? start)%nat && (start <? mid)%nat
          then symMerge_func fuel' data a start mid else data in
        if (mid <? end_)%nat && (end_ <? b)%nat
        then symMerge_func fuel' data mid end_ b else data
  end.

(** First loop of [stable_func]: insertion sort of consecutive blocks. *)
Fixpoint stable_blocks (fuel : nat) (data : list A) (blockSize a b n : nat) : list A :=
  match fuel with
  | O => data
  | S fuel' =>
      if (b <=? n)%nat
      then stable_blocks fuel' (insertionSort_func data a b) blockSize b (b + blockSize) n
      else insertionSort_func data a n
  end.

(** Inner loop of the merge phase: adjacent blocks are merged in pairs. *)
Fixpoint stable_pass (fuel : nat) (data : list A) (blockSize a b n : nat) : list A :=
  match fuel with
  | O => data
  | S fuel' =>
      if (b <=? n)%nat
      then stable_pass fuel' (symMerge_func n data a (a + blockSize) b)
             blockSize b (b + 2 * blockSize) n
      else let m := (a + blockSize)%nat in
           if (m <? n)%nat then symMerge_func n data a m n else data
  end.

(** [for blockSize < n { ...; blockSize *= 2 }] *)
Fixpoint stable_merge (fuel : nat) (data : list A) (blockSize n : nat) : list A :=
  match fuel with
  | O => data
  | S fuel' =>
      if (blockSize <? n)%nat
      then stable_merge fuel' (stable_pass (S n) data blockSize 0 (2 * blockSize) n)
             (2 * blockSize) n
      else data
  end.

Definition stable_func (data : list A) (n : nat) : list A :=
  let blockSize := 20%nat in
  let data := stable_blocks (S n) data blockSize 0 blockSize n in
  stable_merge n data blockSize n.

Definition sort_SliceStable (data : list A) : list A :=
  stable_func data (length data).

End Sort.

(** ** Package [bufio]: a [Scanner] with the default line splitter *)

Definition MaxScanTokenSize : N := 65536.

Definition fits_buffer (l : string) : bool :=
  (N.of_nat (String.length l) <? MaxScanTokenSize)%N.

(** [dropCR]: one trailing carriage return is removed from a line. *)
Fixpoint dropCR (s : string) : string :=
  match s with
  | "" => ""
  | String c "" => if is_byte 13 c then "" else s
  | String c s' => String c (dropCR s')
  end.

(** The tokens [Scan] delivers before it returns false: the text is cut at
    every newline, nothing is delivered for the empty rest after the last
    newline, and a line that does not fit the buffer (the scanner gives up
    with [ErrTooLong], which the program never inspects) ends the scan. *)
Fixpoint scan_tokens (raw : list string) : list string :=
  match raw with
  | [] => []
  | [last] => if String.eqb last "" then []
              else if fits_buffer last then [dropCR last] else []
  | l :: raw' =>
      if fits_buffer l then dropCR l :: scan_tokens raw' else []
  end.

Definition newline : string := String (ascii_of_N 10) "".

Definition scanner_lines (b : list byte) : list string :=
  scan_tokens (strings_Split (string_of_list_byte b) newline).

(** ** [getAllGoVersion]: from the reference listing to the sorted tags *)

(** Lines 262-280: the sort key computed from a tag. *)
Definition normalize (version : string) : string :=
  let sections := strings_Split version "." in
  match length sections with
  | 1 => version +:+ ".0.0"
  | 2 =>
      if strings_Contains version "beta" then strings_Replace version "beta" ".0-beta"
      else if strings_Contains version "rc" then strings_Replace version "rc" ".0-rc"
      else version +:+ ".0"
  | 3 =>
      if strings_Contains version "rc" then strings_Replace version "rc" "-rc"
      else if strings_Contains version "beta" then strings_Replace version "beta" "-beta"
      else version
  | _ => version
  end.

(** Lines 257-261: the tag of a retained line. *)
Definition parse_line (line : string) : option string :=
  if strings_Contains line "refs/tags/go" then
    match strings_Fields line with
    | [_; ref] => Some (strings_Replace ref "refs/tags/go" "")
    | _ => None
    end
  else None.

(** The tags of the retained lines, in listing order. *)
Definition retained_tags (b : list byte) : list string :=
  omap parse_line (scanner_lines b).

(** One round of the scanning loop on the pair [(sortVersions, tmp)]. *)
Definition scan_step (st : list string * gmap string string) (line : string)
  : list string * gmap string string :=
  match parse_line line with
  | Some oldVersion =>
      let version := normalize oldVersion in
      ((st.1 ++ [version])%list, <[version := oldVersion]> st.2)
  | None => st
  end.

Definition scan_listing (b : list byte) : list string * gmap string string :=
  foldl scan_step ([], ∅) (scanner_lines b).

(** [v, _ := semver.Make(s)]: the error is dropped and the zero version
    stands for a key that does not parse. *)
Definition version_of (s : string) : Version :=
  default Version_zero (semver_Make s).

(** The callback given to [sort.SliceStable]. *)
Definition version_less (x y : string) : bool :=
  Version_GE (version_of x) (version_of y).

(** Lines 251-299: everything after the listing [b] has been obtained. *)
Definition sorted_versions (b : list byte) : list string :=
  let '(sortVersions, tmp) := scan_listing b in
  let sortVersions := sort_SliceStable version_less sortVersions in
  map (λ value, default "" (tmp !! value)) sortVersions.

(** ** Package [crypto/sha256] (FIPS 180-4), on 32-bit words kept in [N] *)

Section SHA256.
Local Open Scope N_scope.

Definition w32 (x : N) : N := x mod 4294967296.
Definition rotr (n x : N) : N := N.lor (N.shiftr x n) (w32 (N.shiftl x (32 - n))).
Definition Ch (x y z : N) : N := N.lxor (N.land x y) (N.land (N.lxor x 4294967295) z).
Definition Maj (x y z : N) : N := N.lxor (N.lxor (N.land x y) (N.land x z)) (N.land y z).
Definition bsig0 x := N.lxor (N.lxor (rotr 2 x) (rotr 13 x)) (rotr 22 x).
Definition bsig1 x := N.lxor (N.lxor (rotr 6 x) (rotr 11 x)) (rotr 25 x).
Definition ssig0 x := N.lxor (N.lxor (rotr 7 x) (rotr 18 x)) (N.shiftr x 3).
Definition ssig1 x := N.lxor (N.lxor (rotr 17 x) (rotr 19 x)) (N.shiftr x 10).

(** FIPS 180-4, 4.2.2 and 5.3.3: the round constants are the first 32 bits
    of the fractional parts of the cube roots of the first 64 primes, the
    initial hash value those of the square roots of the first 8 primes.
    (Go's [crypto/sha256] holds the same words as tables [_K] and
    [init0] .. [init7].) *)
Definition first_primes : list N :=
  [2; 3; 5; 7; 11; 13; 17; 19; 23; 29; 31; 37; 41; 43; 47; 53;
   59; 61; 67; 71; 73; 79; 83; 89; 97; 101; 103; 107; 109; 113; 127; 131;
   137; 139; 149; 151; 157; 163; 167; 173; 179; 181; 191; 193; 197; 199; 211; 223;
   227; 229; 233; 239; 241; 251; 257; 263; 269; 271; 277; 281; 283; 293; 307; 311].

(** The largest [r] below [2 ^ k] (above the bits already set in [r]) whose
    cube does not exceed [n]. *)
Fixpoint cube_root_bits (k : nat) (n r : N) : N :=
  match k with
  | O => r
  | S k' =>
      let c := r + 2 ^ N.of_nat k' in
      cube_root_bits k' n (if c * c * c <=? n then c else r)
  end.

Definition frac_cbrt32 (p : N) : N := w32 (cube_root_bits 36 (p * 2 ^ 96) 0).
Definition frac_sqrt32 (p : N) : N := w32 (N.sqrt (p * 2 ^ 64)).

Definition sha256_K : list N := Eval vm_compute in map frac_cbrt32 first_primes.

Definition sha256_init : list N := Eval vm_compute in map frac_sqrt32 (take 8 first_primes).

(** The message schedule, latest word first. *)
Fixpoint schedule (k : nat) (wrev : list N) : list N :=
  match k with
  | O => wrev
  | S k' =>
      let w := w32 (ssig1 (nth 1 wrev 0) + nth 6 wrev 0 + ssig0 (nth 14 wrev 0) + nth 15 wrev 0) in
      schedule k' (w :: wrev)
  end.

(** One round of the compression function on the eight working words. *)
Definition round (s : list N) (kw : N * N) : list N :=
  match s with
  | [a; b; c; d; e; f; g; h] =>
      let t1 := h + bsig1 e + Ch e f g + kw.1 + kw.2 in
      let t2 := bsig0 a + Maj a b c in
      [w32 (t1 + t2); a; b; c; w32 (d + t1); e; f; g]
  | _ => s
  end.

Fixpoint be32 (bs : list byte) : list N :=
  match bs with
  | b0 :: b1 :: b2 :: b3 :: bs' =>
      (((Byte.to_N b0 * 256 + Byte.to_N b1) * 256 + Byte.to_N b2) * 256 + Byte.to_N b3) :: be32 bs'
  | _ => []
  end.

Definition sha256_block (s : list N) (block : list byte) : list N :=
  let w := rev (schedule 48 (rev (be32 block))) in
  let s' := foldl round s (zip sha256_K w) in
  zip_with (λ x y, w32 (x + y)) s s'.

Fixpoint sha256_blocks (fuel : nat) (s : list N) (m : list byte) : list N :=
  match fuel, m with
  | S fuel', _ :: _ => sha256_blocks fuel' (sha256_block s (take 64 m)) (drop 64 m)
  | _, _ => s
  end.

Definition byte_of_N (n : N) : byte := default x00 (Byte.of_N (n mod 256)).

Definition be_bytes (k : nat) (n : N) : list byte :=
  map (λ i, byte_of_N (N.shiftr n (8 * N.of_nat (k - 1 - i)))) (seq 0 k).

(** The message with its padding: a set bit, zeros, and the length in bits. *)
Definition sha256_pad (m : list byte) : list byte :=
  let len := length m in
  let zeros := ((119 - len mod 64) mod 64)%nat in
  m ++ [x80] ++ replicate zeros x00 ++ be_bytes 8 (8 * N.of_nat len).

(** [sha256.Sum256] *)
Definition sha256_Sum256 (m : list byte) : list byte :=
  let p := sha256_pad m in
  concat (map (be_bytes 4) (sha256_blocks (length p) sha256_init p)).

End SHA256.

(** ** Package [path/filepath] on a Unix host

    A cleaned path is kept as its root flag and its components; [render]
    prints it the way [filepath.Clean] does. *)

Definition path : Type := bool * list string.

(** The loop of [Clean] over the elements between separators, [out] being
    the elements written so far, last first. *)
Fixpoint clean_go (rooted : bool) (out : list string) (elems : list string) : list string :=
  match elems with
  | [] => rev out
  | e :: elems' =>
      if String.eqb e "" || String.eqb e "." then clean_go rooted out elems'
      else if String.eqb e ".." then
        match out with
        | top :: out' =>
            if String.eqb top ".."
            then clean_go rooted (if rooted then out else ".." :: out) elems'
            else clean_go rooted out' elems'
        | [] => clean_go rooted (if rooted then [] else [".."]) elems'
        end
      else clean_go rooted (e :: out) elems'
  end.

Definition clean_path (s : string) : path :=
  let rooted := String.prefix "/" s in
  (rooted, clean_go rooted [] (strings_Split s "/")).

Definition render (p : path) : string :=
  if p.1 then "/" +:+ String.concat "/" p.2
  else match p.2 with
       | [] => "."
       | _ => String.concat "/" p.2
       end.

Definition filepath_Clean (s : string) : string := render (clean_path s).

(** [filepath.Join]: leading empty elements are dropped, the rest is
    joined with separators and cleaned; no element left gives [""]. *)
Fixpoint filepath_Join (elem : list string) : string :=
  match elem with
  | [] => ""
  | e :: elem' =>
      if String.eqb e "" then filepath_Join elem'
      else filepath_Clean (String.concat "/" elem)
  end.

(** ** Errors, the file system and the network *)

(** Go [error] values, one constructor for each place that makes one. *)
Inductive error :=
| ErrLib (msg : string)                      (* an error of a library call *)
| ErrShortWrite                              (* io.ErrShortWrite *)
| ErrDownload (cause : error)                (* line 50 *)
| ErrDownloadStatus (code : Z) (uri : string)   (* line 55 *)
| ErrChecksumGet (uri : string) (cause : error) (* line 87 *)
| ErrChecksumStatus (uri : string) (code : Z)   (* line 92 *)
| ErrHashMismatch (sum shasum : string)      (* line 102 *)
| ErrUnpack (dest : string) (cause : error)  (* line 113 *)
| ErrConnect (cause : error)                 (* line 206 *)
| ErrListStatus (code : Z)                   (* line 211 *)
| ErrCacheWrite (cause : error)              (* line 220 *)
| ErrCacheRead (cause : error).              (* line 241 *)

Inductive node :=
| Dir (perm : N) (mtime : Z)
| File (perm : N) (mtime : Z) (content : list byte).

(** What is observed of a run besides the file system: the requests sent
    and the extractions started. *)
Inductive event :=
| EvHttpGet (url : string)
| EvExtract (src dest : string).

(** The machine state threaded through the program.  The file system maps
    cleaned paths to nodes; the roots [/] and [.] always exist.  Files are
    told apart by their cleaned names: there are no links, the working
    directory is not resolved (a relative and an absolute name are never
    the same file), and [..] at the head of a relative name is a name like
    any other.  [budget] is the number of bytes that can still be written
    to files before a write comes back short with an error. *)
Record state := {
  fs : gmap path node;
  budget : N;
  log : list event
}.

(** A stream as its reads deliver it: the chunks in order, then [io.EOF]
    ([None]) or an error. *)
Record reader := {
  chunks : list (list byte);
  final : option error
}.

Record response := {
  StatusCode : Z;
  ContentLength : string;        (* the Content-Length header, [""] if absent *)
  Body : reader
}.

Inductive http_result :=
| HttpError (e : error)
| HttpResponse (r : response).

(** An archive entry: header name, [FileInfo] and contents. *)
Record entry := {
  Name : string;
  IsDir : bool;
  Mode : N;
  Data : reader
}.

(** What [tar.Reader.Next] yields: the entries, then [io.EOF] or an error. *)
Record tar_stream := {
  tar_entries : list entry;
  tar_end : option error
}.

(** A member of a zip archive; [zf_open] is the error of [f.Open()]. *)
Record zip_file := {
  zf_entry : entry;
  zf_open : option error
}.

(** Everything outside the program: the clock, the host, the servers, and
    the archive decoders, which are used as black boxes. *)
Record env := {
  now : Z;                                     (* time.Now(), in ns *)
  windows : bool;                              (* runtime.GOOS == "windows" *)
  new_request : string → option error;         (* the error of http.NewRequest *)
  http_get : string → http_result;             (* the answer to GET url *)
  gzip_tar : list byte → error + tar_stream;   (* gzip.NewReader and tar.NewReader *)
  zip_reader : list byte → error + list zip_file   (* zip.OpenReader *)
}.

Inductive stat_result :=
| StatOk (n : node)
| StatNotExist                               (* os.IsNotExist holds *)
| StatNotDir.                                (* ENOTDIR *)

(** Resolution of the components [rest] below the directory [(rooted, rev
    done)]. *)
Fixpoint walk (m : gmap path node) (rooted : bool) (done rest : list string) : stat_result :=
  match rest with
  | [] => match done with
          | [] => StatOk (Dir 511 0)
          | _ => match m !! (rooted, rev done) with
                 | Some n => StatOk n
                 | None => StatNotExist
                 end
          end
  | c :: rest' =>
      match done with
      | [] => walk m rooted [c] rest'
      | _ => match m !! (rooted, rev done) with
             | Some (Dir _ _) => walk m rooted (c :: done) rest'
             | Some (File _ _ _) => StatNotDir
             | None => StatNotExist
             end
      end
  end.

Definition stat_path (m : gmap path node) (p : path) : stat_result :=
  walk m p.1 [] p.2.

(** [os.Stat] *)
Definition os_Stat (st : state) (name : string) : stat_result :=
  if String.eqb name "" then StatNotExist else stat_path (fs st) (clean_path name).

Definition parent (p : path) : path := (p.1, removelast p.2).

(** [q] is [p] or lies below it. *)
Definition under (p q : path) : Prop := p.1 = q.1 ∧ p.2 `prefix_of` q.2.

Definition has_children (m : gmap path node) (p : path) : bool :=
  bool_decide (filter (λ kv, under p kv.1 ∧ kv.1 ≠ p) m ≠ ∅).

Definition enoent : error := ErrLib "no such file or directory".
Definition enotdir : error := ErrLib "not a directory".
Definition eisdir : error := ErrLib "is a directory".
Definition enotempty : error := ErrLib "directory not empty".
Definition einval : error := ErrLib "invalid argument".
Definition enospc : error := ErrLib "no space left on device".

Definition stat_error (r : stat_result) : error :=
  match r with StatNotDir => enotdir | _ => enoent end.

(** The directories of [os.MkdirAll], outermost first. *)
Fixpoint mkdir_walk (now : Z) (perm : N) (m : gmap path node) (rooted : bool)
    (done rest : list string) : gmap path node * option error :=
  match rest with
  | [] => (m, None)
  | c :: rest' =>
      let p := (rooted, rev (c :: done)) in
      match m !! p with
      | Some (Dir _ _) => mkdir_walk now perm m rooted (c :: done) rest'
      | Some (File _ _ _) => (m, Some enotdir)
      | None => mkdir_walk now perm (<[p := Dir perm now]> m) rooted (c :: done) rest'
      end
  end.

Definition set_fs (st : state) (m : gmap path node) : state :=
  {| fs := m; budget := budget st; log := log st |}.

Definition add_event (st : state) (e : event) : state :=
  {| fs := fs st; budget := budget st; log := log st ++ [e] |}.

(** [os.MkdirAll] *)
Definition os_MkdirAll (E : env) (st : state) (name : string) (perm : N)
  : state * option error :=
  if String.eqb name "" then (st, Some enoent)
  else let p := clean_path name in
       let '(m, err) := mkdir_walk (now E) perm (fs st) p.1 [] p.2 in
       (set_fs st m, err).

(** [os.Remove]: a file or an empty directory. *)
Definition os_Remove (st : state) (name : string) : state * option error :=
  if String.eqb name "" then (st, Some enoent)
  else let p := clean_path name in
       match p.2, stat_path (fs st) p with
       | [], _ => (st, Some einval)
       | _, StatOk (File _ _ _) => (set_fs st (delete p (fs st)), None)
       | _, StatOk (Dir _ _) =>
           if has_children (fs st) p then (st, Some enotempty)
           else (set_fs st (delete p (fs st)), None)
       | _, r => (st, Some (stat_error r))
       end.

Definition endsWithDot (name : string) : bool :=
  String.eqb name "." ||
  String.eqb (str_drop (String.length name - 2) name) "/.".

(** [os.RemoveAll]: the path and everything below it; the empty name is
    accepted silently and a name ending in a dot is refused. *)
Definition os_RemoveAll (st : state) (name : string) : state * option error :=
  if String.eqb name "" then (st, None)
  else if endsWithDot name then (st, Some einval)
  else let p := clean_path name in
       (set_fs st (filter (λ kv, ¬ under p kv.1) (fs st)), None).

(** [os.OpenFile name (O_CREATE|O_TRUNC|O_WRONLY) perm]: the file is
    created empty, or emptied when it exists. *)
Definition os_OpenFile (E : env) (st : state) (name : string) (perm : N)
  : state * option error :=
  if String.eqb name "" then (st, Some enoent)
  else let p := clean_path name in
       match stat_path (fs st) p with
       | StatOk (Dir _ _) => (st, Some eisdir)
       | StatOk (File perm' _ _) => (set_fs st (<[p := File perm' (now E) []]> (fs st)), None)
       | StatNotDir => (st, Some enotdir)
       | StatNotExist =>
           match stat_path (fs st) (parent p) with
           | StatOk (Dir _ _) => (set_fs st (<[p := File perm (now E) []]> (fs st)), None)
           | StatOk (File _ _ _) => (st, Some enotdir)
           | r => (st, Some (stat_error r))
           end
       end.

(** Contents of the file [name], as [os.Open] followed by reads gives them. *)
Definition read_file (st : state) (name : string) : error + list byte :=
  if String.eqb name "" then inl enoent
  else match stat_path (fs st) (clean_path name) with
       | StatOk (File _ _ c) => inr c
       | StatOk (Dir _ _) => inl eisdir
       | r => inl (stat_error r)
       end.

(** ** Package [io]: writers, [MultiWriter], [Copy] *)

(** [io.Writer]: the bytes accepted and the error of one [Write]. *)
Class Writer (W : Type) := Write : W → list byte → W * nat * option error.

(** An open [*os.File]: the machine state its writes act on, and its path. *)
Record os_File := {
  f_state : state;
  f_name : path;
  f_now : Z
}.

(** A write appends to the file; when the budget runs out it is short and
    fails. *)
Definition file_Write (f : os_File) (p : list byte) : os_File * nat * option error :=
  let st := f_state f in
  match fs st !! f_name f with
  | Some (File perm _ c) =>
      let n := if (N.of_nat (length p) <=? budget st)%N
               then length p else N.to_nat (budget st) in
      let st' := {| fs := <[f_name f := File perm (f_now f) (c ++ take n p)]> (fs st);
                    budget := budget st - N.of_nat n;
                    log := log st |} in
      ({| f_state := st'; f_name := f_name f; f_now := f_now f |}, n,
       if (n <? length p)%nat then Some enospc else None)
  | _ => (f, 0%nat, Some (ErrLib "file already closed"))
  end.

#[export] Instance os_File_Writer : Writer os_File := file_Write.

(** A running [hash.Hash]: the bytes written to it so far. *)
Record hasher := { written : list byte }.

#[export] Instance hasher_Writer : Writer hasher :=
  λ h p, ({| written := written h ++ p |}, length p, None).

(** [h.Sum(nil)] for [h := sha256.New()]. *)
Definition hasher_Sum (h : hasher) : list byte := sha256_Sum256 (written h).

(** A [pb.ProgressBar]: its total and the bytes counted so far. *)
Record ProgressBar := { Total : Z; current : N }.

#[export] Instance ProgressBar_Writer : Writer ProgressBar :=
  λ b p, ({| Total := Total b; current := current b + N.of_nat (length p) |}, length p, None).

(** [io.MultiWriter]: each writer in turn gets the whole chunk; the first
    error or short write stops the round. *)
#[export] Instance MultiWriter {W1 W2} `{Writer W1} `{Writer W2} : Writer (W1 * W2) :=
  λ w p,
    let '(w1, n, err) := Write w.1 p in
    match err with
    | Some e => ((w1, w.2), n, Some e)
    | None =>
        if negb (n =? length p)%nat then ((w1, w.2), n, Some ErrShortWrite)
        else let '(w2, n, err) := Write w.2 p in
             match err with
             | Some e => ((w1, w2), n, Some e)
             | None =>
                 if negb (n =? length p)%nat then ((w1, w2), n, Some ErrShortWrite)
                 else ((w1, w2), length p, None)
             end
    end.

(** The loop of [io.Copy dst src]: every non-empty read is written before
    the next read; a write error or a short write ends the copy, [io.EOF]
    ends it without error. *)
Fixpoint copy_loop {W} `{Writer W} (dst : W) (cs : list (list byte))
    (fin : option error) (n : N) : W * N * option error :=
  match cs with
  | [] => (dst, n, fin)
  | c :: cs' =>
      match c with
      | [] => copy_loop dst cs' fin n
      | _ =>
          let '(dst', nw, ew) := Write dst c in
          let '(nw, ew) :=
            if (length c <? nw)%nat
            then (0%nat, Some (default (ErrLib "invalid write result") ew))
            else (nw, ew) in
          let n' := (n + N.of_nat nw)%N in
          match ew with
          | Some e => (dst', n', Some e)
          | None =>
              if negb (length c =? nw)%nat then (dst', n', Some ErrShortWrite)
              else copy_loop dst' cs' fin n'
          end
      end
  end.

Definition io_Copy {W} `{Writer W} (dst : W) (src : reader) : W * N * option error :=
  copy_loop dst (chunks src) (final src) 0.

(** [ioutil.ReadAll] *)
Definition ioutil_ReadAll (r : reader) : list byte * option error :=
  (concat (chunks r), final r).

(** [ioutil.ReadFile] *)
Definition ioutil_ReadFile (st : state) (name : string) : error + list byte :=
  read_file st name.

(** [ioutil.WriteFile]: open (create, truncate), one write, close. *)
Definition ioutil_WriteFile (E : env) (st : state) (name : string) (data : list byte) (perm : N)
  : state * option error :=
  match os_OpenFile E st name perm with
  | (st, Some e) => (st, Some e)
  | (st, None) =>
      let f := {| f_state := st; f_name := clean_path name; f_now := now E |} in
      let '(f, n, err) := Write f data in
      match err with
      | Some e => (f_state f, Some e)
      | None =>
          if (n <? length data)%nat then (f_state f, Some ErrShortWrite)
          else (f_state f, None)
      end
  end.

(** ** Package [time] *)

Definition maxDuration : Z := 9223372036854775807.
Definition minDuration : Z := -9223372036854775808.
Definition Hour : Z := 3600000000000.

(** [t.Sub(u)]: the difference in nanoseconds, kept within [Duration]. *)
Definition time_Sub (t u : Z) : Z :=
  Z.max minDuration (Z.min maxDuration (t - u)).

(** [%x] of a byte slice. *)
Definition hex_digit (n : N) : ascii :=
  if (n <? 10)%N then ascii_of_N (48 + n) else ascii_of_N (87 + n).

Fixpoint hex (b : list byte) : string :=
  match b with
  | [] => ""
  | x :: b' =>
      let n := Byte.to_N x in
      String (hex_digit (n / 16)) (String (hex_digit (n mod 16)) (hex b'))
  end.

(** ** The program: [install_go/download.go] *)

Definition DefaultDownloadURLPrefix : string := "https://dl.google.com/go".
Definition DefaultSourceURL : string := "https://go.googlesource.com/go/+refs?format=TEXT".
Definition ModePerm : N := 511.

(** Lines 120-122: the leading [go/] of an entry name is cut off. *)
Definition strip_root (name : string) : string :=
  if strings_HasPrefix name "go/" then str_drop (String.length "go/") name else name.

(** Lines 125-144: what [unpack] does once the target [path] is known. *)
Definition unpack_at (E : env) (st : state) (path : string) (fi : entry)
  : state * option error :=
  if IsDir fi then os_MkdirAll E st path (Mode fi)
  else match os_OpenFile E st path (Mode fi) with
       | (st, Some e) => (st, Some e)
       | (st, None) =>
           let f := {| f_state := st; f_name := clean_path path; f_now := now E |} in
           let bar := {| Total := 0; current := 0 |} in
           let '(w, _, err) := io_Copy (f, bar) (Data fi) in
           (f_state w.1, err)
       end.

Definition unpack (E : env) (st : state) (dest name : string) (fi : entry)
  : state * option error :=
  let name := strip_root name in
  let path := filepath_Join [dest; name] in
  unpack_at E st path fi.

(** Lines 162-173: [tarReader.Next()] until [io.EOF] or an error. *)
Fixpoint unpackTar_loop (E : env) (st : state) (dest : string) (es : list entry)
    (fin : option error) : state * option error :=
  match es with
  | [] => (st, fin)
  | header :: es' =>
      match unpack E st dest (Name header) header with
      | (st, Some e) => (st, Some e)
      | (st, None) => unpackTar_loop E st dest es' fin
      end
  end.

Definition unpackTar (E : env) (st : state) (src dest : string) : state * option error :=
  match read_file st src with
  | inl e => (st, Some e)
  | inr bytes =>
      match gzip_tar E bytes with
      | inl e => (st, Some e)
      | inr archive => unpackTar_loop E st dest (tar_entries archive) (tar_end archive)
      end
  end.

(** Lines 184-193: [for _, f := range zr.File]. *)
Fixpoint unpackZip_loop (E : env) (st : state) (dest : string) (files : list zip_file)
  : state * option error :=
  match files with
  | [] => (st, None)
  | f :: files' =>
      match zf_open f with
      | Some e => (st, Some e)
      | None =>
          match unpack E st dest (Name (zf_entry f)) (zf_entry f) with
          | (st, Some e) => (st, Some e)
          | (st, None) => unpackZip_loop E st dest files'
          end
      end
  end.

Definition unpackZip (E : env) (st : state) (src dest : string) : state * option error :=
  match read_file st src with
  | inl e => (st, Some e)
  | inr bytes =>
      match zip_reader E bytes with
      | inl e => (st, Some e)
      | inr files => unpackZip_loop E st dest files
      end
  end.

(** Lines 33-103 of [downloadGoVersion]: the archive is fetched into the
    cache and its digest is compared with the published one.  On success
    the name of the cache file and the digest are handed on. *)
Definition download_verify (E : env) (st : state) (target : string)
  : state * (error + string * string) :=
  let uri := DefaultDownloadURLPrefix +:+ "/" +:+ target in
  match new_request E uri with
  | Some e => (st, inl e)
  | None =>
      let st := add_event st (EvHttpGet uri) in
      match http_get E uri with
      | HttpError e => (st, inl (ErrDownload e))
      | HttpResponse resp =>
          if (299 <? StatusCode resp)%Z
          then (st, inl (ErrDownloadStatus (StatusCode resp) uri))
          else
            match strconv_Atoi (ContentLength resp) with
            | None => (st, inl (ErrLib "strconv.Atoi: invalid syntax or out of range"))
            | Some size =>
                let cachePath := filepath_Join ["cache"; "downloads"] in
                let '(st, _) := os_MkdirAll E st cachePath ModePerm in
                let targetName := filepath_Join [cachePath; target] in
                let '(st, _) := os_Remove st targetName in
                match os_OpenFile E st targetName ModePerm with
                | (st, Some e) => (st, inl e)
                | (st, None) =>
                    let targetFile :=
                      {| f_state := st; f_name := clean_path targetName; f_now := now E |} in
                    let bar := {| Total := size; current := 0 |} in
                    let h := {| written := [] |} in
                    let '(w, _, err) := io_Copy (targetFile, (h, bar)) (Body resp) in
                    let st := f_state w.1 in
                    let h := w.2.1 in
                    match err with
                    | Some e => (st, inl e)
                    | None =>
                        let st := add_event st (EvHttpGet (uri +:+ ".sha256")) in
                        match http_get E (uri +:+ ".sha256") with
                        | HttpError e => (st, inl (ErrChecksumGet uri e))
                        | HttpResponse sresp =>
                            if (299 <? StatusCode sresp)%Z
                            then (st, inl (ErrChecksumStatus uri (StatusCode sresp)))
                            else
                              match ioutil_ReadAll (Body sresp) with
                              | (_, Some e) => (st, inl e)
                              | (shasum, None) =>
                                  let sum := hex (hasher_Sum h) in
                                  if negb (String.eqb sum (string_of_list_byte shasum))
                                  then (st, inl (ErrHashMismatch sum (string_of_list_byte shasum)))
                                  else (st, inr (targetName, sum))
                              end
                        end
                    end
                end
            end
      end
  end.

(** Lines 105-116 of [downloadGoVersion]: the destination is removed and
    the verified archive is extracted into it. *)
Definition extract_verified (E : env) (st : state) (targetName dest : string)
  : state * option error :=
  let unpackFn := if windows E then unpackZip else unpackTar in
  let '(st, _) := os_RemoveAll st dest in
  let st := add_event st (EvExtract targetName dest) in
  match unpackFn E st targetName dest with
  | (st, Some e) => (st, Some (ErrUnpack dest e))
  | (st, None) => (st, None)
  end.

Definition downloadGoVersion (E : env) (st : state) (target dest : string)
  : state * option error :=
  match download_verify E st target with
  | (st, inl e) => (st, Some e)
  | (st, inr (targetName, _)) => extract_verified E st targetName dest
  end.

(** The result of a call that may also panic. *)
Inductive outcome (A : Type) :=
| Ok (a : A)
| Err (e : error)
| Panic.
Arguments Ok {A} a.
Arguments Err {A} e.
Arguments Panic {A}.

(** Lines 199-224: the closure [getRemoteVersion]. *)
Definition getRemoteVersion (E : env) (st : state) (name : string)
  : state * (error + list byte) :=
  let st := add_event st (EvHttpGet DefaultSourceURL) in
  match http_get E DefaultSourceURL with
  | HttpError e => (st, inl (ErrConnect e))
  | HttpResponse resp =>
      if (299 <? StatusCode resp)%Z then (st, inl (ErrListStatus (StatusCode resp)))
      else
        match ioutil_ReadAll (Body resp) with
        | (_, Some e) => (st, inl e)
        | (b, None) =>
            match ioutil_WriteFile E st name b ModePerm with
            | (st, Some e) => (st, inl (ErrCacheWrite e))
            | (st, None) => (st, inr b)
            end
        end
  end.

Definition ModTime (fi : node) : Z :=
  match fi with
  | Dir _ t => t
  | File _ t _ => t
  end.

Definition remote_listing (E : env) (st : state) (name : string)
  : state * outcome (list byte) :=
  match getRemoteVersion E st name with
  | (st, inl e) => (st, Err e)
  | (st, inr b) => (st, Ok b)
  end.

(** Lines 231-249: the listing comes from the cache file or from the
    server.  When [os.Stat] fails for another reason than absence, [fi] is
    nil and [fi.ModTime()] panics. *)
Definition load_listing (E : env) (st : state) : state * outcome (list byte) :=
  let versionName := filepath_Join ["cache"; "VERSION"] in
  match os_Stat st versionName with
  | StatNotExist => remote_listing E st versionName
  | StatNotDir => (st, Panic)
  | StatOk fi =>
      if (time_Sub (now E) (ModTime fi) <? Hour * 72)%Z
      then match ioutil_ReadFile st versionName with
           | inl e => (st, Err (ErrCacheRead e))
           | inr b => (st, Ok b)
           end
      else remote_listing E st versionName
  end.

Definition getAllGoVersion (E : env) (st : state) : state * outcome (list string) :=
  match load_listing E st with
  | (st, Ok b) => (st, Ok (sorted_versions b))
  | (st, Err e) => (st, Err e)
  | (st, Panic) => (st, Panic)
  end.

(** ** Predicates in which the properties are stated *)

(** [less x y] read as an order, and lists sorted by it. *)
Definition le_by {A} (less : A → A → bool) (x y : A) : Prop := less x y = true.

Definition sorted_by {A} (less : A → A → bool) : list A → Prop :=
  StronglySorted (le_by less).

(** [r] is [pre ++ U ++ V ++ post] with the middle part merged. *)
Definition merge_post {A} (less : A → A → bool) (r pre U V post : list A) : Prop :=
  ∃ res, r = (pre ++ res ++ post)%list ∧ res ≡ₚ (U ++ V)%list ∧ sorted_by less res.

(** Blocks of [k] sorted elements, the last one possibly shorter. *)
Inductive chunked {A} (less : A → A → bool) (k : nat) : list A → Prop :=
| chunked_last u : (length u ≤ k)%nat → sorted_by less u → chunked less k u
| chunked_cons u l :
    length u = k → sorted_by less u → chunked less k l → chunked less k (u ++ l)%list.

(** A three-way comparison that behaves like the comparison of a total
    preorder. *)
Record good_cmp {T : Type} (c : T → T → Z) : Prop := {
  cmp_range : ∀ x y, c x y = (-1)%Z ∨ c x y = 0%Z ∨ c x y = 1%Z;
  cmp_antisym : ∀ x y, c y x = (- c x y)%Z;
  cmp_eq_l : ∀ x y z, c x y = 0%Z → c x z = c y z;
  cmp_gt_trans : ∀ x y z, c x y = 1%Z → c y z = 1%Z → c x z = 1%Z
}.

(** The comparison of two alphanumeric identifiers in [PRVersion.Compare]. *)
Definition compare_str (a b : string) : Z :=
  if String.eqb a b then 0%Z
  else match String.compare a b with Gt => 1%Z | _ => (-1)%Z end.

(** The pre-release part of [Version.Compare]: no pre-release is greatest. *)
Definition compare_pre (pv po : list PRVersion) : Z :=
  match pv, po with
  | [], [] => 0%Z
  | [], _ :: _ => 1%Z
  | _ :: _, [] => (-1)%Z
  | _, _ => Pre_Compare pv po
  end.

Local Open Scope list_scope.

(** *** Release tags *)

(** Tags in the shape of Go's releases.  A numeric section is a decimal
    numeral without leading zero that fits 64 bits; a pre-release marker
    is [beta] or [rc], followed by digits. *)
Fixpoint all_digits (s : string) : bool :=
  match s with
  | "" => true
  | String c s' => is_digit c && all_digits s'
  end.

Fixpoint value_from (acc : N) (s : string) : N :=
  match s with
  | "" => acc
  | String c s' => value_from (acc * 10 + digit_val c) s'
  end.

Definition numeric_section (s : string) : Prop :=
  s ≠ "" ∧ all_digits s = true ∧ hasLeadingZeroes s = false
  ∧ (value_from 0 s <= maxUint64)%N.

Definition marker (m : string) : Prop := m = "beta" ∨ m = "rc".

(** The release [major.minor.patch], with one alphanumeric pre-release
    identifier when [pre] is given. *)
Definition release (major minor patch : N) (pre : option string) : Version :=
  {| Major := major; Minor := minor; Patch := patch;
     Pre := match pre with
            | Some s => [{| VersionStr := s; VersionNum := 0; IsNum := false |}]
            | None => []
            end;
     Build := [] |}.

(** [s] does not contain the byte [c]. *)
Fixpoint no_byte (c : ascii) (s : string) : bool :=
  match s with
  | "" => true
  | String d s' => negb (Ascii.eqb d c) && no_byte c s'
  end.

(** *** The scanning loop *)

(** The state of the scanning loop after the lines that yielded [tags]. *)
Definition scan_inv (tags : list string) (st : list string * gmap string string) : Prop :=
  st.1 = map normalize tags ∧
  ∀ k, k ∈ st.1 → ∃ t, st.2 !! k = Some t ∧ normalize t = k ∧ t ∈ tags.

Definition listing_of (tags : list string) : list byte :=
  list_byte_of_string
    (String.concat "" (map (λ t, "0123abcd refs/tags/go" +:+ t +:+ newline) tags)).

(** The first tag of [tags] with the key [k]. *)
Definition tag_of_key (tags : list string) (k : string) : string :=
  default "" (head (filter (λ t, normalize t = k) tags)).

(** *** Files and copies *)

(** Every proper ancestor of [(r, comps)] is a directory of [m]. *)
Definition dirs_above (m : gmap path node) (r : bool) (comps : list string) : Prop :=
  ∀ k, (0 < k < length comps)%nat → ∃ perm mt, m !! (r, take k comps) = Some (Dir perm mt).

Definition file_content (f : os_File) : option (list byte) :=
  match fs (f_state f) !! f_name f with
  | Some (File _ _ c) => Some c
  | _ => None
  end.

(** What a run of writes to [f] leaves alone: the name and clock of the
    file, the log, and every other path. *)
Definition same_but_file (f f' : os_File) : Prop :=
  f_name f' = f_name f ∧ f_now f' = f_now f ∧ log (f_state f') = log (f_state f)
  ∧ ∀ q, q ≠ f_name f → fs (f_state f') !! q = fs (f_state f) !! q.

(** *** The download *)

Definition archive_uri (target : string) : string :=
  DefaultDownloadURLPrefix +:+ "/" +:+ target.

Definition cache_dir : string := filepath_Join ["cache"; "downloads"].

Definition cache_name (target : string) : string := filepath_Join [cache_dir; target].

Definition archive_offered (E : env) (target : string) (resp : response) (size : Z) : Prop :=
  new_request E (archive_uri target) = None
  ∧ http_get E (archive_uri target) = HttpResponse resp
  ∧ (StatusCode resp <= 299)%Z
  ∧ strconv_Atoi (ContentLength resp) = Some size.

Definition cache_file_created (E : env) (st : state) (target : string) (st1 : state) : Prop :=
  os_OpenFile E
    (os_Remove
       (os_MkdirAll E (add_event st (EvHttpGet (archive_uri target))) cache_dir ModePerm).1
       (cache_name target)).1
    (cache_name target) ModePerm = (st1, None).

Definition digest_published (E : env) (target : string) (shasum : list byte) : Prop :=
  ∃ sresp, http_get E (archive_uri target +:+ ".sha256") = HttpResponse sresp
           ∧ (StatusCode sresp <= 299)%Z
           ∧ ioutil_ReadAll (Body sresp) = (shasum, None).

(** The state after the body [bytes] has been copied into the cache file
    that [st1] holds empty. *)
Definition after_copy (E : env) (target : string) (st1 : state) (bytes : list byte) (st2 : state)
  : Prop :=
  ∃ perm mt,
    st2 = {| fs := <[clean_path (cache_name target) := File perm mt bytes]> (fs st1);
             budget := budget st1 - N.of_nat (length bytes);
             log := log st1 |}.

(** The paths a download may create, remove or write. *)
Definition cache_paths (target : string) : list path :=
  [(false, ["cache"]); (false, ["cache"; "downloads"]); clean_path (cache_name target)].

(** [st'] differs from [st] at most on the cache paths and by requests
    added to the log. *)
Definition cache_only (target : string) (st st' : state) : Prop :=
  (∀ q, q ∉ cache_paths target → fs st' !! q = fs st !! q)
  ∧ (∀ ev, ev ∈ log st' → ev ∈ log st ∨ ∃ url, ev = EvHttpGet url).

(** The archive in [bytes] decodes, on this host, to no entry at all. *)
Definition empty_archive (E : env) (bytes : list byte) : Prop :=
  if windows E then zip_reader E bytes = inr []
  else gzip_tar E bytes = inr {| tar_entries := []; tar_end := None |}.

(** *** The cache of the listing *)

(** The cache file of the listing (line 230). *)
Definition version_cache : string := filepath_Join ["cache"; "VERSION"].

(** The cached listing exists and is younger than 72 hours. *)
Definition cache_fresh (E : env) (st : state) : Prop :=
  ∃ fi, os_Stat st version_cache = StatOk fi ∧ (now E - ModTime fi < 72 * Hour)%Z.

(** The cached listing is missing, or is 72 hours old or older. *)
Definition cache_stale (E : env) (st : state) : Prop :=
  os_Stat st version_cache = StatNotExist
  ∨ ∃ fi, os_Stat st version_cache = StatOk fi ∧ (72 * Hour <= now E - ModTime fi)%Z.

(** ** A small world to run the program in *)

Definition served (l : list string) : reader :=
  {| chunks := map list_byte_of_string l; final := None |}.

(** A server that delivers the archive [go1.tar.gz] in the chunks [body]
    and publishes [digest] beside it; the host is not Windows and the
    archive decodes to the entries [entries]. *)
Definition example_env (body : list string) (digest : string) (entries : list entry) : env :=
  {| now := 1000;
     windows := false;
     new_request := λ _, None;
     http_get := λ url,
       if String.eqb url "https://dl.google.com/go/go1.tar.gz" then
         HttpResponse {| StatusCode := 200;
                         ContentLength := "3";
                         Body := served body |}
       else if String.eqb url "https://dl.google.com/go/go1.tar.gz.sha256" then
         HttpResponse {| StatusCode := 200; ContentLength := "64"; Body := served [digest] |}
       else HttpError (ErrLib "no such host");
     gzip_tar := λ _, inr {| tar_entries := entries; tar_end := None |};
     zip_reader := λ _, inl (ErrLib "zip: not a valid zip file") |}.

Definition abc_digest : string :=
  "ba7816bf8f01cfea414140de5dae2223b00361a396177a9cb410ff61f20015ad".

Definition abc_digest_altered : string :=
  "ba7816bf8f01cfea414140de5dae2223b00361a396177a9cb410ff61f20015ae".

Definition empty_state : state := {| fs := ∅; budget := 1000; log := [] |}.

(** A state in which [/dest] holds an earlier installation. *)
Definition installed_state : state :=
  {| fs := {[ (true, ["dest"]) := Dir 493 10;
              (true, ["dest"; "VERSION"]) := File 420 10 (list_byte_of_string "go1") ]};
     budget := 1000;
     log := [] |}.

(** A server for the listing, read at time [t]. *)
Definition listing_env (t : Z) (body : list string) : env :=
  {| now := t;
     windows := false;
     new_request := λ _, None;
     http_get := λ url,
       if String.eqb url DefaultSourceURL then
         HttpResponse {| StatusCode := 200; ContentLength := ""; Body := served body |}
       else HttpError (ErrLib "no such host");
     gzip_tar := λ _, inl (ErrLib "gzip: invalid header");
     zip_reader := λ _, inl (ErrLib "zip: not a valid zip file") |}.

(** A state whose listing cache was written at [mtime]. *)
Definition cached_state (mtime : Z) (content : string) : state :=
  {| fs := {[ (false, ["cache"]) := Dir 493 0;
              (false, ["cache"; "VERSION"]) := File 511 mtime (list_byte_of_string content) ]};
     budget := 1000;
     log := [] |}.

(** An archive with the layout of a Go distribution. *)
Definition go_entries : list entry :=
  [ {| Name := "go/"; IsDir := true; Mode := 493; Data := served [] |};
    {| Name := "go/bin/"; IsDir := true; Mode := 493; Data := served [] |};
    {| Name := "go/bin/tool"; IsDir := false; Mode := 493; Data := served ["#!"; "tool"] |};
    {| Name := "go/README"; IsDir := false; Mode := 420; Data := served ["read me"] |} ].

(** A state in which [cache] is a regular file. *)
Definition blocked_state : state :=
  {| fs := {[ (false, ["cache"]) := File 420 0 [] ]}; budget := 1000; log := [] |}.

(** A file of [go1.tar.gz] opened on a disk with room for two bytes. *)
Definition small_disk_file : os_File :=
  {| f_state := {| fs := {[ (false, ["cache"]) := Dir 493 0;
                            (false, ["cache"; "go1.tar.gz"]) := File 511 0 [] ]};
                   budget := 2;
                   log := [] |};
     f_name := (false, ["cache"; "go1.tar.gz"]);
     f_now := 5 |}.

(** *** Further predicates *)

(** The server's answer to the request for the archive is refused by the
    checks of lines 42-61. *)
Definition response_refused (E : env) (target : string) : Prop :=
  (∃ e, new_request E (archive_uri target) = Some e)
  ∨ (∃ e, http_get E (archive_uri target) = HttpError e)
  ∨ ∃ resp, http_get E (archive_uri target) = HttpResponse resp
            ∧ ((299 < StatusCode resp)%Z ∨ strconv_Atoi (ContentLength resp) = None).

(** The archive in [bytes] is rejected by the decoder of this host. *)
Definition archive_rejected (E : env) (bytes : list byte) (e : error) : Prop :=
  if windows E then zip_reader E bytes = inl e else gzip_tar E bytes = inl e.

(** The path at which [unpack] puts the entry [e] of an archive extracted
    to [dest] (lines 120-124). *)
Definition entry_path (dest : string) (e : entry) : path :=
  clean_path (filepath_Join [dest; strip_root (Name e)]).

(** The entries that the decoder of this host finds in [bytes]. *)
Definition archive_entries (E : env) (bytes : list byte) : list entry :=
  if windows E then
    match zip_reader E bytes with
    | inr files => map zf_entry files
    | inl _ => []
    end
  else
    match gzip_tar E bytes with
    | inr archive => tar_entries archive
    | inl _ => []
    end.

(** The decoder of this host finds [e] as the first entry of [bytes]. *)
Definition first_entry (E : env) (bytes : list byte) (e : entry) : Prop :=
  if windows E then
    ∃ f files, zip_reader E bytes = inr (f :: files) ∧ zf_open f = None ∧ zf_entry f = e
  else
    ∃ archive es, gzip_tar E bytes = inr archive ∧ tar_entries archive = e :: es.

(** A path element that is a name: not empty, not [.] or [..], without a
    separator. *)
Definition plain_name (s : string) : Prop :=
  s ≠ "" ∧ s ≠ "." ∧ s ≠ ".." ∧ no_byte "/" s = true.

(** A word: printable ASCII bytes other than the blank. *)
Fixpoint word (s : string) : bool :=
  match s with
  | "" => true
  | String c s' => byte_in 33 126 c && word s'
  end.

(** * Properties

    ** [sort.SliceStable] sorts, whatever total preorder [less] is *)

Section SortProofs.
Local Close Scope string_scope.
Context {A : Type}.
Variable less : A → A → bool.
Hypothesis less_total : ∀ x y, less x y = true ∨ less y x = true.
Hypothesis less_trans : ∀ x y z, less x y = true → less y z = true → less x z = true.

Local Notation le := (le_by less).
Local Notation sorted := (StronglySorted (le_by less)) (only parsing).

Lemma Less_adjacent (pre : list A) y x post :
  Less less (pre ++ y :: x :: post) (S (length pre)) (length pre) = less x y.
Proof.
  unfold Less.
  replace (S (length pre)) with (length (pre ++ [y])) by (rewrite length_app; simpl; lia).
  replace (pre ++ y :: x :: post) with ((pre ++ [y]) ++ x :: post) by (by rewrite <- app_assoc).
  rewrite list_lookup_middle by done.
  rewrite <- app_assoc. simpl.
  rewrite list_lookup_middle by done. done.
Qed.

Lemma Swap_adjacent (pre : list A) y x post :
  Swap (pre ++ y :: x :: post) (S (length pre)) (length pre) = pre ++ x :: y :: post.
Proof.
  unfold Swap.
  assert (H1 : (pre ++ y :: x :: post) !! S (length pre) = Some x).
  { rewrite lookup_app_r by lia. replace (S (length pre) - length pre) with 1 by lia. done. }
  assert (H2 : (pre ++ y :: x :: post) !! length pre = Some y).
  { by rewrite list_lookup_middle. }
  rewrite H1, H2.
  rewrite insert_app_r_alt by lia. replace (length pre - length pre) with 0 by lia. simpl.
  rewrite insert_app_r_alt by lia. replace (S (length pre) - length pre) with 1 by lia. done.
Qed.

Lemma Swap_adjacent' (pre : list A) y x post :
  Swap (pre ++ y :: x :: post) (length pre) (S (length pre)) = pre ++ x :: y :: post.
Proof.
  unfold Swap.
  assert (H1 : (pre ++ y :: x :: post) !! S (length pre) = Some x).
  { rewrite lookup_app_r by lia. replace (S (length pre) - length pre) with 1 by lia. done. }
  assert (H2 : (pre ++ y :: x :: post) !! length pre = Some y).
  { by rewrite list_lookup_middle. }
  rewrite H1, H2.
  rewrite insert_app_r_alt by lia. replace (S (length pre) - length pre) with 1 by lia. simpl.
  rewrite insert_app_r_alt by lia. replace (length pre - length pre) with 0 by lia. done.
Qed.

Lemma sorted_cons_elem x (l : list A) : sorted l → (∀ y, y ∈ l → le x y) → sorted (x :: l).
Proof. intros Hs Hx. constructor; [done|]. by apply Forall_forall. Qed.

Lemma insertion_inner_stop a (data : list A) : insertion_inner less a a data = data.
Proof. destruct a; simpl; [done|]. by rewrite Nat.ltb_irrefl. Qed.

Lemma insertion_inner_spec (L : list A) : ∀ pre x R post,
  sorted L → sorted R → (∀ r, r ∈ R → le x r) → (∀ l r, l ∈ L → r ∈ R → le l r) →
  ∃ res, insertion_inner less (length pre) (length pre + length L) (pre ++ L ++ x :: R ++ post)
         = pre ++ res ++ post ∧ res ≡ₚ L ++ x :: R ∧ sorted res.
Proof.
  induction L as [|y L IH] using rev_ind; intros pre x R post HL HR HxR HLR.
  - exists (x :: R). simpl. rewrite Nat.add_0_r. split; [|split; [reflexivity|]].
    2:{ apply sorted_cons_elem; auto. }
    apply insertion_inner_stop.
  - rewrite length_app. simpl.
    replace (length pre + (length L + 1)) with (S (length (pre ++ L))) by (rewrite length_app; lia).
    cbn [insertion_inner].
    assert (Hlt : (length pre <? S (length (pre ++ L))) = true)
      by (apply Nat.ltb_lt; rewrite length_app; lia).
    rewrite Hlt. cbn [andb].
    replace (pre ++ (L ++ [y]) ++ x :: R ++ post) with ((pre ++ L) ++ y :: x :: (R ++ post))
      by (rewrite <- !app_assoc; done).
    rewrite Less_adjacent.
    apply StronglySorted_app in HL as (HLy & HL' & _).
    destruct (less x y) eqn:Hxy.
    + rewrite Swap_adjacent.
      destruct (IH pre x (y :: R) post) as (res & Hres & Hperm & Hsorted).
      * done.
      * apply sorted_cons_elem; [done|]. intros r Hr. apply HLR; [|done]. set_solver.
      * intros r [->|Hr]%elem_of_cons; [done|by apply HxR].
      * intros l r Hl [->|Hr]%elem_of_cons; [apply HLy; set_solver|]. apply HLR; set_solver.
      * exists res. split; [|split; [|done]].
        -- rewrite <- Hres. rewrite length_app. rewrite <- !app_assoc. done.
        -- rewrite Hperm. rewrite <- !app_assoc. simpl.
           apply Permutation_app_head. apply perm_swap.
    + exists ((L ++ [y]) ++ x :: R). split; [by rewrite <- !app_assoc|split; [done|]].
      assert (Hyx : le y x) by (destruct (less_total x y); [congruence|done]).
      apply StronglySorted_app. split; [|split].
      * intros l r Hl [->|Hr]%elem_of_cons; [|by apply HLR].
        apply elem_of_app in Hl as [Hl| ->%list_elem_of_singleton]; [|done].
        eapply less_trans; [|exact Hyx]. apply HLy; set_solver.
      * apply StronglySorted_app. split; [done|split; [done|]]. repeat constructor.
      * apply sorted_cons_elem; auto.
Qed.

Lemma insertion_outer_spec (U : list A) : ∀ pre T post,
  T ≠ [] → sorted T →
  ∃ res, foldl (λ d i, insertion_inner less (length pre) i d) (pre ++ T ++ U ++ post)
           (seq (length pre + length T) (length U))
         = pre ++ res ++ post ∧ res ≡ₚ T ++ U ∧ sorted res.
Proof.
  induction U as [|x U IH]; intros pre T post HS Hsorted.
  - exists T. simpl. rewrite app_nil_r. done.
  - cbn [length seq foldl]. rewrite <- app_comm_cons.
    destruct (insertion_inner_spec T pre x [] (U ++ post)) as (res & Hres & Hperm & Hres_sorted).
    + done.
    + constructor.
    + intros r Hr. by apply elem_of_nil in Hr.
    + intros l r _ Hr. by apply elem_of_nil in Hr.
    + simpl in Hres. rewrite Hres.
      assert (Hlen : length res = S (length T)).
      { rewrite Hperm, length_app. simpl. lia. }
      destruct (IH pre res post) as (res' & Hres' & Hperm' & Hsorted').
      * intros ->. done.
      * done.
      * exists res'. rewrite Hlen in Hres'.
        replace (length pre + S (length T)) with (S (length pre + length T)) in Hres' by lia.
        split; [done|split; [|done]].
        rewrite Hperm', Hperm. rewrite <- app_assoc. done.
Qed.

Lemma insertionSort_func_spec (pre B post : list A) :
  ∃ res, insertionSort_func less (pre ++ B ++ post) (length pre) (length pre + length B)
         = pre ++ res ++ post ∧ res ≡ₚ B ∧ sorted res.
Proof.
  unfold insertionSort_func. destruct B as [|b B].
  - exists []. simpl. replace (length pre + 0 - (length pre + 1)) with 0 by lia.
    split; [done|split; [done|constructor]].
  - destruct (insertion_outer_spec B pre [b] post) as (res & Hres & Hperm & Hsorted).
    + done.
    + repeat constructor.
    + exists res. split; [|done].
      simpl in *. replace (length pre + S (length B) - (length pre + 1)) with (length B) by lia.
      done.
Qed.

Lemma search_loop_spec (P : nat → bool) : ∀ fuel i j r,
  i ≤ j → j - i ≤ fuel → search_loop P fuel i j = r →
  i ≤ r ≤ j ∧ (r = i ∨ P (r - 1) = true) ∧ (r = j ∨ P r = false).
Proof.
  induction fuel as [|fuel IH]; intros i j r Hij Hfuel <-; cbn [search_loop].
  - split; [lia|]. split; [by left|]. left. lia.
  - destruct (Nat.ltb_spec i j) as [Hlt|Hge].
    + assert (Hh : i ≤ (i + j) / 2 < j).
      { split; [apply Nat.div_le_lower_bound; lia|apply Nat.Div0.div_lt_upper_bound; lia]. }
      destruct (P ((i + j) / 2)) eqn:HP.
      * destruct (IH ((i + j) / 2 + 1) j _ ltac:(lia) ltac:(lia) eq_refl) as (Hr & Hlo & Hhi).
        split; [lia|]. split; [|done]. right.
        destruct Hlo as [->|Hlo]; [|done].
        by replace ((i + j) / 2 + 1 - 1) with ((i + j) / 2) by lia.
      * destruct (IH i ((i + j) / 2) _ ltac:(lia) ltac:(lia) eq_refl) as (Hr & Hlo & Hhi).
        split; [lia|]. split; [done|]. right.
        destruct Hhi as [->|Hhi]; done.
    + split; [lia|]. split; [by left|]. left. lia.
Qed.

Lemma shift_right_spec (W : list A) : ∀ pre x rest,
  foldl (λ d k, Swap d k (k + 1)) (pre ++ x :: W ++ rest) (seq (length pre) (length W))
  = pre ++ W ++ x :: rest.
Proof.
  induction W as [|w W IH]; intros pre x rest; [done|].
  cbn [length seq foldl]. replace (length pre + 1) with (S (length pre)) by lia.
  simpl. rewrite Swap_adjacent'.
  specialize (IH (pre ++ [w]) x rest).
  rewrite length_app in IH. simpl in IH.
  replace (length pre + 1) with (S (length pre)) in IH by lia.
  rewrite <- !app_assoc in IH. simpl in IH. done.
Qed.

Lemma shift_left_spec (W : list A) : ∀ pre x rest,
  foldl (λ d k, Swap d k (k - 1)) (pre ++ W ++ x :: rest) (rev (seq (length pre + 1) (length W)))
  = pre ++ x :: W ++ rest.
Proof.
  induction W as [|w W IH] using rev_ind; intros pre x rest; [done|].
  rewrite length_app. simpl. rewrite seq_app. simpl. rewrite rev_app_distr. simpl.
  replace (length pre + 1 + length W) with (S (length (pre ++ W))) by (rewrite length_app; lia).
  replace (S (length (pre ++ W)) - 1) with (length (pre ++ W)) by lia.
  replace (pre ++ (W ++ [w]) ++ x :: rest) with ((pre ++ W) ++ w :: x :: rest)
    by (by rewrite <- !app_assoc).
  rewrite Swap_adjacent. rewrite <- app_assoc.
  rewrite IH. by rewrite <- !app_assoc.
Qed.

Lemma Less_at (data X Y X' Y' : list A) x y i j :
  data = X ++ x :: Y → data = X' ++ y :: Y' → i = length X → j = length X' →
  Less less data i j = less x y.
Proof.
  intros HX HY -> ->. unfold Less.
  rewrite HX at 1. rewrite list_lookup_middle by done.
  rewrite HY. rewrite list_lookup_middle by done. done.
Qed.

Lemma sorted_insert (V1 V2 : list A) x :
  sorted (V1 ++ V2) →
  (V1 = [] ∨ ∃ V1' v0, V1 = V1' ++ [v0] ∧ le v0 x) →
  (V2 = [] ∨ ∃ v1 V2', V2 = v1 :: V2' ∧ le x v1) →
  sorted (V1 ++ x :: V2).
Proof.
  intros (Hcross & H1 & H2)%StronglySorted_app Hlo Hhi.
  assert (Hx2 : ∀ y, y ∈ V2 → le x y).
  { destruct Hhi as [->|(v1 & V2' & -> & Hv1)]; [intros y Hy; by apply elem_of_nil in Hy|].
    intros y [->|Hy]%elem_of_cons; [done|].
    eapply less_trans; [exact Hv1|].
    apply StronglySorted_inv in H2 as [_ H2]. rewrite Forall_forall in H2. by apply H2. }
  assert (Hx1 : ∀ y, y ∈ V1 → le y x).
  { destruct Hlo as [->|(V1' & v0 & -> & Hv0)]; [intros y Hy; by apply elem_of_nil in Hy|].
    intros y [Hy| ->%list_elem_of_singleton]%elem_of_app; [|done].
    eapply less_trans; [|exact Hv0].
    apply StronglySorted_app in H1 as (H1 & _ & _). apply H1; [done|set_solver]. }
  apply StronglySorted_app. split; [|split; [done|]].
  - intros y z Hy [->|Hz]%elem_of_cons; [by apply Hx1|by apply Hcross].
  - apply sorted_cons_elem; auto.
Qed.

Lemma split_last_or_nil (l : list A) : l = [] ∨ ∃ l' x, l = l' ++ [x].
Proof. destruct l as [|y l] using rev_ind; [by left|right; eauto]. Qed.

Lemma symMerge_single_left (pre V post : list A) x :
  sorted V →
  let data := pre ++ x :: V ++ post in
  let a := length pre in
  let m := S (length pre) in
  let b := S (length pre) + length V in
  ∃ res, foldl (λ d k, Swap d k (k + 1)) data
           (seq a (search_loop (λ h, Less less data h a) (b - m) m b - 1 - a))
         = pre ++ res ++ post ∧ res ≡ₚ x :: V ∧ sorted res.
Proof.
  intros HV data a m b.
  destruct (search_loop_spec (λ h, Less less data h a) (b - m) m b _ ltac:(lia) ltac:(lia) eq_refl)
    as (Hr & Hlo & Hhi).
  set (i := search_loop _ _ _ _) in *.
  set (t := i - m).
  assert (Ht : t ≤ length V) by lia.
  exists (take t V ++ x :: drop t V). split; [|split].
  - replace (i - 1 - a) with (length (take t V)) by (rewrite length_take; lia).
    assert (Hdata : data = pre ++ x :: take t V ++ drop t V ++ post).
    { subst data. by rewrite app_assoc, take_drop. }
    rewrite Hdata. rewrite shift_right_spec. by rewrite <- !app_assoc.
  - by rewrite <- Permutation_middle, take_drop.
  - apply sorted_insert; [by rewrite take_drop| |].
    + destruct (split_last_or_nil (take t V)) as [?|(V1' & v0 & HV1)]; [by left|right].
      exists V1', v0. split; [done|].
      destruct Hlo as [Hi|HP].
      { assert (length (take t V) = 0) as Hlen by (rewrite length_take; lia).
        rewrite HV1, length_app in Hlen. simpl in Hlen. lia. }
      assert (Hlen : length V1' + 1 = t).
      { rewrite <- (length_take_le V t) by lia. rewrite HV1, length_app. done. }
      erewrite (Less_at data (pre ++ x :: V1') (drop t V ++ post) pre (V ++ post) v0 x) in HP.
      * done.
      * subst data. rewrite <- (take_drop t V) at 1. rewrite HV1. by rewrite <- !app_assoc.
      * done.
      * rewrite length_app. simpl. lia.
      * done.
    + destruct (drop t V) as [|v1 V2'] eqn:HV2; [by left|right].
      exists v1, V2'. split; [done|].
      assert (Hlen : t < length V).
      { apply (f_equal length) in HV2. rewrite length_drop in HV2. simpl in HV2. lia. }
      destruct Hhi as [Hi|HP]; [lia|].
      erewrite (Less_at data (pre ++ x :: take t V) (V2' ++ post) pre (V ++ post) v1 x) in HP.
      * destruct (less_total x v1); [done|congruence].
      * subst data. rewrite <- (take_drop t V) at 1. rewrite HV2. by rewrite <- !app_assoc.
      * done.
      * rewrite length_app. simpl. rewrite length_take. lia.
      * done.
Qed.

Lemma symMerge_single_right (pre U post : list A) x :
  sorted U →
  let data := pre ++ U ++ x :: post in
  let a := length pre in
  let m := length pre + length U in
  ∃ res, foldl (λ d k, Swap d k (k - 1)) data
           (rev (seq (search_loop (λ h, negb (Less less data m h)) (m - a) a m + 1)
                     (m - search_loop (λ h, negb (Less less data m h)) (m - a) a m)))
         = pre ++ res ++ post ∧ res ≡ₚ U ++ [x] ∧ sorted res.
Proof.
  intros HU data a m.
  destruct (search_loop_spec (λ h, negb (Less less data m h)) (m - a) a m _ ltac:(lia) ltac:(lia) eq_refl)
    as (Hr & Hlo & Hhi).
  set (i := search_loop _ _ _ _) in *.
  set (t := i - a).
  assert (Ht : t ≤ length U) by lia.
  exists (take t U ++ x :: drop t U). split; [|split].
  - replace (m - i) with (length (drop t U)) by (rewrite length_drop; lia).
    replace (i + 1) with (length (pre ++ take t U) + 1) by (rewrite length_app, length_take; lia).
    assert (Hdata : data = (pre ++ take t U) ++ drop t U ++ x :: post).
    { subst data. by rewrite <- app_assoc, (app_assoc (take t U)), take_drop. }
    rewrite Hdata. rewrite shift_left_spec. by rewrite <- !app_assoc.
  - rewrite <- Permutation_middle, take_drop. apply Permutation_cons_append.
  - apply sorted_insert; [by rewrite take_drop| |].
    + destruct (split_last_or_nil (take t U)) as [?|(U1' & u0 & HU1)]; [by left|right].
      exists U1', u0. split; [done|].
      destruct Hlo as [Hi|HP].
      { assert (length (take t U) = 0) as Hlen by (rewrite length_take; lia).
        rewrite HU1, length_app in Hlen. simpl in Hlen. lia. }
      assert (Hlen : length U1' + 1 = t).
      { rewrite <- (length_take_le U t) by lia. rewrite HU1, length_app. done. }
      erewrite (Less_at data (pre ++ U) post (pre ++ U1') (drop t U ++ x :: post) x u0) in HP.
      * destruct (less_total x u0); [|done]. rewrite H in HP. done.
      * subst data. by rewrite <- !app_assoc.
      * subst data. rewrite <- (take_drop t U) at 1. rewrite HU1. by rewrite <- !app_assoc.
      * rewrite length_app. done.
      * rewrite length_app. lia.
    + destruct (drop t U) as [|u1 U2'] eqn:HU2; [by left|right].
      exists u1, U2'. split; [done|].
      assert (Hlen : t < length U).
      { apply (f_equal length) in HU2. rewrite length_drop in HU2. simpl in HU2. lia. }
      destruct Hhi as [Hi|HP]; [lia|].
      erewrite (Less_at data (pre ++ U) post (pre ++ take t U) (U2' ++ x :: post) x u1) in HP.
      * by apply negb_false_iff in HP.
      * subst data. by rewrite <- !app_assoc.
      * subst data. rewrite <- (take_drop t U) at 1. rewrite HU2. by rewrite <- !app_assoc.
      * rewrite length_app. done.
      * rewrite length_app, length_take. lia.
Qed.

Lemma rotate_func_spec (X Y Z W : list A) :
  rotate_func (X ++ Y ++ Z ++ W) (length X) (length X + length Y) (length X + length Y + length Z)
  = X ++ Z ++ Y ++ W.
Proof.
  unfold rotate_func, slice.
  rewrite take_app_length.
  replace (length X + length Y + length Z - (length X + length Y)) with (length Z) by lia.
  replace (length X + length Y - length X) with (length Y) by lia.
  rewrite (drop_app_length X).
  rewrite take_app_length.
  replace (X ++ Y ++ Z ++ W) with ((X ++ Y) ++ Z ++ W) by (by rewrite <- app_assoc).
  replace (length X + length Y) with (length (X ++ Y)) by (by rewrite length_app).
  rewrite (drop_app_length (X ++ Y)). rewrite take_app_length.
  replace (length (X ++ Y) + length Z) with (length ((X ++ Y) ++ Z)) by (by rewrite !length_app).
  rewrite (app_assoc (X ++ Y)). rewrite drop_app_length. done.
Qed.

Lemma merge_cross (U1 U2 V1 V2 : list A) :
  sorted (U1 ++ U2) → sorted (V1 ++ V2) →
  (U1 = [] ∨ V2 = [] ∨ ∃ U1' u v V2', U1 = U1' ++ [u] ∧ V2 = v :: V2' ∧ le u v) →
  (V1 = [] ∨ U2 = [] ∨ ∃ V1' v u U2', V1 = V1' ++ [v] ∧ U2 = u :: U2' ∧ le v u) →
  ∀ x y, x ∈ U1 ++ V1 → y ∈ U2 ++ V2 → le x y.
Proof.
  intros (HU & HU1 & HU2)%StronglySorted_app (HV & HV1 & HV2)%StronglySorted_app F1 F2.
  assert (H12 : ∀ x y, x ∈ U1 → y ∈ V2 → le x y).
  { destruct F1 as [->|[->|(U1' & u & v & V2' & -> & -> & Huv)]];
      [intros x y Hx; by apply elem_of_nil in Hx|intros x y _ Hy; by apply elem_of_nil in Hy|].
    intros x y Hx Hy.
    assert (le x u).
    { apply elem_of_app in Hx as [Hx| ->%list_elem_of_singleton]; [|].
      - apply StronglySorted_app in HU1 as (H & _ & _). apply H; [done|set_solver].
      - destruct (less_total u u); done. }
    assert (le v y).
    { apply elem_of_cons in Hy as [->|Hy]; [destruct (less_total v v); done|].
      apply StronglySorted_inv in HV2 as [_ H2]. rewrite Forall_forall in H2. by apply H2. }
    eapply less_trans; [done|]. eapply less_trans; done. }
  assert (H21 : ∀ x y, x ∈ V1 → y ∈ U2 → le x y).
  { destruct F2 as [->|[->|(V1' & v & u & U2' & -> & -> & Hvu)]];
      [intros x y Hx; by apply elem_of_nil in Hx|intros x y _ Hy; by apply elem_of_nil in Hy|].
    intros x y Hx Hy.
    assert (le x v).
    { apply elem_of_app in Hx as [Hx| ->%list_elem_of_singleton]; [|].
      - apply StronglySorted_app in HV1 as (H & _ & _). apply H; [done|set_solver].
      - destruct (less_total v v); done. }
    assert (le u y).
    { apply elem_of_cons in Hy as [->|Hy]; [destruct (less_total u u); done|].
      apply StronglySorted_inv in HU2 as [_ H2]. rewrite Forall_forall in H2. by apply H2. }
    eapply less_trans; [done|]. eapply less_trans; done. }
  intros x y [Hx|Hx]%elem_of_app [Hy|Hy]%elem_of_app; auto.
Qed.

Lemma div2_bounds (k : nat) : 2 * (k / 2) ≤ k < 2 * (k / 2) + 2.
Proof.
  pose proof (Nat.div_mod_eq k 2). pose proof (Nat.mod_upper_bound k 2). lia.
Qed.

Local Notation merge_post := (merge_post less).
Local Notation chunked := (chunked less).

Lemma symMerge_general (fuel : nat) (pre U V post : list A) (start0 r0 : nat) :
  (∀ pre U V post, length U + length V ≤ fuel → sorted U → sorted V →
     merge_post (symMerge_func less fuel (pre ++ U ++ V ++ post) (length pre) (length pre + length U)
                   (length pre + length U + length V)) pre U V post) →
  length U + length V ≤ S fuel → sorted U → sorted V →
  let data := pre ++ U ++ V ++ post in
  let a := length pre in
  let m := length pre + length U in
  let b := length pre + length U + length V in
  let mid := (a + b) / 2 in
  let n := mid + m in
  let p := n - 1 in
  a ≤ start0 → start0 ≤ r0 → r0 ≤ m → r0 ≤ mid → n ≤ b + start0 →
  (start0 = a ∨ n = b + start0) → (r0 = m ∨ r0 = mid) →
  let start := search_loop (λ c, negb (Less less data (p - c) c)) (r0 - start0) start0 r0 in
  let end_ := n - start in
  let data1 := if (start <? m) && (m <? end_) then rotate_func data start m end_ else data in
  let data2 := if (a <? start) && (start <? mid)
               then symMerge_func less fuel data1 a start mid else data1 in
  merge_post (if (mid <? end_) && (end_ <? b)
              then symMerge_func less fuel data2 mid end_ b else data2) pre U V post.
Proof.
  intros IH Hfuel HU HV data a m b mid n p Ha0 H0r Hrm Hrmid Hnb Hs0 Hr0 start.
  destruct (search_loop_spec (λ c, negb (Less less data (p - c) c)) (r0 - start0) start0 r0
              _ ltac:(lia) ltac:(lia) eq_refl) as (Hr & Hlo & Hhi).
  fold start in Hr, Hlo, Hhi.
  pose proof (div2_bounds (a + b)) as Hmid. fold mid in Hmid.
  intros end_.
  set (U1 := take (start - a) U). set (U2 := drop (start - a) U).
  set (V1 := take (end_ - m) V). set (V2 := drop (end_ - m) V).
  assert (HlU1 : length U1 = start - a) by (subst U1; rewrite length_take; lia).
  assert (HlU2 : length U2 = m - start) by (subst U2; rewrite length_drop; lia).
  assert (HlV1 : length V1 = end_ - m) by (subst V1; rewrite length_take; lia).
  assert (HlV2 : length V2 = b - end_) by (subst V2; rewrite length_drop; lia).
  assert (HUeq : U = U1 ++ U2) by (subst U1 U2; by rewrite take_drop).
  assert (HVeq : V = V1 ++ V2) by (subst V1 V2; by rewrite take_drop).
  assert (Hdata : data = pre ++ U1 ++ U2 ++ V1 ++ V2 ++ post).
  { subst data. rewrite HUeq, HVeq. by rewrite <- !app_assoc. }
  assert (HsU1 : sorted U1) by (rewrite HUeq in HU; by apply StronglySorted_app in HU as (_ & ? & _)).
  assert (HsU2 : sorted U2) by (rewrite HUeq in HU; by apply StronglySorted_app in HU as (_ & _ & ?)).
  assert (HsV1 : sorted V1) by (rewrite HVeq in HV; by apply StronglySorted_app in HV as (_ & ? & _)).
  assert (HsV2 : sorted V2) by (rewrite HVeq in HV; by apply StronglySorted_app in HV as (_ & _ & ?)).
  (* the two facts the search establishes *)
  assert (F1 : U1 = [] ∨ V2 = [] ∨ ∃ U1' u v V2', U1 = U1' ++ [u] ∧ V2 = v :: V2' ∧ le u v).
  { destruct Hlo as [Hst|HP].
    - destruct Hs0 as [?|?].
      + left. apply length_zero_iff_nil. lia.
      + right; left. apply length_zero_iff_nil. lia.
    - destruct (split_last_or_nil U1) as [?|(U1' & u & HU1')]; [by left|].
      destruct V2 as [|v V2'] eqn:HV2'; [by right; left|]. right; right.
      exists U1', u, v, V2'. split; [done|split; [done|]].
      assert (Hl : length U1' + 1 = start - a) by (rewrite <- HlU1, HU1', length_app; done).
      simpl in HlV2.
      erewrite (Less_at data (pre ++ U1 ++ U2 ++ V1) (V2' ++ post) (pre ++ U1') (U2 ++ V1 ++ V2 ++ post) v u) in HP.
      + destruct (less_total u v); [done|]. rewrite H in HP. done.
      + rewrite Hdata. rewrite ?HV2'. by rewrite <- !app_assoc.
      + rewrite Hdata. rewrite ?HU1', ?HV2'. by rewrite <- !app_assoc.
      + rewrite !length_app. lia.
      + rewrite length_app. lia. }
  assert (F2 : V1 = [] ∨ U2 = [] ∨ ∃ V1' v u U2', V1 = V1' ++ [v] ∧ U2 = u :: U2' ∧ le v u).
  { destruct Hhi as [Hst|HP].
    - destruct Hr0 as [?|?].
      + right; left. apply length_zero_iff_nil. lia.
      + left. apply length_zero_iff_nil. lia.
    - destruct (split_last_or_nil V1) as [?|(V1' & v & HV1')]; [by left|].
      destruct U2 as [|u U2'] eqn:HU2'; [by right; left|]. right; right.
      exists V1', v, u, U2'. split; [done|split; [done|]].
      assert (Hl : length V1' + 1 = end_ - m) by (rewrite <- HlV1, HV1', length_app; done).
      simpl in HlU2.
      erewrite (Less_at data (pre ++ U1 ++ U2 ++ V1') (V2 ++ post) (pre ++ U1) (U2' ++ V1 ++ V2 ++ post) v u) in HP.
      + by apply negb_false_iff in HP.
      + rewrite Hdata. rewrite ?HV1', ?HU2'. by rewrite <- !app_assoc.
      + rewrite Hdata. rewrite ?HU2'. by rewrite <- !app_assoc.
      + rewrite !length_app, ?HU2'. simpl. lia.
      + rewrite length_app. lia. }
  pose proof (merge_cross U1 U2 V1 V2 ltac:(by rewrite <- HUeq) ltac:(by rewrite <- HVeq) F1 F2)
    as Hcross.
  (* the rotation *)
  intros data1.
  assert (Hdata1 : data1 = pre ++ U1 ++ V1 ++ U2 ++ V2 ++ post).
  { subst data1. destruct ((start <? m) && (m <? end_)) eqn:Hc.
    - rewrite Hdata.
      replace start with (length (pre ++ U1)) by (rewrite length_app; lia).
      replace m with (length (pre ++ U1) + length U2) by (rewrite length_app; lia).
      replace end_ with (length (pre ++ U1) + length U2 + length V1) by (rewrite length_app; lia).
      rewrite (app_assoc pre U1). rewrite rotate_func_spec. by rewrite <- !app_assoc.
    - rewrite Hdata. apply andb_false_iff in Hc as [Hc|Hc]; apply Nat.ltb_ge in Hc.
      + assert (U2 = []) as -> by (apply length_zero_iff_nil; lia). done.
      + assert (V1 = []) as -> by (apply length_zero_iff_nil; lia). done. }
  intros data2.
  assert (Hdata2 : merge_post data2 pre U1 V1 (U2 ++ V2 ++ post)).
  { subst data2. destruct ((a <? start) && (start <? mid)) eqn:Hc.
    - apply andb_true_iff in Hc as [Hc1 Hc2]. apply Nat.ltb_lt in Hc1, Hc2.
      rewrite Hdata1.
      replace start with (length pre + length U1) by lia.
      replace mid with (length pre + length U1 + length V1) by lia.
      apply IH; [lia|done|done].
    - exists (U1 ++ V1). rewrite Hdata1. split; [by rewrite <- !app_assoc|split; [done|]].
      apply andb_false_iff in Hc as [Hc|Hc]; apply Nat.ltb_ge in Hc.
      + assert (U1 = []) as -> by (apply length_zero_iff_nil; lia). done.
      + assert (V1 = []) as -> by (apply length_zero_iff_nil; lia). by rewrite app_nil_r. }
  destruct Hdata2 as (R1 & Hd2 & HR1p & HR1s).
  assert (HlR1 : length R1 = length U1 + length V1) by (rewrite HR1p, length_app; done).
  assert (Hfin : merge_post (if (mid <? end_) && (end_ <? b)
              then symMerge_func less fuel data2 mid end_ b else data2) (pre ++ R1) U2 V2 post).
  { destruct ((mid <? end_) && (end_ <? b)) eqn:Hc.
    - apply andb_true_iff in Hc as [Hc1 Hc2]. apply Nat.ltb_lt in Hc1, Hc2.
      rewrite Hd2. rewrite (app_assoc pre R1).
      replace mid with (length (pre ++ R1)) by (rewrite length_app; lia).
      replace end_ with (length (pre ++ R1) + length U2) by (rewrite length_app; lia).
      replace b with (length (pre ++ R1) + length U2 + length V2) by (rewrite length_app; lia).
      apply IH; [lia|done|done].
    - exists (U2 ++ V2). rewrite Hd2. split; [by rewrite <- !app_assoc|split; [done|]].
      apply andb_false_iff in Hc as [Hc|Hc]; apply Nat.ltb_ge in Hc.
      + assert (U2 = []) as -> by (apply length_zero_iff_nil; lia). done.
      + assert (V2 = []) as -> by (apply length_zero_iff_nil; lia). by rewrite app_nil_r. }
  destruct Hfin as (R2 & Hd3 & HR2p & HR2s).
  exists (R1 ++ R2). split; [|split].
  - rewrite Hd3. by rewrite <- !app_assoc.
  - rewrite HR1p, HR2p, HUeq, HVeq. rewrite <- !app_assoc.
    apply Permutation_app_head. rewrite !app_assoc. apply Permutation_app_tail.
    apply Permutation_app_comm.
  - apply StronglySorted_app. split; [|done].
    intros x y Hx Hy. apply Hcross; [by rewrite <- HR1p|by rewrite <- HR2p].
Qed.

Lemma symMerge_func_spec : ∀ fuel pre U V post,
  length U + length V ≤ fuel → sorted U → sorted V →
  merge_post (symMerge_func less fuel (pre ++ U ++ V ++ post) (length pre) (length pre + length U)
                (length pre + length U + length V)) pre U V post.
Proof.
  induction fuel as [|fuel IH]; intros pre U V post Hfuel HU HV.
  - assert (U = []) as -> by (apply length_zero_iff_nil; lia).
    assert (V = []) as -> by (apply length_zero_iff_nil; lia).
    exists []. simpl. split; [done|split; [done|constructor]].
  - cbn [symMerge_func].
    replace (length pre + length U - length pre) with (length U) by lia.
    replace (length pre + length U + length V - (length pre + length U)) with (length V) by lia.
    destruct (Nat.eqb_spec (length U) 1) as [HU1|HU1].
    { destruct U as [|x [|? ?]]; simpl in HU1; try lia.
      destruct (symMerge_single_left pre V post x HV) as (res & Hres & Hp & Hs).
      exists res. split; [|done]. cbn [app length] in *.
      replace (length pre + 1) with (S (length pre)) by lia.
      replace (S (length pre) + length V - S (length pre)) with (length V) in Hres by lia.
      exact Hres. }
    destruct (Nat.eqb_spec (length V) 1) as [HV1|HV1].
    { destruct V as [|x [|? ?]]; simpl in HV1; try lia.
      destruct (symMerge_single_right pre U post x HU) as (res & Hres & Hp & Hs).
      exists res. split; [|done]. cbn [app length] in *.
      replace (length pre + length U - length pre) with (length U) in Hres by lia.
      exact Hres. }
    pose proof (div2_bounds (length pre + (length pre + length U + length V))) as Hmid.
    destruct (Nat.ltb_spec ((length pre + (length pre + length U + length V)) / 2)
                (length pre + length U)) as [Hlt|Hge].
    + apply (symMerge_general fuel pre U V post); try done; lia.
    + apply (symMerge_general fuel pre U V post); try done; lia.
Qed.

Lemma chunked_short k l : chunked k l → length l ≤ k → sorted l.
Proof.
  induction 1 as [u Hu Hs|u l Hu Hs Hl IH]; intros Hlen; [done|].
  rewrite length_app in Hlen.
  assert (l = []) as -> by (apply length_zero_iff_nil; lia). by rewrite app_nil_r.
Qed.

Lemma chunked_split k l :
  chunked k l → k ≤ length l →
  ∃ u l', l = u ++ l' ∧ length u = k ∧ sorted u ∧ chunked k l'.
Proof.
  destruct 1 as [u Hu Hs|u l Hu Hs Hl]; intros Hlen.
  - exists u, []. rewrite app_nil_r. split; [done|split; [lia|split; [done|]]].
    apply chunked_last; [simpl; lia|constructor].
  - by exists u, l.
Qed.

Lemma stable_blocks_spec : ∀ fuel done rest blockSize,
  0 < blockSize → length rest < fuel →
  ∃ res, stable_blocks less fuel (done ++ rest) blockSize (length done) (length done + blockSize)
           (length done + length rest) = done ++ res
         ∧ res ≡ₚ rest ∧ chunked blockSize res.
Proof.
  induction fuel as [|fuel IH]; intros done rest bs Hbs Hfuel; [lia|].
  cbn [stable_blocks].
  destruct (Nat.leb_spec (length done + bs) (length done + length rest)) as [Hle|Hgt].
  - assert (∃ B rest', rest = B ++ rest' ∧ length B = bs) as (B & rest' & -> & HB).
    { exists (take bs rest), (drop bs rest). rewrite take_drop, length_take. split; [done|lia]. }
    rewrite length_app in Hle, Hfuel.
    destruct (insertionSort_func_spec done B rest') as (B' & HB' & Hp & Hs).
    rewrite HB in HB'. rewrite HB'.
    assert (HlB' : length B' = bs) by (by rewrite Hp).
    destruct (IH (done ++ B') rest' bs Hbs) as (res & Hres & Hp' & Hc); [lia|].
    exists (B' ++ res). split; [|split].
    + rewrite length_app, HlB' in Hres.
      replace (length done + length (B ++ rest')) with (length done + bs + length rest')
        by (rewrite length_app; lia).
      rewrite app_assoc. rewrite Hres. by rewrite <- app_assoc.
    + by rewrite Hp, Hp'.
    + by apply chunked_cons.
  - destruct (insertionSort_func_spec done rest []) as (res & Hres & Hp & Hs).
    rewrite !app_nil_r in Hres. exists res. split; [done|split; [done|]].
    apply chunked_last; [|done]. rewrite Hp. lia.
Qed.

Lemma stable_pass_spec : ∀ fuel done rest blockSize,
  0 < blockSize → length rest < fuel → chunked blockSize rest →
  ∃ res, stable_pass less fuel (done ++ rest) blockSize (length done)
           (length done + 2 * blockSize) (length done + length rest) = done ++ res
         ∧ res ≡ₚ rest ∧ chunked (2 * blockSize) res.
Proof.
  induction fuel as [|fuel IH]; intros done rest bs Hbs Hfuel Hc; [lia|].
  cbn [stable_pass].
  destruct (Nat.leb_spec (length done + 2 * bs) (length done + length rest)) as [Hle|Hgt].
  - destruct (chunked_split _ _ Hc) as (U & l & -> & HlU & HsU & Hcl); [lia|].
    rewrite length_app in Hle, Hfuel.
    destruct (chunked_split _ _ Hcl) as (V & rest' & -> & HlV & HsV & Hc'); [lia|].
    rewrite length_app in Hle, Hfuel.
    destruct (symMerge_func_spec (length done + length (U ++ V ++ rest')) done U V rest')
      as (R & HR & Hp & Hs); [rewrite !length_app; lia|done|done|].
    replace (length done + bs) with (length done + length U) by lia.
    replace (length done + 2 * bs) with (length done + length U + length V) by lia.
    rewrite <- ?app_assoc. rewrite HR.
    assert (HlR : length R = 2 * bs) by (rewrite Hp, length_app; lia).
    destruct (IH (done ++ R) rest' bs Hbs) as (res & Hres & Hp' & Hcr); [lia|done|].
    exists (R ++ res). split; [|split].
    + rewrite length_app, HlR in Hres.
      replace (length done + length U + length V) with (length done + 2 * bs) by lia.
      replace (length done + length (U ++ V ++ rest')) with (length done + 2 * bs + length rest')
        by (rewrite !length_app; lia).
      rewrite app_assoc. rewrite Hres. by rewrite <- app_assoc.
    + rewrite Hp, Hp'. by rewrite <- !app_assoc.
    + by apply chunked_cons.
  - destruct (Nat.ltb_spec (length done + bs) (length done + length rest)) as [Hlt|Hge].
    + destruct (chunked_split _ _ Hc) as (U & V & -> & HlU & HsU & HcV); [lia|].
      rewrite length_app in Hlt, Hgt.
      assert (HsV : sorted V) by (apply (chunked_short bs); [done|lia]).
      destruct (symMerge_func_spec (length done + length (U ++ V)) done U V [])
        as (R & HR & Hp & Hs); [rewrite !length_app; lia|done|done|].
      rewrite !app_nil_r in HR.
      replace (length done + bs) with (length done + length U) by lia.
      replace (length done + length (U ++ V)) with (length done + length U + length V) in *
        by (rewrite length_app; lia).
      exists R. split; [done|split; [done|]].
      apply chunked_last; [|done]. rewrite Hp, length_app. lia.
    + exists rest. split; [done|split; [done|]].
      apply chunked_last; [lia|]. apply (chunked_short bs); [done|lia].
Qed.

Lemma stable_merge_spec : ∀ fuel data blockSize,
  0 < blockSize → length data ≤ blockSize + fuel → chunked blockSize data →
  ∃ res, stable_merge less fuel data blockSize (length data) = res
         ∧ res ≡ₚ data ∧ sorted res.
Proof.
  induction fuel as [|fuel IH]; intros data bs Hbs Hfuel Hc; cbn [stable_merge].
  - exists data. split; [done|split; [done|]]. apply (chunked_short bs); [done|lia].
  - destruct (Nat.ltb_spec bs (length data)) as [Hlt|Hge].
    + destruct (stable_pass_spec (S (length data)) [] data bs Hbs ltac:(lia) Hc)
        as (res & Hres & Hp & Hcr).
      cbn [app length Nat.add] in Hres. rewrite Hres.
      destruct (IH res (2 * bs)) as (res' & Hres' & Hp' & Hs); [lia|rewrite Hp; lia|done|].
      assert (Hlen : length res = length data) by (by rewrite Hp).
      exists res'. rewrite Hlen in Hres'. split; [done|split; [|done]]. by rewrite Hp'.
    + exists data. split; [done|split; [done|]]. apply (chunked_short bs); [done|lia].
Qed.

Theorem sort_SliceStable_sorts (data : list A) :
  sort_SliceStable less data ≡ₚ data ∧ sorted (sort_SliceStable less data).
Proof.
  unfold sort_SliceStable, stable_func.
  destruct (stable_blocks_spec (S (length data)) [] data 20 ltac:(lia) ltac:(lia))
    as (res & Hres & Hp & Hc).
  cbn [app length Nat.add] in Hres. rewrite Hres.
  destruct (stable_merge_spec (length data) res 20 ltac:(lia)) as (res' & Hres' & Hp' & Hs).
  { rewrite Hp. lia. }
  { done. }
  assert (Hlen : length res = length data) by (by rewrite Hp).
  rewrite Hlen in Hres'. rewrite Hres'. split; [by rewrite Hp'|done].
Qed.
End SortProofs.

(** ** [Version.GE] is a total preorder *)

Section SemverOrder.
Local Close Scope string_scope.
Local Open Scope Z_scope.

Lemma good_cmp_ge_trans {T} (c : T → T → Z) :
  good_cmp c → ∀ x y z, 0 ≤ c x y → 0 ≤ c y z → 0 ≤ c x z.
Proof.
  intros G x y z Hxy Hyz.
  destruct (cmp_range c G x y) as [H|[H|H]]; [lia| |].
  - rewrite (cmp_eq_l c G x y z H). done.
  - destruct (cmp_range c G y z) as [H'|[H'|H']]; [lia| |].
    + pose proof (cmp_antisym c G y z) as Ha. rewrite H' in Ha.
      pose proof (cmp_eq_l c G z y x ltac:(lia)) as He.
      rewrite (cmp_antisym c G x z), (cmp_antisym c G x y) in He. lia.
    + rewrite (cmp_gt_trans c G x y z H H'). lia.
Qed.

Lemma good_cmp_ge_total {T} (c : T → T → Z) :
  good_cmp c → ∀ x y, 0 ≤ c x y ∨ 0 ≤ c y x.
Proof.
  intros G x y. rewrite (cmp_antisym c G x y).
  destruct (cmp_range c G x y) as [H|[H|H]]; lia.
Qed.

Lemma good_compare_N : good_cmp compare_N.
Proof.
  unfold compare_N. split.
  - intros x y. destruct (N.eqb_spec x y), (N.ltb_spec y x); lia.
  - intros x y. destruct (N.eqb_spec x y), (N.eqb_spec y x), (N.ltb_spec y x), (N.ltb_spec x y); lia.
  - intros x y z. destruct (N.eqb_spec x y); [by subst|]. destruct (N.ltb_spec y x); lia.
  - intros x y z.
    destruct (N.eqb_spec x y), (N.eqb_spec y z), (N.eqb_spec x z),
      (N.ltb_spec y x), (N.ltb_spec z y), (N.ltb_spec z x); lia.
Qed.

Lemma compare_str_Gt_trans x y z :
  String.compare x y = Gt → String.compare y z = Gt → String.compare x z = Gt.
Proof.
  intros H1 H2.
  assert (L1 : String_as_OT.lt y x).
  { apply String_as_OT.cmp_lt. unfold String_as_OT.cmp.
    rewrite String.compare_antisym, H1. done. }
  assert (L2 : String_as_OT.lt z y).
  { apply String_as_OT.cmp_lt. unfold String_as_OT.cmp.
    rewrite String.compare_antisym, H2. done. }
  pose proof (String_as_OT.lt_trans _ _ _ L2 L1) as L3.
  apply String_as_OT.cmp_lt in L3. unfold String_as_OT.cmp in L3.
  rewrite String.compare_antisym, L3. done.
Qed.

Lemma good_compare_str : good_cmp compare_str.
Proof.
  unfold compare_str. split.
  - intros x y. destruct (String.eqb x y); [lia|]. destruct (String.compare x y); lia.
  - intros x y. destruct (String.eqb_spec x y) as [->|Hne].
    + by rewrite String.eqb_refl.
    + destruct (String.eqb_spec y x) as [->|_]; [done|].
      rewrite (String.compare_antisym y x).
      destruct (String.compare x y) eqn:Hc; simpl; try lia.
      apply String.compare_eq_iff in Hc. done.
  - intros x y z. destruct (String.eqb_spec x y) as [->|Hne]; [done|].
    destruct (String.compare x y); lia.
  - intros x y z.
    destruct (String.eqb_spec x y) as [->|Hxy]; [lia|].
    destruct (String.eqb_spec y z) as [->|Hyz]; [lia|].
    destruct (String.compare x y) eqn:Hc1; try lia.
    destruct (String.compare y z) eqn:Hc2; try lia. intros _ _.
    pose proof (compare_str_Gt_trans x y z Hc1 Hc2) as Hc3.
    destruct (String.eqb_spec x z) as [->|Hxz].
    + pose proof (proj2 (String_as_OT.cmp_eq z z) eq_refl) as E.
      unfold String_as_OT.cmp in E. congruence.
    + by rewrite Hc3.
Qed.

Lemma PRVersion_Compare_alt v o :
  PRVersion_Compare v o =
  match IsNum v, IsNum o with
  | true, false => -1
  | false, true => 1
  | true, true => compare_N (VersionNum v) (VersionNum o)
  | false, false => compare_str (VersionStr v) (VersionStr o)
  end.
Proof. unfold PRVersion_Compare, compare_str. by destruct (IsNum v), (IsNum o). Qed.

Lemma good_PRVersion_Compare : good_cmp PRVersion_Compare.
Proof.
  pose proof good_compare_N as GN. pose proof good_compare_str as GS.
  split.
  - intros x y. rewrite PRVersion_Compare_alt.
    destruct (IsNum x), (IsNum y); try lia; [apply GN|apply GS].
  - intros x y. rewrite !PRVersion_Compare_alt.
    destruct (IsNum x), (IsNum y); try lia; [apply GN|apply GS].
  - intros x y z. rewrite !PRVersion_Compare_alt.
    destruct (IsNum x), (IsNum y), (IsNum z); try lia; [apply GN|apply GS].
  - intros x y z. rewrite !PRVersion_Compare_alt.
    destruct (IsNum x), (IsNum y), (IsNum z); try lia; [apply GN|apply GS].
Qed.

Lemma Pre_Compare_cons x v y o :
  Pre_Compare (x :: v) (y :: o) =
  if PRVersion_Compare x y =? 0 then Pre_Compare v o else PRVersion_Compare x y.
Proof.
  cbn [Pre_Compare].
  destruct (cmp_range _ good_PRVersion_Compare x y) as [-> | [-> | ->]]; done.
Qed.

Lemma good_Pre_Compare : good_cmp Pre_Compare.
Proof.
  pose proof good_PRVersion_Compare as G.
  split.
  - induction x as [|a x IH]; intros [|b y]; try (cbn [Pre_Compare]; lia).
    rewrite Pre_Compare_cons.
    destruct (Z.eqb_spec (PRVersion_Compare a b) 0); [apply IH|].
    destruct (cmp_range _ G a b) as [?|[?|?]]; lia.
  - induction x as [|a x IH]; intros [|b y]; try done.
    rewrite !Pre_Compare_cons. rewrite (cmp_antisym _ G a b).
    destruct (Z.eqb_spec (PRVersion_Compare a b) 0) as [->|Hne]; [apply IH|].
    destruct (Z.eqb_spec (- PRVersion_Compare a b) 0); lia.
  - induction x as [|a x IH]; intros [|b y] [|c z]; try done; rewrite ?Pre_Compare_cons.
    all: destruct (Z.eqb_spec (PRVersion_Compare a b) 0) as [E|Hne].
    all: try (intros H; destruct (cmp_range _ G a b) as [?|[?|?]]; lia).
    all: try done.
    intros H. rewrite (cmp_eq_l _ G a b c E). rewrite (IH y z H). done.
  - induction x as [|a x IH]; intros [|b y] [|c z]; try done; rewrite ?Pre_Compare_cons.
    all: try (destruct (Z.eqb_spec (PRVersion_Compare b c) 0); [done|];
              destruct (cmp_range _ G b c) as [?|[?|?]]; lia).
    intros Hab Hbc.
    destruct (Z.eqb_spec (PRVersion_Compare a b) 0) as [E1|N1].
    + rewrite (cmp_eq_l _ G a b c E1).
      destruct (Z.eqb_spec (PRVersion_Compare b c) 0) as [E2|N2]; [by apply (IH y z)|done].
    + destruct (Z.eqb_spec (PRVersion_Compare b c) 0) as [E2|N2].
      * assert (E : PRVersion_Compare a c = PRVersion_Compare a b).
        { pose proof (cmp_antisym _ G b c) as Hcb. rewrite E2 in Hcb.
          pose proof (cmp_eq_l _ G c b a ltac:(lia)) as He.
          rewrite (cmp_antisym _ G a c), (cmp_antisym _ G a b) in He. lia. }
        rewrite E. destruct (Z.eqb_spec (PRVersion_Compare a b) 0); [lia|done].
      * rewrite (cmp_gt_trans _ G a b c Hab Hbc). done.
Qed.

Lemma good_compare_pre : good_cmp compare_pre.
Proof.
  pose proof good_Pre_Compare as G. unfold compare_pre.
  split.
  - intros [|a x] [|b y]; try lia. apply G.
  - intros [|a x] [|b y]; try lia. apply G.
  - intros [|a x] [|b y] [|c z]; try done. apply G.
  - intros [|a x] [|b y] [|c z]; try done. apply G.
Qed.

(** Lexicographic composition of comparisons. *)
Lemma good_cmp_lex {T} (c1 c2 : T → T → Z) :
  good_cmp c1 → good_cmp c2 →
  good_cmp (λ x y, if c1 x y =? 0 then c2 x y else c1 x y).
Proof.
  intros G1 G2. split.
  - intros x y. destruct (Z.eqb_spec (c1 x y) 0); [apply G2|apply G1].
  - intros x y. rewrite (cmp_antisym _ G1 x y).
    destruct (Z.eqb_spec (c1 x y) 0) as [->|Hne]; [apply G2|].
    destruct (Z.eqb_spec (- c1 x y) 0); lia.
  - intros x y z. destruct (Z.eqb_spec (c1 x y) 0) as [E|Hne].
    + intros H. rewrite (cmp_eq_l _ G1 x y z E). by rewrite (cmp_eq_l _ G2 x y z H).
    + intros H. lia.
  - intros x y z Hxy Hyz.
    destruct (Z.eqb_spec (c1 x y) 0) as [E1|N1].
    + rewrite (cmp_eq_l _ G1 x y z E1).
      destruct (Z.eqb_spec (c1 y z) 0) as [E2|N2]; [by apply (cmp_gt_trans _ G2 x y z)|done].
    + destruct (Z.eqb_spec (c1 y z) 0) as [E2|N2].
      * assert (E : c1 x z = c1 x y).
        { pose proof (cmp_antisym _ G1 y z) as Hcb. rewrite E2 in Hcb.
          pose proof (cmp_eq_l _ G1 z y x ltac:(lia)) as He.
          rewrite (cmp_antisym _ G1 x z), (cmp_antisym _ G1 x y) in He. lia. }
        rewrite E. destruct (Z.eqb_spec (c1 x y) 0); [lia|done].
      * rewrite (cmp_gt_trans _ G1 x y z Hxy Hyz). done.
Qed.

Lemma good_cmp_on {T S} (f : T → S) (c : S → S → Z) :
  good_cmp c → good_cmp (λ x y, c (f x) (f y)).
Proof.
  intros G. split.
  - intros x y. apply (cmp_range _ G).
  - intros x y. apply (cmp_antisym _ G).
  - intros x y z. apply (cmp_eq_l _ G).
  - intros x y z. apply (cmp_gt_trans _ G).
Qed.

Lemma Version_Compare_alt v o :
  Version_Compare v o =
  if compare_N (Major v) (Major o) =? 0 then
    if compare_N (Minor v) (Minor o) =? 0 then
      if compare_N (Patch v) (Patch o) =? 0 then compare_pre (Pre v) (Pre o)
      else compare_N (Patch v) (Patch o)
    else compare_N (Minor v) (Minor o)
  else compare_N (Major v) (Major o).
Proof.
  unfold Version_Compare, compare_N, compare_pre.
  destruct (N.eqb_spec (Major v) (Major o)), (N.ltb_spec (Major o) (Major v));
  destruct (N.eqb_spec (Minor v) (Minor o)), (N.ltb_spec (Minor o) (Minor v));
  destruct (N.eqb_spec (Patch v) (Patch o)), (N.ltb_spec (Patch o) (Patch v));
  simpl; try done; try lia.
  all: destruct (Pre v), (Pre o); done.
Qed.

Lemma good_Version_Compare : good_cmp Version_Compare.
Proof.
  pose proof (good_cmp_lex _ _ (good_cmp_on Major _ good_compare_N)
    (good_cmp_lex _ _ (good_cmp_on Minor _ good_compare_N)
      (good_cmp_lex _ _ (good_cmp_on Patch _ good_compare_N)
         (good_cmp_on Pre _ good_compare_pre)))) as G.
  split.
  - intros x y. rewrite Version_Compare_alt. apply (cmp_range _ G).
  - intros x y. rewrite !Version_Compare_alt. apply (cmp_antisym _ G).
  - intros x y z. rewrite !Version_Compare_alt. apply (cmp_eq_l _ G).
  - intros x y z. rewrite !Version_Compare_alt. apply (cmp_gt_trans _ G).
Qed.

Lemma version_less_total x y : version_less x y = true ∨ version_less y x = true.
Proof.
  unfold version_less, Version_GE.
  destruct (good_cmp_ge_total _ good_Version_Compare (version_of x) (version_of y)) as [H|H];
    [left|right]; by apply Z.leb_le.
Qed.

Lemma version_less_trans x y z :
  version_less x y = true → version_less y z = true → version_less x z = true.
Proof.
  unfold version_less, Version_GE. rewrite !Z.leb_le.
  apply (good_cmp_ge_trans _ good_Version_Compare).
Qed.

End SemverOrder.

Local Open Scope string_scope.

(** ** The listing: keys, order and tags *)

Lemma scan_step_inv tags st line :
  scan_inv tags st →
  scan_inv (tags ++ from_option (λ t, [t]) [] (parse_line line))%list (scan_step st line).
Proof.
  intros [Hkeys Htmp]. unfold scan_step.
  destruct (parse_line line) as [t|]; simpl.
  - split; simpl.
    + by rewrite Hkeys, map_app.
    + intros k [Hk| ->%list_elem_of_singleton]%elem_of_app.
      * destruct (decide (normalize t = k)) as [<-|Hne].
        -- exists t. rewrite lookup_insert_eq. split; [done|split; [done|set_solver]].
        -- destruct (Htmp k Hk) as (t' & Hl & Hn & Hin).
           exists t'. rewrite lookup_insert_ne by done. split; [done|split; [done|set_solver]].
      * exists t. rewrite lookup_insert_eq. split; [done|split; [done|set_solver]].
  - by rewrite app_nil_r.
Qed.

Lemma scan_fold_inv lines : ∀ tags st,
  scan_inv tags st → scan_inv (tags ++ omap parse_line lines)%list (foldl scan_step st lines).
Proof.
  induction lines as [|line lines IH]; intros tags st Hinv; simpl.
  - by rewrite app_nil_r.
  - apply (scan_step_inv _ _ line) in Hinv. apply IH in Hinv.
    destruct (parse_line line); simpl in *; [by rewrite <- app_assoc in Hinv|].
    by rewrite app_nil_r in Hinv.
Qed.

Lemma scan_listing_inv b : scan_inv (retained_tags b) (scan_listing b).
Proof.
  unfold scan_listing, retained_tags.
  apply (scan_fold_inv _ [] ([], ∅)). split; [done|]. intros k Hk. by apply elem_of_nil in Hk.
Qed.

Lemma StronglySorted_map_inv {A B} (f : A → B) (R : relation B) (l : list A) :
  StronglySorted R (map f l) → StronglySorted (λ x y, R (f x) (f y)) l.
Proof.
  induction l as [|x l IH]; simpl; intros H; [constructor|].
  apply StronglySorted_inv in H as [H1 H2]. constructor; [by apply IH|].
  rewrite Forall_forall in H2. apply Forall_forall. intros y Hy.
  apply H2. apply list_elem_of_fmap. eauto.
Qed.

(** Mapping the sorted keys back through [tmp] and normalizing again gives
    the sorted keys. *)
Lemma sorted_versions_keys b :
  map normalize (sorted_versions b)
  = sort_SliceStable version_less (map normalize (retained_tags b))
  ∧ ∀ t, t ∈ sorted_versions b → t ∈ retained_tags b.
Proof.
  unfold sorted_versions.
  pose proof (scan_listing_inv b) as [Hkeys Htmp].
  destruct (scan_listing b) as [keys tmp]. simpl in *. rewrite <- Hkeys.
  destruct (sort_SliceStable_sorts version_less version_less_total version_less_trans keys)
    as [Hperm _].
  assert (Hin : ∀ k, k ∈ sort_SliceStable version_less keys → k ∈ keys)
    by (intros k; by rewrite Hperm).
  revert Hin. generalize (sort_SliceStable version_less keys). intros l Hin. split.
  - induction l as [|k l IH]; [done|]. simpl.
    destruct (Htmp k) as (t & -> & Hn & _); [apply Hin; set_solver|]. simpl.
    rewrite Hn. f_equal. apply IH. intros k' Hk'. apply Hin. set_solver.
  - intros t (k & -> & Hk)%list_elem_of_fmap.
    destruct (Htmp k (Hin k Hk)) as (t' & -> & _ & Ht'). done.
Qed.

(** C3.  For every listing, the tags returned are in descending order of
    their sort keys under [Version.GE] (every tag is greater than or equal to
    all tags after it), their keys are a permutation of the keys of the
    retained tags, and for the listing with the tags 1.2.3, 1.10.0 and
    1.2.10 the result is 1.10.0, 1.2.10, 1.2.3. *)
Theorem sorted_versions_newest_first (b : list byte) :
  StronglySorted (λ x y, version_less (normalize x) (normalize y) = true) (sorted_versions b)
  ∧ map normalize (sorted_versions b) ≡ₚ map normalize (retained_tags b)
  ∧ sorted_versions (listing_of ["1.2.3"; "1.10.0"; "1.2.10"]) = ["1.10.0"; "1.2.10"; "1.2.3"].
Proof.
  destruct (sorted_versions_keys b) as [Hkeys _].
  destruct (sort_SliceStable_sorts version_less version_less_total version_less_trans
              (map normalize (retained_tags b))) as [Hperm Hsorted].
  split; [|split].
  - apply (StronglySorted_map_inv normalize (le_by version_less)). rewrite Hkeys. exact Hsorted.
  - rewrite Hkeys. exact Hperm.
  - vm_compute. reflexivity.
Qed.

(** ** Normalization of release tags *)

Lemma append_cons x (a b : string) : String x a +:+ b = String x (a +:+ b).
Proof. reflexivity. Qed.

Lemma append_nil_l (b : string) : "" +:+ b = b.
Proof. reflexivity. Qed.

Lemma append_assoc (a b c : string) : (a +:+ b) +:+ c = a +:+ (b +:+ c).
Proof. induction a as [|x a IH]; [done|]. rewrite !append_cons. by f_equal. Qed.

Lemma append_nil_r (a : string) : a +:+ "" = a.
Proof. induction a as [|x a IH]; [done|]. rewrite append_cons. by f_equal. Qed.

Lemma length_append (a b : string) :
  String.length (a +:+ b) = (String.length a + String.length b)%nat.
Proof.
  induction a as [|x a IH]; [done|]. rewrite append_cons. cbn [String.length]. by rewrite IH.
Qed.

Lemma prefix_head_ne c p d s : d ≠ c → String.prefix (String c p) (String d s) = false.
Proof. intros Hne. simpl. destruct (ascii_dec c d); [congruence|done]. Qed.

Lemma no_byte_cons c d s : no_byte c (String d s) = true → d ≠ c ∧ no_byte c s = true.
Proof.
  simpl. intros [H1 H2]%andb_true_iff. split; [|done].
  destruct (Ascii.eqb_spec d c); [done|done].
Qed.

Lemma no_byte_append c s t :
  no_byte c (s +:+ t) = no_byte c s && no_byte c t.
Proof.
  induction s as [|d s IH]; [done|]. rewrite append_cons. cbn [no_byte].
  by rewrite IH, andb_assoc.
Qed.

Lemma all_digits_no_byte c s : is_digit c = false → all_digits s = true → no_byte c s = true.
Proof.
  intros Hc. induction s as [|d s IH]; simpl; [done|].
  intros [Hd Hs]%andb_true_iff. rewrite IH by done.
  destruct (Ascii.eqb_spec d c) as [->|]; [congruence|done].
Qed.

(** *** Contains *)

Lemma Contains_no_byte c p s : no_byte c s = true → strings_Contains s (String c p) = false.
Proof.
  induction s as [|d s IH]; [done|].
  intros [Hd Hs]%no_byte_cons. cbn [strings_Contains].
  rewrite prefix_head_ne by done. by apply IH.
Qed.

Lemma Contains_append s t sub :
  strings_Contains t sub = true → strings_Contains (s +:+ t) sub = true.
Proof.
  intros Ht. induction s as [|d s IH]; [done|].
  rewrite append_cons. cbn [strings_Contains]. rewrite IH. by destruct (String.prefix _ _).
Qed.

(** *** Replace *)

Lemma replace_go_no_byte c p new s :
  no_byte c s = true → replace_go (String c p) new 0 s = s.
Proof.
  induction s as [|d s IH]; [done|].
  intros [Hd Hs]%no_byte_cons. cbn [replace_go].
  rewrite prefix_head_ne by done. by rewrite IH.
Qed.

Lemma replace_go_append c p new s t :
  no_byte c s = true →
  replace_go (String c p) new 0 (s +:+ t) = s +:+ replace_go (String c p) new 0 t.
Proof.
  induction s as [|d s IH]; [done|].
  intros [Hd Hs]%no_byte_cons. rewrite !append_cons. cbn [replace_go].
  rewrite prefix_head_ne by done. by rewrite IH.
Qed.

(** *** Split *)

Lemma split_go_no_byte c n s :
  no_byte c s = true → split_go (String c "") n 0 s = (s, []).
Proof.
  induction s as [|d s IH]; [done|].
  intros [Hd Hs]%no_byte_cons. cbn [split_go].
  rewrite prefix_head_ne by done. rewrite andb_false_r. by rewrite IH.
Qed.

Lemma split_go_append c n s t :
  no_byte c s = true →
  split_go (String c "") n 0 (s +:+ t)
  = (s +:+ (split_go (String c "") n 0 t).1, (split_go (String c "") n 0 t).2).
Proof.
  induction s as [|d s IH]; [by destruct (split_go _ _ _ _)|].
  intros [Hd Hs]%no_byte_cons. rewrite !append_cons. cbn [split_go].
  rewrite prefix_head_ne by done. rewrite andb_false_r. rewrite IH by done. done.
Qed.

Lemma split_go_sep c n t :
  (1 < n)%nat →
  split_go (String c "") n 0 (String c t)
  = ("", (split_go (String c "") (n - 1) 0 t).1 :: (split_go (String c "") (n - 1) 0 t).2).
Proof.
  intros Hn. cbn [split_go].
  replace (1 <? n)%nat with true by (symmetry; by apply Nat.ltb_lt).
  simpl. destruct (ascii_dec c c); [|done].
  replace (String.prefix "" t) with true by (by destruct t).
  by destruct (split_go _ _ _ _).
Qed.

Lemma split_go_last c s : split_go (String c "") 1 0 s = (s, []).
Proof.
  induction s as [|d s IH]; [done|]. cbn [split_go]. simpl (1 <? 1)%nat.
  cbn [andb]. by rewrite IH.
Qed.

Lemma SplitN_two a t n :
  no_byte "." a = true → (1 < n)%nat →
  strings_SplitN (a +:+ "." +:+ t) "." n
  = a :: strings_SplitN t "." (n - 1).
Proof.
  intros Ha Hn. unfold strings_SplitN.
  destruct n as [|n]; [lia|]. destruct n as [|n]; [lia|].
  rewrite split_go_append by done. rewrite append_cons, append_nil_l.
  rewrite split_go_sep by lia. cbn [fst snd]. rewrite append_nil_r.
  replace (S (S n) - 1)%nat with (S n) by lia.
  by destruct (split_go "." (S n) 0 t).
Qed.

Lemma SplitN_last t : strings_SplitN t "." 1 = [t].
Proof. unfold strings_SplitN. by rewrite split_go_last. Qed.

Lemma SplitN_one a n : no_byte "." a = true → (0 < n)%nat → strings_SplitN a "." n = [a].
Proof.
  intros Ha Hn. unfold strings_SplitN. destruct n; [lia|]. by rewrite split_go_no_byte.
Qed.

Lemma Split_one a : no_byte "." a = true → strings_Split a "." = [a].
Proof. intros Ha. unfold strings_Split. apply SplitN_one; [done|lia]. Qed.

Lemma Split_two a t :
  no_byte "." a = true → no_byte "." t = true → strings_Split (a +:+ "." +:+ t) "." = [a; t].
Proof.
  intros Ha Ht. unfold strings_Split.
  rewrite SplitN_two; [|done|rewrite !length_append; simpl; lia].
  rewrite SplitN_one; [done|done|rewrite !length_append; simpl; lia].
Qed.

Lemma Split_three a b t :
  no_byte "." a = true → no_byte "." b = true → no_byte "." t = true →
  strings_Split (a +:+ "." +:+ b +:+ "." +:+ t) "." = [a; b; t].
Proof.
  intros Ha Hb Ht. unfold strings_Split.
  rewrite SplitN_two; [|done|rewrite !length_append; simpl; lia].
  rewrite SplitN_two; [|done|rewrite !length_append; simpl; lia].
  rewrite SplitN_one; [done|done|rewrite !length_append; simpl; lia].
Qed.

Lemma SplitN3_three a b t :
  no_byte "." a = true → no_byte "." b = true →
  strings_SplitN (a +:+ "." +:+ b +:+ "." +:+ t) "." 3 = [a; b; t].
Proof.
  intros Ha Hb. rewrite SplitN_two by (done || lia). simpl (3 - 1)%nat.
  rewrite SplitN_two by (done || lia). simpl (2 - 1)%nat. by rewrite SplitN_last.
Qed.

(** *** Numbers *)

Lemma is_digit_numbers c : is_digit c = true → contains_byte numbers c = true.
Proof. destruct c as [[] [] [] [] [] [] [] []]; by vm_compute. Qed.

Lemma is_digit_alphanum c : is_digit c = true → contains_byte alphanum c = true.
Proof. destruct c as [[] [] [] [] [] [] [] []]; by vm_compute. Qed.

Lemma all_digits_numbers s : all_digits s = true → containsOnly s numbers = true.
Proof.
  induction s as [|c s IH]; [done|]. cbn [all_digits containsOnly].
  intros [Hc Hs]%andb_true_iff. by rewrite is_digit_numbers, IH.
Qed.

Lemma all_digits_alphanum s : all_digits s = true → containsOnly s alphanum = true.
Proof.
  induction s as [|c s IH]; [done|]. cbn [all_digits containsOnly].
  intros [Hc Hs]%andb_true_iff. by rewrite is_digit_alphanum, IH.
Qed.

Lemma value_from_ge s : ∀ acc, (acc <= value_from acc s)%N.
Proof.
  induction s as [|c s IH]; intros acc; cbn [value_from]; [lia|].
  etrans; [|apply IH]. lia.
Qed.

Lemma parse_digits_value s : ∀ acc,
  all_digits s = true → (value_from acc s <= maxUint64)%N →
  parse_digits acc s = Some (value_from acc s).
Proof.
  induction s as [|c s IH]; intros acc; [done|]. cbn [all_digits parse_digits value_from].
  intros [Hc Hs]%andb_true_iff Hmax. rewrite Hc.
  pose proof (value_from_ge s (acc * 10 + digit_val c)) as Hge.
  replace (acc * 10 + digit_val c <=? maxUint64)%N with true
    by (symmetry; apply N.leb_le; lia).
  by apply IH.
Qed.

Lemma parse_number_numeric s :
  numeric_section s → parse_number s = Some (value_from 0 s).
Proof.
  intros (Hne & Hd & Hz & Hmax). unfold parse_number.
  rewrite all_digits_numbers by done. rewrite Hz. cbn [negb].
  destruct s as [|c s]; [done|]. unfold strconv_ParseUint. by apply parse_digits_value.
Qed.

Lemma numeric_no_byte c s : is_digit c = false → numeric_section s → no_byte c s = true.
Proof. intros Hc (_ & Hd & _). by apply all_digits_no_byte. Qed.

(** *** IndexByte, take and drop *)

Lemma IndexByte_no_byte c s : no_byte c s = true → strings_IndexByte s c = None.
Proof.
  induction s as [|d s IH]; [done|]. intros [Hd Hs]%no_byte_cons. cbn [strings_IndexByte].
  destruct (Ascii.eqb_spec d c); [done|]. by rewrite IH.
Qed.

Lemma IndexByte_append c s t :
  no_byte c s = true → strings_IndexByte (s +:+ String c t) c = Some (String.length s).
Proof.
  induction s as [|d s IH].
  - intros _. rewrite append_nil_l. cbn [strings_IndexByte]. by rewrite Ascii.eqb_refl.
  - intros [Hd Hs]%no_byte_cons. rewrite append_cons. cbn [strings_IndexByte].
    destruct (Ascii.eqb_spec d c); [done|]. by rewrite IH.
Qed.

Lemma str_take_append s t : str_take (String.length s) (s +:+ t) = s.
Proof.
  induction s as [|d s IH]; [by destruct t|]. rewrite append_cons. cbn [String.length str_take].
  by rewrite IH.
Qed.

Lemma str_drop_S n d s : str_drop (S n) (String d s) = str_drop n s.
Proof. reflexivity. Qed.

Lemma str_drop_append c s t : str_drop (S (String.length s)) (s +:+ String c t) = t.
Proof.
  induction s as [|d s IH]; [by destruct t|]. rewrite append_cons. cbn [String.length].
  by rewrite str_drop_S.
Qed.

(** *** Parsing the normalized forms *)

Lemma append_nonempty a t : a ≠ "" → a +:+ t ≠ "".
Proof. destruct a; [done|]. by rewrite append_cons. Qed.

Lemma Parse_plain a b p :
  numeric_section a → numeric_section b → numeric_section p →
  semver_Parse (a +:+ "." +:+ b +:+ "." +:+ p)
  = Some (release (value_from 0 a) (value_from 0 b) (value_from 0 p) None).
Proof.
  intros Ha Hb Hp. unfold semver_Parse.
  pose proof (append_nonempty a ("." +:+ b +:+ "." +:+ p) (proj1 Ha)) as Hne.
  remember (a +:+ "." +:+ b +:+ "." +:+ p) as s eqn:Hs.
  destruct s as [|c0 s0]; [done|]. rewrite Hs.
  rewrite SplitN3_three by (by apply numeric_no_byte).
  rewrite !parse_number_numeric by done.
  rewrite (IndexByte_no_byte "+" p) by (by apply numeric_no_byte).
  rewrite (IndexByte_no_byte "-" p) by (by apply numeric_no_byte).
  rewrite parse_number_numeric by done. done.
Qed.

Lemma Parse_pre a b p md :
  numeric_section a → numeric_section b → numeric_section p →
  no_byte "." md = true → no_byte "+" md = true →
  NewPRVersion md = Some {| VersionStr := md; VersionNum := 0; IsNum := false |} →
  semver_Parse (a +:+ "." +:+ b +:+ "." +:+ p +:+ "-" +:+ md)
  = Some (release (value_from 0 a) (value_from 0 b) (value_from 0 p) (Some md)).
Proof.
  intros Ha Hb Hp Hdot Hplus Hpr. unfold semver_Parse.
  pose proof (append_nonempty a ("." +:+ b +:+ "." +:+ p +:+ "-" +:+ md) (proj1 Ha)) as Hne.
  remember (a +:+ "." +:+ b +:+ "." +:+ p +:+ "-" +:+ md) as s eqn:Hs.
  destruct s as [|c0 s0]; [done|]. rewrite Hs.
  rewrite SplitN3_three by (by apply numeric_no_byte).
  rewrite !parse_number_numeric by done.
  rewrite (IndexByte_no_byte "+" (p +:+ "-" +:+ md)).
  2:{ rewrite no_byte_append, (numeric_no_byte "+" p) by done. by rewrite append_cons. }
  rewrite append_cons, append_nil_l.
  rewrite (IndexByte_append "-" p md) by (by apply numeric_no_byte).
  rewrite str_take_append, str_drop_append.
  rewrite Split_one by done.
  rewrite parse_number_numeric by done.
  cbn [parse_prerelease]. rewrite Hpr. done.
Qed.

Lemma marker_digits_pre m d :
  marker m → all_digits d = true →
  no_byte "." (m +:+ d) = true ∧ no_byte "+" (m +:+ d) = true ∧
  NewPRVersion (m +:+ d)
  = Some {| VersionStr := m +:+ d; VersionNum := 0; IsNum := false |}.
Proof.
  intros [-> | ->] Hd.
  - rewrite !no_byte_append, !(all_digits_no_byte _ d) by done.
    split; [done|split; [done|]].
    unfold NewPRVersion. rewrite !append_cons, append_nil_l. cbn [containsOnly].
    rewrite all_digits_alphanum by done. done.
  - rewrite !no_byte_append, !(all_digits_no_byte _ d) by done.
    split; [done|split; [done|]].
    unfold NewPRVersion. rewrite !append_cons, append_nil_l. cbn [containsOnly].
    rewrite all_digits_alphanum by done. done.
Qed.

Lemma numeric_zero : numeric_section "0".
Proof. by vm_compute. Qed.

(** *** The sort key of a release tag *)

Lemma String_prefix_empty t : String.prefix "" t = true.
Proof. by destruct t. Qed.

Lemma Contains_marker m d : marker m → strings_Contains (m +:+ d) m = true.
Proof.
  intros [-> | ->]; rewrite !append_cons, append_nil_l; cbn [strings_Contains];
    simpl (String.prefix _ _); by rewrite String_prefix_empty.
Qed.

Lemma Replace_marker m new d :
  marker m → all_digits d = true → replace_go m new 0 (m +:+ d) = new +:+ d.
Proof.
  intros [-> | ->] Hd; rewrite !append_cons, append_nil_l; cbn [replace_go];
    simpl (String.prefix _ _); rewrite String_prefix_empty; cbn [replace_go String.length Nat.sub];
    by rewrite replace_go_no_byte by (by apply all_digits_no_byte).
Qed.

Lemma marker_first m : marker m → ∃ c p, m = String c p ∧ is_digit c = false ∧ c ≠ "."%char.
Proof. intros [-> | ->]; eexists _, _; (split; [reflexivity|split; [done|done]]). Qed.

(** A tag [x ++ m ++ d], where the marker [m] does not start in [x]. *)
Lemma Replace_tag x m new d :
  marker m → all_digits d = true →
  (∀ c p, m = String c p → no_byte c x = true) →
  strings_Contains (x +:+ m +:+ d) m = true ∧
  strings_Replace (x +:+ m +:+ d) m new = x +:+ new +:+ d.
Proof.
  intros Hm Hd Hx. split.
  - apply Contains_append. by apply Contains_marker.
  - unfold strings_Replace.
    destruct (marker_first m Hm) as (c & p & -> & _ & _). cbn [String.eqb].
    rewrite replace_go_append by (by eapply Hx). by rewrite Replace_marker.
Qed.

Lemma no_byte_dotted c a b :
  is_digit c = false → c ≠ "."%char → numeric_section a → numeric_section b →
  no_byte c (a +:+ "." +:+ b) = true.
Proof.
  intros Hc Hdot Ha Hb.
  rewrite !no_byte_append, (numeric_no_byte c a), (numeric_no_byte c b) by done.
  cbn [no_byte]. destruct (Ascii.eqb_spec "." c); [congruence|done].
Qed.

Lemma no_byte_dotted3 c a b p :
  is_digit c = false → c ≠ "."%char →
  numeric_section a → numeric_section b → numeric_section p →
  no_byte c (a +:+ "." +:+ b +:+ "." +:+ p) = true.
Proof.
  intros Hc Hdot Ha Hb Hp.
  rewrite !no_byte_append, (numeric_no_byte c a), (numeric_no_byte c b),
    (numeric_no_byte c p) by done.
  cbn [no_byte]. destruct (Ascii.eqb_spec "." c); [congruence|done].
Qed.

Lemma Contains_other m m' x d :
  marker m → marker m' → m ≠ m' → all_digits d = true →
  (∀ c, is_digit c = false → c ≠ "."%char → no_byte c x = true) →
  strings_Contains (x +:+ m +:+ d) m' = false.
Proof.
  intros Hm Hm' Hne Hd Hx.
  destruct Hm as [-> | ->], Hm' as [-> | ->]; try done.
  - apply Contains_no_byte. rewrite !no_byte_append, Hx by done.
    by rewrite (all_digits_no_byte _ d).
  - apply Contains_no_byte. rewrite !no_byte_append, Hx by done.
    by rewrite (all_digits_no_byte _ d).
Qed.

Lemma normalize_marked x m d new2 new3 n :
  marker m → all_digits d = true →
  (∀ c, is_digit c = false → c ≠ "."%char → no_byte c x = true) →
  length (strings_Split (x +:+ m +:+ d) ".") = n →
  (if strings_Contains (x +:+ m +:+ d) "beta"
   then strings_Replace (x +:+ m +:+ d) "beta" (new2 +:+ "beta")
   else if strings_Contains (x +:+ m +:+ d) "rc"
        then strings_Replace (x +:+ m +:+ d) "rc" (new2 +:+ "rc")
        else new3) = x +:+ new2 +:+ m +:+ d
  ∧ (if strings_Contains (x +:+ m +:+ d) "rc"
     then strings_Replace (x +:+ m +:+ d) "rc" (new2 +:+ "rc")
     else if strings_Contains (x +:+ m +:+ d) "beta"
          then strings_Replace (x +:+ m +:+ d) "beta" (new2 +:+ "beta")
          else new3) = x +:+ new2 +:+ m +:+ d.
Proof.
  intros Hm Hd Hx _.
  assert (Hxm : ∀ c p, m = String c p → no_byte c x = true).
  { intros c p ->. destruct Hm as [[= -> ->]|[= -> ->]]; by apply Hx. }
  destruct (Replace_tag x m (new2 +:+ m) d Hm Hd Hxm) as [Hc Hr].
  destruct Hm as [-> | ->].
  - rewrite Hc, Hr. rewrite (Contains_other "beta" "rc" x d (or_introl eq_refl) (or_intror eq_refl) ltac:(done) Hd Hx).
    rewrite ?Hc, ?Hr. by rewrite ?append_assoc.
  - rewrite Hc, Hr. rewrite (Contains_other "rc" "beta" x d (or_intror eq_refl) (or_introl eq_refl) ltac:(done) Hd Hx).
    rewrite ?Hc, ?Hr. by rewrite ?append_assoc.
Qed.

Lemma numeric_no_marker c a : is_digit c = false → numeric_section a → no_byte c a = true.
Proof. apply numeric_no_byte. Qed.

(** C4, amended.  For numeric sections [a], [b], [c] (decimal numerals
    without leading zero that fit 64 bits), a marker [m] (beta or rc) and
    digits [d], the tags a, a.b, a.b m d, a.b.c and a.b.c m d are normalized
    to a.0.0, a.b.0, a.b.0-md, a.b.c and a.b.c-md, and each of these keys
    parses as the semantic version with these numbers and this pre-release. *)
Theorem normalize_release_tags (a b c m d : string) :
  numeric_section a → numeric_section b → numeric_section c →
  marker m → all_digits d = true →
  let va := value_from 0 a in
  let vb := value_from 0 b in
  let vc := value_from 0 c in
  (normalize a = a +:+ ".0.0"
   ∧ semver_Make (normalize a) = Some (release va 0 0 None))
  ∧ (normalize (a +:+ "." +:+ b) = a +:+ "." +:+ b +:+ ".0"
     ∧ semver_Make (normalize (a +:+ "." +:+ b)) = Some (release va vb 0 None))
  ∧ (normalize (a +:+ "." +:+ b +:+ m +:+ d) = a +:+ "." +:+ b +:+ ".0-" +:+ m +:+ d
     ∧ semver_Make (normalize (a +:+ "." +:+ b +:+ m +:+ d))
       = Some (release va vb 0 (Some (m +:+ d))))
  ∧ (normalize (a +:+ "." +:+ b +:+ "." +:+ c) = a +:+ "." +:+ b +:+ "." +:+ c
     ∧ semver_Make (normalize (a +:+ "." +:+ b +:+ "." +:+ c)) = Some (release va vb vc None))
  ∧ (normalize (a +:+ "." +:+ b +:+ "." +:+ c +:+ m +:+ d)
       = a +:+ "." +:+ b +:+ "." +:+ c +:+ "-" +:+ m +:+ d
     ∧ semver_Make (normalize (a +:+ "." +:+ b +:+ "." +:+ c +:+ m +:+ d))
       = Some (release va vb vc (Some (m +:+ d)))).
Proof.
  intros Ha Hb Hc Hm Hd va vb vc.
  destruct (marker_digits_pre m d Hm Hd) as (Hmd_dot & Hmd_plus & Hmd_pre).
  assert (Hdot : ∀ s, numeric_section s → no_byte "." s = true)
    by (intros s; by apply numeric_no_byte).
  assert (N1 : normalize a = a +:+ ".0.0").
  { unfold normalize. by rewrite Split_one by auto. }
  assert (N2 : normalize (a +:+ "." +:+ b) = a +:+ "." +:+ b +:+ ".0").
  { unfold normalize. rewrite Split_two by auto. cbn [length].
    rewrite (Contains_no_byte "b") by (by apply no_byte_dotted).
    rewrite (Contains_no_byte "r") by (by apply no_byte_dotted).
    by rewrite !append_assoc. }
  assert (N2m : normalize (a +:+ "." +:+ b +:+ m +:+ d) = a +:+ "." +:+ b +:+ ".0-" +:+ m +:+ d).
  { unfold normalize.
    replace (a +:+ "." +:+ b +:+ m +:+ d) with ((a +:+ "." +:+ b) +:+ m +:+ d)
      by (by rewrite !append_assoc).
    destruct (normalize_marked (a +:+ "." +:+ b) m d ".0-" (((a +:+ "." +:+ b) +:+ m +:+ d) +:+ ".0") 2 Hm Hd)
      as [Hn _].
    { intros ch ? ?. by apply no_byte_dotted. }
    { rewrite !append_assoc. rewrite Split_two; [done|auto|].
      rewrite no_byte_append, Hdot by done. done. }
    replace (length (strings_Split ((a +:+ "." +:+ b) +:+ m +:+ d) ".")) with 2%nat.
    2:{ rewrite !append_assoc. rewrite Split_two; [done|auto|].
        rewrite no_byte_append, Hdot by done. done. }
    change (".0-" +:+ "beta") with ".0-beta" in Hn.
    change (".0-" +:+ "rc") with ".0-rc" in Hn.
    cbn [length]. rewrite Hn. by rewrite !append_assoc. }
  assert (N3 : normalize (a +:+ "." +:+ b +:+ "." +:+ c) = a +:+ "." +:+ b +:+ "." +:+ c).
  { unfold normalize. rewrite Split_three by auto. cbn [length].
    rewrite (Contains_no_byte "r") by (by apply no_byte_dotted3).
    rewrite (Contains_no_byte "b") by (by apply no_byte_dotted3). done. }
  assert (N3m : normalize (a +:+ "." +:+ b +:+ "." +:+ c +:+ m +:+ d)
                = a +:+ "." +:+ b +:+ "." +:+ c +:+ "-" +:+ m +:+ d).
  { unfold normalize.
    replace (a +:+ "." +:+ b +:+ "." +:+ c +:+ m +:+ d)
      with ((a +:+ "." +:+ b +:+ "." +:+ c) +:+ m +:+ d) by (by rewrite !append_assoc).
    destruct (normalize_marked (a +:+ "." +:+ b +:+ "." +:+ c) m d "-"
                ((a +:+ "." +:+ b +:+ "." +:+ c) +:+ m +:+ d) 3 Hm Hd) as [_ Hn].
    { intros ch ? ?. by apply no_byte_dotted3. }
    { rewrite !append_assoc. rewrite Split_three; [done|auto|auto|].
      rewrite no_byte_append, Hdot by done. done. }
    replace (length (strings_Split ((a +:+ "." +:+ b +:+ "." +:+ c) +:+ m +:+ d) ".")) with 3%nat.
    2:{ rewrite !append_assoc. rewrite Split_three; [done|auto|auto|].
        rewrite no_byte_append, Hdot by done. done. }
    change ("-" +:+ "beta") with "-beta" in Hn.
    change ("-" +:+ "rc") with "-rc" in Hn.
    cbn [length]. rewrite Hn. by rewrite !append_assoc. }
  unfold semver_Make. rewrite N1, N2, N2m, N3, N3m.
  split; [split; [done|]|split; [split; [done|]|split; [split; [done|]|split; [split; [done|]|split; [done|]]]]].
  - apply (Parse_plain a "0" "0"); [done|apply numeric_zero|apply numeric_zero].
  - apply (Parse_plain a b "0"); [done|done|apply numeric_zero].
  - apply (Parse_pre a b "0" (m +:+ d)); [done|done|apply numeric_zero|done|done|done].
  - by apply Parse_plain.
  - by apply (Parse_pre a b c (m +:+ d)).
Qed.

Lemma normalize_release_tags_witness :
  numeric_section "1" ∧ numeric_section "21" ∧ numeric_section "3" ∧ marker "rc"
  ∧ all_digits "2" = true
  ∧ normalize "1.21rc2" = "1.21.0-rc2"
  ∧ semver_Make (normalize "1.21.3rc2") = Some (release 1 21 3 (Some "rc2")).
Proof.
  assert (H1 : numeric_section "1") by (by vm_compute).
  assert (H2 : numeric_section "21") by (by vm_compute).
  assert (H3 : numeric_section "3") by (by vm_compute).
  assert (H4 : marker "rc") by (by right).
  assert (H5 : all_digits "2" = true) by reflexivity.
  destruct (normalize_release_tags "1" "21" "3" "rc" "2" H1 H2 H3 H4 H5)
    as (_ & _ & [Hn _] & _ & [_ Hp]).
  repeat split; try done.
Defined.

(** C4, as stated, fails: a marker in a tag of one section (1rc1), a section
    with a leading zero (1.02) and a section beyond 64 bits are normalized to
    keys that [semver.Make] rejects. *)
Lemma normalize_unparsed_keys :
  normalize "1rc1" = "1rc1.0.0" ∧ semver_Make (normalize "1rc1") = None
  ∧ normalize "1.02" = "1.02.0" ∧ semver_Make (normalize "1.02") = None
  ∧ normalize "18446744073709551616" = "18446744073709551616.0.0"
  ∧ semver_Make (normalize "18446744073709551616") = None.
Proof. by vm_compute. Qed.

(** ** Files, writes and copies *)

Local Open Scope list_scope.

Lemma walk_ok m r n : ∀ rest done,
  (done ++ rest)%list ≠ [] →
  walk m r done rest = StatOk n ↔
  (∀ k, (length done ≤ k < length done + length rest)%nat → (0 < k)%nat →
        ∃ perm mt, m !! (r, take k (rev done ++ rest)%list) = Some (Dir perm mt))
  ∧ m !! (r, (rev done ++ rest)%list) = Some n.
Proof.
  induction rest as [|c rest IH]; intros done Hne.
  - rewrite app_nil_r in *. destruct done as [|d done]; [done|]. cbn [walk].
    split.
    + destruct (m !! _) eqn:Hl; [|done]. intros [= ->]. split; [|done]. intros k Hk. simpl in Hk. lia.
    + intros [_ ->]. done.
  - destruct done as [|d done].
    + cbn [walk]. rewrite (IH [c]) by done. simpl. split.
      * intros [H1 H2]. split; [|done]. intros k Hk Hk0. apply H1; lia.
      * intros [H1 H2]. split; [|done]. intros k Hk Hk0. apply H1; lia.
    + cbn [walk].
      assert (Heq : (rev (c :: d :: done) ++ rest = rev (d :: done) ++ c :: rest)%list).
      { cbn [rev]. by rewrite <- !app_assoc. }
      assert (Htake : take (length (d :: done)) (rev (d :: done) ++ c :: rest)%list = rev (d :: done)).
      { rewrite <- (length_rev (d :: done)). by rewrite take_app_length. }
      split.
      * destruct (m !! (r, rev (d :: done))) as [[perm mt|? ? ?]|] eqn:Hl; [|done|done].
        rewrite (IH (c :: d :: done)) by done. rewrite Heq.
        intros [H1 H2]. split; [|done]. intros k Hk Hk0.
        destruct (decide (k = length (d :: done))) as [->|Hne'].
        -- rewrite Htake. eauto.
        -- apply H1; [|done]. cbn [length] in *. lia.
      * intros [H1 H2].
        destruct (H1 (length (d :: done))) as (perm & mt & Hd); [cbn [length]; lia|cbn [length]; lia|].
        rewrite Htake in Hd. rewrite Hd.
        rewrite (IH (c :: d :: done)) by done. rewrite Heq. split; [|done].
        intros k Hk Hk0. apply H1; [|done]. cbn [length] in *. lia.
Qed.

Lemma stat_path_ok m r comps n :
  comps ≠ [] →
  stat_path m (r, comps) = StatOk n ↔ dirs_above m r comps ∧ m !! (r, comps) = Some n.
Proof.
  intros Hne. unfold stat_path. cbn [fst snd].
  rewrite (walk_ok m r n comps []) by done. cbn [rev app length]. unfold dirs_above.
  split; intros [H1 H2]; (split; [|done]).
  - intros k Hk. apply H1; lia.
  - intros k Hk Hk0. apply H1; lia.
Qed.

Lemma stat_path_root m r : stat_path m (r, []) = StatOk (Dir 511 0).
Proof. done. Qed.

Lemma take_removelast {A} (l : list A) : removelast l = take (length l - 1) l.
Proof.
  induction l as [|x l IH]; [done|]. destruct l as [|y l]; [done|].
  change (removelast (x :: y :: l)) with (x :: removelast (y :: l)). rewrite IH.
  cbn [length]. replace (S (S (length l)) - 1)%nat with (S (S (length l) - 1)) by lia. done.
Qed.

(** Resolution through a directory that exists. *)
Lemma dirs_above_parent m r comps perm mt :
  stat_path m (parent (r, comps)) = StatOk (Dir perm mt) → dirs_above m r comps.
Proof.
  unfold parent. cbn [fst snd]. intros Hp k Hk.
  destruct (decide (removelast comps = [])) as [He|Hne].
  - rewrite take_removelast in He. apply (f_equal length) in He.
    rewrite length_take in He. simpl in He. lia.
  - apply stat_path_ok in Hp as [Ha Hl]; [|done].
    rewrite take_removelast in Ha, Hl.
    destruct (decide (k = length comps - 1)%nat) as [->|Hk'].
    + eauto.
    + destruct (Ha k) as (p' & mt' & Hd).
      * rewrite length_take. lia.
      * rewrite take_take in Hd. replace (k `min` (length comps - 1))%nat with k in Hd by lia. eauto.
Qed.

Lemma dirs_above_insert m r comps q n :
  dirs_above m r comps → (∀ k, (0 < k < length comps)%nat → q ≠ (r, take k comps)) →
  dirs_above (<[q := n]> m) r comps.
Proof.
  intros Ha Hq k Hk. destruct (Ha k Hk) as (perm & mt & Hd).
  exists perm, mt. rewrite lookup_insert_ne; [done|]. by apply Hq.
Qed.

Lemma take_proper_ne {A} (l : list A) k : (k < length l)%nat → take k l ≠ l.
Proof. intros Hk He. apply (f_equal length) in He. rewrite length_take in He. lia. Qed.

Lemma stat_path_insert_same m r comps n :
  comps ≠ [] → dirs_above m r comps → stat_path (<[(r, comps) := n]> m) (r, comps) = StatOk n.
Proof.
  intros Hne Ha. apply stat_path_ok; [done|]. split.
  - apply dirs_above_insert; [done|]. intros k Hk [= He]. symmetry in He.
    by apply take_proper_ne in He; [|lia].
  - by rewrite lookup_insert_eq.
Qed.

Lemma os_OpenFile_ok E st name perm st' :
  os_OpenFile E st name perm = (st', None) →
  name ≠ "" ∧ (clean_path name).2 ≠ [] ∧
  ∃ perm', fs st' = <[clean_path name := File perm' (now E) []]> (fs st)
           ∧ budget st' = budget st ∧ log st' = log st
           ∧ stat_path (fs st') (clean_path name) = StatOk (File perm' (now E) []).
Proof.
  unfold os_OpenFile. destruct (String.eqb_spec name "") as [->|Hne]; [done|].
  destruct (clean_path name) as [r comps] eqn:Hp.
  destruct comps as [|c0 comps0].
  { rewrite stat_path_root. done. }
  set (comps := c0 :: comps0) in *.
  destruct (stat_path (fs st) (r, comps)) as [[?|perm' mt c]| |] eqn:Hs; try done.
  - intros [= <-]. split; [done|split; [done|]]. exists perm'. unfold set_fs. cbn [fs budget log].
    split; [done|split; [done|split; [done|]]].
    apply stat_path_ok in Hs as [Ha _]; [|done]. by apply stat_path_insert_same.
  - destruct (stat_path (fs st) (parent (r, comps))) as [[pp pm|? ? ?]| |] eqn:Hpar; try done.
    intros [= <-]. split; [done|split; [done|]]. exists perm. unfold set_fs. cbn [fs budget log].
    split; [done|split; [done|split; [done|]]].
    apply stat_path_insert_same; [done|]. by eapply dirs_above_parent.
Qed.

Lemma stat_path_rewrite m r comps n n' :
  comps ≠ [] → stat_path m (r, comps) = StatOk n →
  stat_path (<[(r, comps) := n']> m) (r, comps) = StatOk n'.
Proof.
  intros Hne [Ha _]%stat_path_ok; [|done]. by apply stat_path_insert_same.
Qed.

(** One write that the budget covers. *)
Lemma file_Write_ok (f : os_File) p perm mt c :
  fs (f_state f) !! f_name f = Some (File perm mt c) →
  (N.of_nat (length p) <= budget (f_state f))%N →
  file_Write f p =
    ({| f_state := {| fs := <[f_name f := File perm (f_now f) (c ++ p)]> (fs (f_state f));
                      budget := budget (f_state f) - N.of_nat (length p);
                      log := log (f_state f) |};
        f_name := f_name f; f_now := f_now f |}, length p, None).
Proof.
  intros Hl Hb. unfold file_Write. rewrite Hl.
  replace (N.of_nat (length p) <=? budget (f_state f))%N with true
    by (symmetry; by apply N.leb_le).
  rewrite Nat.ltb_irrefl. by rewrite firstn_all.
Qed.

Lemma fanout_Write_ok (f : os_File) (h : hasher) (bar : ProgressBar) p perm mt c :
  fs (f_state f) !! f_name f = Some (File perm mt c) →
  (N.of_nat (length p) <= budget (f_state f))%N →
  Write (f, (h, bar)) p =
    (({| f_state := {| fs := <[f_name f := File perm (f_now f) (c ++ p)]> (fs (f_state f));
                       budget := budget (f_state f) - N.of_nat (length p);
                       log := log (f_state f) |};
         f_name := f_name f; f_now := f_now f |},
      ({| written := written h ++ p |},
       {| Total := Total bar; current := current bar + N.of_nat (length p) |})),
     length p, None).
Proof.
  intros Hl Hb. unfold Write at 1. unfold MultiWriter. cbn [fst snd].
  unfold Write at 1. unfold os_File_Writer. rewrite (file_Write_ok f p perm mt c Hl Hb).
  rewrite Nat.eqb_refl. cbn [negb].
  unfold Write at 1. unfold MultiWriter. cbn [fst snd].
  unfold Write at 1. unfold hasher_Writer. rewrite Nat.eqb_refl. cbn [negb].
  unfold Write at 1. unfold ProgressBar_Writer. rewrite Nat.eqb_refl. cbn [negb].
  rewrite Nat.eqb_refl. done.
Qed.

(** The copy of a body that the budget covers: file, digest and counter
    receive exactly the bytes of the body, in order. *)
Lemma copy_loop_ok cs : ∀ (f : os_File) (h : hasher) (bar : ProgressBar) n perm mt c fin,
  fs (f_state f) !! f_name f = Some (File perm mt c) →
  (N.of_nat (length (concat cs)) <= budget (f_state f))%N →
  ∃ mt',
  copy_loop (f, (h, bar)) cs fin n =
    (({| f_state := {| fs := <[f_name f := File perm mt' (c ++ concat cs)]> (fs (f_state f));
                       budget := budget (f_state f) - N.of_nat (length (concat cs));
                       log := log (f_state f) |};
         f_name := f_name f; f_now := f_now f |},
      ({| written := written h ++ concat cs |},
       {| Total := Total bar; current := current bar + N.of_nat (length (concat cs)) |})),
     (n + N.of_nat (length (concat cs)))%N, fin).
Proof.
  induction cs as [|ch cs IH]; intros f h bar n perm mt c fin Hl Hb.
  - exists mt. cbn [copy_loop concat length]. rewrite !app_nil_r, N.sub_0_r, !N.add_0_r.
    rewrite insert_id by done. by destruct f as [[? ? ?] ? ?], h, bar.
  - cbn [concat] in *. rewrite length_app in Hb.
    destruct ch as [|b0 ch0].
    + cbn [copy_loop]. destruct (IH f h bar n perm mt c fin Hl) as [mt' ->]; [cbn [length] in *; lia|].
      exists mt'. done.
    + cbn [copy_loop]. remember (b0 :: ch0) as ch eqn:Hch. clear Hch.
      rewrite (fanout_Write_ok f h bar ch perm mt c Hl) by lia.
      replace (length ch <? length ch)%nat with false by (symmetry; apply Nat.ltb_irrefl).
      rewrite Nat.eqb_refl. cbn [negb].
      edestruct (IH {| f_state := {| fs := <[f_name f := File perm (f_now f) (c ++ ch)]> (fs (f_state f));
                       budget := budget (f_state f) - N.of_nat (length ch);
                       log := log (f_state f) |};
         f_name := f_name f; f_now := f_now f |}) as [mt' ->].
      * cbn [f_state f_name fs]. by rewrite lookup_insert_eq.
      * cbn [f_state budget]. lia.
      * exists mt'. cbn [f_state f_name f_now fs budget log written current Total].
        rewrite insert_insert_eq, length_app, <- !app_assoc.
        rewrite Nat2N.inj_add, N.sub_add_distr, !N.add_assoc. done.
Qed.

Lemma same_but_file_refl f : same_but_file f f.
Proof. done. Qed.

Lemma same_but_file_trans f1 f2 f3 :
  same_but_file f1 f2 → same_but_file f2 f3 → same_but_file f1 f3.
Proof.
  intros (Hn1 & Ht1 & Hl1 & Hf1) (Hn2 & Ht2 & Hl2 & Hf2).
  split; [congruence|split; [congruence|split; [congruence|]]].
  intros q Hq. rewrite Hf2 by congruence. by apply Hf1.
Qed.

(** One write to an open file: a prefix of the chunk is appended, all of
    it when there is no error. *)
Lemma file_Write_inv (f : os_File) p c :
  file_content f = Some c →
  ∃ f' n err, file_Write f p = (f', n, err)
    ∧ file_content f' = Some (c ++ take n p) ∧ (n ≤ length p)%nat
    ∧ (err = None → n = length p) ∧ same_but_file f f'.
Proof.
  unfold file_content, file_Write. intros Hc.
  destruct (fs (f_state f) !! f_name f) as [[?|perm mt c']|] eqn:Hl; try done.
  injection Hc as ->. eexists _, _, _. split; [done|]. cbn [f_state f_name fs].
  rewrite lookup_insert_eq. split; [done|].
  destruct (N.leb_spec (N.of_nat (length p)) (budget (f_state f))) as [Hle|Hgt].
  - rewrite Nat.ltb_irrefl. split; [done|split; [done|]].
    split; [done|split; [done|split; [done|]]]. intros q Hq. cbn. by rewrite lookup_insert_ne.
  - assert (Hlt : (N.to_nat (budget (f_state f)) < length p)%nat) by lia.
    replace (N.to_nat (budget (f_state f)) <? length p)%nat with true
      by (symmetry; by apply Nat.ltb_lt).
    split; [lia|split; [done|]].
    split; [done|split; [done|split; [done|]]]. intros q Hq. cbn. by rewrite lookup_insert_ne.
Qed.

(** One round of the fan-out: either all three sinks took the whole chunk,
    or the file took a part of it and the other two nothing. *)
Lemma fanout_Write_inv (f : os_File) (h : hasher) (bar : ProgressBar) p c :
  file_content f = Some c →
  ∃ f' h' bar' n err X Y,
    Write (f, (h, bar)) p = ((f', (h', bar')), n, err)
    ∧ file_content f' = Some (c ++ X ++ Y)
    ∧ written h' = written h ++ X
    ∧ current bar' = (current bar + N.of_nat (length X))%N
    ∧ same_but_file f f'
    ∧ ((err = None ∧ n = length p ∧ X = p ∧ Y = [])
       ∨ (err ≠ None ∧ X = [] ∧ Y `prefix_of` p)).
Proof.
  intros Hc. destruct (file_Write_inv f p c Hc) as (f' & n & err & Hw & Hc' & Hn & Herr & Hsame).
  unfold Write at 1. unfold MultiWriter. cbn [fst snd].
  unfold Write at 1. unfold os_File_Writer. rewrite Hw.
  destruct err as [e|].
  - exists f', h, bar, n, (Some e), [], (take n p).
    split; [done|]. rewrite app_nil_r, N.add_0_r. cbn [app].
    split; [done|split; [done|split; [done|split; [done|]]]].
    right. split; [done|split; [done|]]. apply prefix_take.
  - rewrite (Herr eq_refl) in *. rewrite Nat.eqb_refl. cbn [negb].
    unfold Write at 1. unfold MultiWriter. cbn [fst snd].
    unfold Write at 1. unfold hasher_Writer. rewrite Nat.eqb_refl. cbn [negb].
    unfold Write at 1. unfold ProgressBar_Writer. rewrite Nat.eqb_refl. cbn [negb].
    rewrite Nat.eqb_refl.
    eexists f', _, _, (length p), None, p, []. split; [done|].
    rewrite firstn_all in Hc'. rewrite app_nil_r. cbn [written current].
    split; [done|split; [done|split; [done|split; [done|]]]]. by left.
Qed.

(** The fan-out of a whole copy, whatever its outcome: the digest has
    received a prefix [X] of the body, the counter its length, and the file
    holds [X] followed by the part [Y] of the chunk whose write failed; when
    the copy ends without error, [X] is the whole body and [Y] is empty. *)
Lemma copy_loop_inv cs : ∀ (f : os_File) (h : hasher) (bar : ProgressBar) n c fin,
  file_content f = Some c →
  ∃ f' h' bar' n' err X Y,
    copy_loop (f, (h, bar)) cs fin n = ((f', (h', bar')), n', err)
    ∧ file_content f' = Some (c ++ X ++ Y)
    ∧ written h' = written h ++ X
    ∧ current bar' = (current bar + N.of_nat (length X))%N
    ∧ same_but_file f f'
    ∧ (X ++ Y) `prefix_of` concat cs
    ∧ (err = None → X = concat cs ∧ Y = [] ∧ fin = None).
Proof.
  induction cs as [|ch cs IH]; intros f h bar n c fin Hc.
  - exists f, h, bar, n, fin, [], []. cbn [copy_loop concat app length].
    rewrite !app_nil_r, N.add_0_r. done.
  - destruct ch as [|b0 ch0]; [apply IH; done|].
    cbn [copy_loop]. remember (b0 :: ch0) as ch eqn:Hch. clear Hch. cbn [concat].
    destruct (fanout_Write_inv f h bar ch c Hc)
      as (f1 & h1 & bar1 & n1 & e1 & X1 & Y1 & -> & Hc1 & Hh1 & Hb1 & Hs1 & Hcase).
    destruct Hcase as [(-> & -> & -> & ->)|(He & -> & HY)].
    + rewrite Nat.ltb_irrefl, Nat.eqb_refl. cbn [negb]. rewrite app_nil_r in Hc1.
      destruct (IH f1 h1 bar1 (n + N.of_nat (length ch))%N (c ++ ch) fin Hc1)
        as (f' & h' & bar' & n' & err & X & Y & -> & Hc' & Hh' & Hb' & Hs' & Hpre & Herr).
      exists f', h', bar', n', err, (ch ++ X), Y. split; [done|].
      rewrite <- !app_assoc in *. rewrite Hh', Hh1, Hb', Hb1, length_app, <- !app_assoc.
      split; [done|split; [done|split; [lia|split; [by eapply same_but_file_trans|]]]].
      split; [by apply prefix_app|]. intros He. destruct (Herr He) as (-> & -> & ->). done.
    + destruct e1 as [e|]; [|done].
      assert (Hend : ∃ n' e', (let '(nw, ew) :=
                  if (length ch <? n1)%nat
                  then (0%nat, Some (default (ErrLib "invalid write result") (Some e)))
                  else (n1, Some e) in
                match ew with
                | Some e0 => ((f1, (h1, bar1)), (n + N.of_nat nw)%N, Some e0)
                | None =>
                    if negb (length ch =? nw)%nat
                    then ((f1, (h1, bar1)), (n + N.of_nat nw)%N, Some ErrShortWrite)
                    else copy_loop (f1, (h1, bar1)) cs fin (n + N.of_nat nw)
                end) = ((f1, (h1, bar1)), n', Some e')).
      { destruct (length ch <? n1)%nat; eauto. }
      destruct Hend as (n' & e' & ->).
      exists f1, h1, bar1, n', (Some e'), [], Y1. split; [done|].
      split; [done|split; [done|split; [done|split; [done|]]]].
      split; [|done]. cbn [app]. by apply prefix_app_r.
Qed.

(** ** The download: digest and comparison *)

Lemma download_verify_reaches_digest E st target resp size st1 shasum :
  archive_offered E target resp size →
  cache_file_created E st target st1 →
  final (Body resp) = None →
  (N.of_nat (length (concat (chunks (Body resp)))) <= budget st1)%N →
  digest_published E target shasum →
  let bytes := concat (chunks (Body resp)) in
  let sum := hex (sha256_Sum256 bytes) in
  ∃ st2, after_copy E target st1 bytes st2
    ∧ read_file st2 (cache_name target) = inr bytes
    ∧ download_verify E st target =
        (add_event st2 (EvHttpGet (archive_uri target +:+ ".sha256")),
         if String.eqb sum (string_of_list_byte shasum)
         then inr (cache_name target, sum)
         else inl (ErrHashMismatch sum (string_of_list_byte shasum))).
Proof.
  intros (Hreq & Hget & Hstatus & Hsize) Hcreated Hfin Hbudget (sresp & Hsget & Hsstatus & Hsread)
    bytes sum.
  destruct (os_OpenFile_ok _ _ _ _ _ Hcreated) as (Hname & Hcomps & perm & Hfs1 & Hb1 & Hl1 & Hstat1).
  set (f0 := {| f_state := st1; f_name := clean_path (cache_name target); f_now := now E |}).
  assert (Hl0 : fs (f_state f0) !! f_name f0 = Some (File perm (now E) [])).
  { subst f0. cbn [f_state f_name]. rewrite Hfs1. by rewrite lookup_insert_eq. }
  destruct (copy_loop_ok (chunks (Body resp)) f0 {| written := [] |}
              {| Total := size; current := 0 |} 0%N perm (now E) [] (final (Body resp)) Hl0)
    as [mt' Hcopy]; [done|].
  cbn [f_state f_name f_now app written current Total] in Hcopy. fold bytes in Hcopy.
  exists {| fs := <[clean_path (cache_name target) := File perm mt' bytes]> (fs st1);
            budget := budget st1 - N.of_nat (length bytes); log := log st1 |}.
  split; [by exists perm, mt'|]. split.
  - unfold read_file. destruct (String.eqb_spec (cache_name target) ""); [done|].
    cbn [fs]. destruct (clean_path (cache_name target)) as [r comps] eqn:Hp.
    match goal with |- context [stat_path ?m ?p] =>
      assert (Hst : stat_path m p = StatOk (File perm mt' bytes))
        by (by apply (stat_path_rewrite (fs st1) r comps (File perm (now E) [])))
    end.
    by rewrite Hst.
  - unfold download_verify. fold (archive_uri target). rewrite Hreq, Hget.
    replace (299 <? StatusCode resp)%Z with false by (symmetry; apply Z.ltb_ge; lia).
    rewrite Hsize. fold cache_dir. fold (cache_name target).
    unfold cache_file_created in Hcreated. 
    destruct (os_MkdirAll E (add_event st (EvHttpGet (archive_uri target))) cache_dir ModePerm)
      as [sta ea]. cbn [fst] in Hcreated.
    destruct (os_Remove sta (cache_name target)) as [stb eb]. cbn [fst] in Hcreated.
    rewrite Hcreated. unfold io_Copy. fold f0. rewrite Hcopy. cbn [fst snd f_state].
    rewrite Hfin. rewrite Hsget.
    replace (299 <? StatusCode sresp)%Z with false by (symmetry; apply Z.ltb_ge; lia).
    rewrite Hsread. unfold hasher_Sum. cbn [written]. fold sum.
    by destruct (String.eqb sum (string_of_list_byte shasum)).
Qed.

Lemma os_MkdirAll_log E st name perm : log (os_MkdirAll E st name perm).1 = log st.
Proof.
  unfold os_MkdirAll. destruct (String.eqb name ""); [done|].
  by destruct (mkdir_walk _ _ _ _ _ _).
Qed.

Lemma os_Remove_log st name : log (os_Remove st name).1 = log st.
Proof.
  unfold os_Remove. destruct (String.eqb name ""); [done|].
  destruct (clean_path name).2; [done|].
  destruct (stat_path _ _) as [[? ?|? ? ?]| |]; try done.
  by destruct (has_children _ _).
Qed.

Lemma cache_file_created_log E st target st1 :
  cache_file_created E st target st1 → log st1 = log st ++ [EvHttpGet (archive_uri target)].
Proof.
  intros H. destruct (os_OpenFile_ok _ _ _ _ _ H) as (_ & _ & perm & _ & _ & -> & _).
  by rewrite os_Remove_log, os_MkdirAll_log.
Qed.

(** C1.  When the server offers the archive, the cache file can be created, the
    body ends with [io.EOF] and the disk has room for it, [io.Copy] into the
    fan-out of the file, the SHA-256 hasher and the progress bar ends without
    error; the file then holds exactly the bytes of the body, the hasher has
    been fed the same bytes in the same order and the bar has counted each of
    them once, so the digest computed is the SHA-256 digest of the bytes in
    the file.  If moreover the published digest equals the hexadecimal form
    of that digest, the download part of [downloadGoVersion] succeeds with
    this digest and the cache file reads back as the body. *)
Theorem download_digest_of_written_bytes E st target resp size st1 :
  archive_offered E target resp size →
  cache_file_created E st target st1 →
  final (Body resp) = None →
  (N.of_nat (length (concat (chunks (Body resp)))) <= budget st1)%N →
  let bytes := concat (chunks (Body resp)) in
  let targetFile :=
    {| f_state := st1; f_name := clean_path (cache_name target); f_now := now E |} in
  (∃ f h bar,
      io_Copy (targetFile, ({| written := [] |}, {| Total := size; current := 0 |})) (Body resp)
      = ((f, (h, bar)), N.of_nat (length bytes), None)
      ∧ file_content f = Some bytes
      ∧ written h = bytes
      ∧ current bar = N.of_nat (length bytes)
      ∧ hex (hasher_Sum h) = hex (sha256_Sum256 bytes))
  ∧ ∀ shasum,
      digest_published E target shasum →
      string_of_list_byte shasum = hex (sha256_Sum256 bytes) →
      ∃ st', download_verify E st target
             = (st', inr (cache_name target, hex (sha256_Sum256 bytes)))
             ∧ read_file st' (cache_name target) = inr bytes.
Proof.
  intros Hoff Hcreated Hfin Hbudget bytes targetFile. split.
  - destruct (os_OpenFile_ok _ _ _ _ _ Hcreated) as (_ & _ & perm & Hfs1 & _ & _ & _).
    assert (Hl0 : fs (f_state targetFile) !! f_name targetFile = Some (File perm (now E) [])).
    { subst targetFile. cbn [f_state f_name]. rewrite Hfs1. by rewrite lookup_insert_eq. }
    destruct (copy_loop_ok (chunks (Body resp)) targetFile {| written := [] |}
                {| Total := size; current := 0 |} 0%N perm (now E) [] (final (Body resp)) Hl0)
      as [mt' Hcopy]; [done|].
    unfold io_Copy. rewrite Hcopy, Hfin. eexists _, _, _. split; [done|].
    unfold file_content, hasher_Sum. cbn [f_state f_name fs written current app].
    rewrite lookup_insert_eq. done.
  - intros shasum Hpub Hsum.
    destruct (download_verify_reaches_digest E st target resp size st1 shasum
                Hoff Hcreated Hfin Hbudget Hpub) as (st2 & _ & Hread & Hdv).
    fold bytes in Hread, Hdv. rewrite Hsum, String.eqb_refl in Hdv.
    eexists. split; [exact Hdv|]. done.
Qed.

(** C2.  Under the same conditions on the archive, when the published digest
    differs from the hexadecimal digest computed, [downloadGoVersion] fails
    with the mismatch error that carries the computed and the published
    value, the downloaded bytes are still in the cache file, and the log
    holds the two requests and nothing else: no extraction was started. *)
Theorem checksum_mismatch_keeps_archive E st target dest resp size st1 shasum :
  archive_offered E target resp size →
  cache_file_created E st target st1 →
  final (Body resp) = None →
  (N.of_nat (length (concat (chunks (Body resp)))) <= budget st1)%N →
  digest_published E target shasum →
  string_of_list_byte shasum ≠ hex (sha256_Sum256 (concat (chunks (Body resp)))) →
  let bytes := concat (chunks (Body resp)) in
  ∃ st',
    downloadGoVersion E st target dest
    = (st', Some (ErrHashMismatch (hex (sha256_Sum256 bytes)) (string_of_list_byte shasum)))
    ∧ read_file st' (cache_name target) = inr bytes
    ∧ log st' = log st ++ [EvHttpGet (archive_uri target);
                           EvHttpGet (archive_uri target +:+ ".sha256")].
Proof.
  intros Hoff Hcreated Hfin Hbudget Hpub Hne bytes.
  destruct (download_verify_reaches_digest E st target resp size st1 shasum
              Hoff Hcreated Hfin Hbudget Hpub) as (st2 & (perm & mt & Hst2) & Hread & Hdv).
  fold bytes in Hread, Hdv, Hst2.
  destruct (String.eqb_spec (hex (sha256_Sum256 bytes)) (string_of_list_byte shasum)) as [He|_].
  { exfalso. apply Hne. by rewrite <- He. }
  unfold downloadGoVersion. rewrite Hdv.
  eexists. split; [done|]. split.
  - done.
  - cbn [add_event log]. rewrite Hst2. cbn [log].
    rewrite (cache_file_created_log _ _ _ _ Hcreated). by rewrite <- app_assoc.
Qed.

Lemma download_digest_of_written_bytes_witness :
  let E := example_env ["a"; ""; "bc"] abc_digest [] in
  let resp := {| StatusCode := 200; ContentLength := "3"; Body := served ["a"; ""; "bc"] |} in
  let st1 := (os_OpenFile E
                (os_Remove
                   (os_MkdirAll E (add_event empty_state (EvHttpGet (archive_uri "go1.tar.gz")))
                      cache_dir ModePerm).1 (cache_name "go1.tar.gz")).1
                (cache_name "go1.tar.gz") ModePerm).1 in
  archive_offered E "go1.tar.gz" resp 3
  ∧ cache_file_created E empty_state "go1.tar.gz" st1
  ∧ final (Body resp) = None
  ∧ (N.of_nat (length (concat (chunks (Body resp)))) <= budget st1)%N
  ∧ digest_published E "go1.tar.gz" (list_byte_of_string abc_digest)
  ∧ ∃ st', download_verify E empty_state "go1.tar.gz"
           = (st', inr ("cache/downloads/go1.tar.gz", abc_digest))
           ∧ read_file st' "cache/downloads/go1.tar.gz" = inr (list_byte_of_string "abc").
Proof.
  intros E resp st1.
  assert (H1 : archive_offered E "go1.tar.gz" resp 3).
  { repeat split; try reflexivity. vm_compute. discriminate. }
  assert (H2 : cache_file_created E empty_state "go1.tar.gz" st1) by (vm_compute; reflexivity).
  assert (H3 : final (Body resp) = None) by reflexivity.
  assert (H4 : (N.of_nat (length (concat (chunks (Body resp)))) <= budget st1)%N)
    by (vm_compute; discriminate).
  assert (H5 : digest_published E "go1.tar.gz" (list_byte_of_string abc_digest)).
  { eexists. split; [vm_compute; reflexivity|]. split; [vm_compute; discriminate|reflexivity]. }
  split; [exact H1|]. split; [exact H2|]. split; [exact H3|]. split; [exact H4|].
  split; [exact H5|].
  destruct (download_digest_of_written_bytes E empty_state "go1.tar.gz" resp 3 st1 H1 H2 H3 H4)
    as [_ H].
  apply (H (list_byte_of_string abc_digest) H5). vm_compute. reflexivity.
Defined.

Lemma checksum_mismatch_keeps_archive_witness :
  let E := example_env ["a"; ""; "bc"] abc_digest_altered [] in
  let resp := {| StatusCode := 200; ContentLength := "3"; Body := served ["a"; ""; "bc"] |} in
  let st1 := (os_OpenFile E
                (os_Remove
                   (os_MkdirAll E (add_event empty_state (EvHttpGet (archive_uri "go1.tar.gz")))
                      cache_dir ModePerm).1 (cache_name "go1.tar.gz")).1
                (cache_name "go1.tar.gz") ModePerm).1 in
  archive_offered E "go1.tar.gz" resp 3
  ∧ cache_file_created E empty_state "go1.tar.gz" st1
  ∧ final (Body resp) = None
  ∧ (N.of_nat (length (concat (chunks (Body resp)))) <= budget st1)%N
  ∧ digest_published E "go1.tar.gz" (list_byte_of_string abc_digest_altered)
  ∧ string_of_list_byte (list_byte_of_string abc_digest_altered)
    ≠ hex (sha256_Sum256 (concat (chunks (Body resp))))
  ∧ ∃ st', downloadGoVersion E empty_state "go1.tar.gz" "/dest"
           = (st', Some (ErrHashMismatch abc_digest abc_digest_altered))
           ∧ read_file st' "cache/downloads/go1.tar.gz" = inr (list_byte_of_string "abc")
           ∧ log st' = [EvHttpGet "https://dl.google.com/go/go1.tar.gz";
                        EvHttpGet "https://dl.google.com/go/go1.tar.gz.sha256"].
Proof.
  intros E resp st1.
  assert (H1 : archive_offered E "go1.tar.gz" resp 3).
  { repeat split; try reflexivity. vm_compute. discriminate. }
  assert (H2 : cache_file_created E empty_state "go1.tar.gz" st1) by (vm_compute; reflexivity).
  assert (H3 : final (Body resp) = None) by reflexivity.
  assert (H4 : (N.of_nat (length (concat (chunks (Body resp)))) <= budget st1)%N)
    by (vm_compute; discriminate).
  assert (H5 : digest_published E "go1.tar.gz" (list_byte_of_string abc_digest_altered)).
  { eexists. split; [vm_compute; reflexivity|]. split; [vm_compute; discriminate|reflexivity]. }
  assert (H6 : string_of_list_byte (list_byte_of_string abc_digest_altered)
               ≠ hex (sha256_Sum256 (concat (chunks (Body resp)))))
    by (vm_compute; discriminate).
  split; [exact H1|]. split; [exact H2|]. split; [exact H3|]. split; [exact H4|].
  split; [exact H5|]. split; [exact H6|].
  exact (checksum_mismatch_keeps_archive E empty_state "go1.tar.gz" "/dest" resp 3 st1
           (list_byte_of_string abc_digest_altered) H1 H2 H3 H4 H5 H6).
Defined.

(** ** What a failed download leaves alone *)

Lemma cache_only_refl target st : cache_only target st st.
Proof. split; [done|]. intros ev Hev. by left. Qed.

Lemma cache_only_trans target st1 st2 st3 :
  cache_only target st1 st2 → cache_only target st2 st3 → cache_only target st1 st3.
Proof.
  intros [Hf1 Hl1] [Hf2 Hl2]. split.
  - intros q Hq. rewrite Hf2 by done. by apply Hf1.
  - intros ev Hev. destruct (Hl2 ev Hev) as [H|H]; [by apply Hl1|by right].
Qed.

Lemma cache_only_event target st url : cache_only target st (add_event st (EvHttpGet url)).
Proof.
  split; [done|]. cbn [add_event log]. intros ev [H| ->%list_elem_of_singleton]%elem_of_app;
    [by left|right; eauto].
Qed.

Lemma mkdir_walk_frame now perm r : ∀ rest acc m q,
  (∀ k, (0 < k ≤ length rest)%nat → q ≠ (r, rev acc ++ take k rest)) →
  (mkdir_walk now perm m r acc rest).1 !! q = m !! q.
Proof.
  induction rest as [|c rest IH]; intros acc m q Hq; [done|]. cbn [mkdir_walk].
  assert (Hq1 : q ≠ (r, rev (c :: acc))).
  { specialize (Hq 1%nat). cbn [length take rev] in *. apply Hq. lia. }
  assert (Hq' : ∀ k, (0 < k ≤ length rest)%nat → q ≠ (r, rev (c :: acc) ++ take k rest)).
  { intros k Hk. specialize (Hq (S k)). cbn [length take rev] in *.
    rewrite <- app_assoc. apply Hq. lia. }
  destruct (m !! (r, rev (c :: acc))) as [[? ?|? ? ?]|] eqn:Hl.
  - by apply IH.
  - done.
  - rewrite IH by done. by rewrite lookup_insert_ne.
Qed.

Lemma os_MkdirAll_cache_only E target st :
  cache_only target st (os_MkdirAll E st cache_dir ModePerm).1.
Proof.
  split; [|by rewrite os_MkdirAll_log; left].
  intros q Hq. unfold os_MkdirAll.
  change (String.eqb cache_dir "") with false. cbv iota.
  change (clean_path cache_dir) with (false, ["cache"; "downloads"]). cbn [fst snd].
  pose proof (mkdir_walk_frame (now E) ModePerm false ["cache"; "downloads"] [] (fs st) q) as H.
  destruct (mkdir_walk _ _ _ _ _ _) as [m err]. cbn [fst fs set_fs] in *. apply H.
  intros k Hk. cbn [length] in Hk. unfold cache_paths in Hq.
  destruct k as [|[|[|k]]]; [lia| | |lia]; cbn [rev take app]; set_solver.
Qed.

Lemma os_Remove_cache_only target st :
  cache_only target st (os_Remove st (cache_name target)).1.
Proof.
  split; [|by rewrite os_Remove_log; left].
  intros q Hq.
  assert (Hne : q ≠ clean_path (cache_name target)) by (unfold cache_paths in Hq; set_solver).
  unfold os_Remove. destruct (String.eqb (cache_name target) ""); [done|].
  destruct (clean_path (cache_name target)).2; [done|].
  destruct (stat_path _ _) as [[? ?|? ? ?]| |]; try done.
  - destruct (has_children _ _); [done|]. cbn [fst set_fs fs]. by rewrite lookup_delete_ne.
  - cbn [fst set_fs fs]. by rewrite lookup_delete_ne.
Qed.

Lemma os_OpenFile_cache_only E target st :
  cache_only target st (os_OpenFile E st (cache_name target) ModePerm).1.
Proof.
  assert (Hfr : ∀ q, q ∉ cache_paths target → q ≠ clean_path (cache_name target))
    by (intros q Hq; unfold cache_paths in Hq; set_solver).
  unfold os_OpenFile. destruct (String.eqb (cache_name target) ""); [apply cache_only_refl|].
  destruct (stat_path _ _) as [[? ?|? ? ?]| |]; try apply cache_only_refl.
  - split; [|by left]. intros q Hq. cbn [fst set_fs fs]. rewrite lookup_insert_ne; [done|].
    intros <-. by apply (Hfr _ Hq).
  - destruct (stat_path _ _) as [[? ?|? ? ?]| |]; try apply cache_only_refl.
    split; [|by left]. intros q Hq. cbn [fst set_fs fs]. rewrite lookup_insert_ne; [done|].
    intros <-. by apply (Hfr _ Hq).
Qed.

Lemma same_but_file_cache_only target (f f' : os_File) :
  f_name f = clean_path (cache_name target) →
  same_but_file f f' → cache_only target (f_state f) (f_state f').
Proof.
  intros Hname (_ & _ & Hlog & Hfs). split.
  - intros q Hq. apply Hfs. rewrite Hname. unfold cache_paths in Hq. set_solver.
  - intros ev Hev. left. by rewrite <- Hlog.
Qed.

(** Whatever its outcome, the fetch stays within the cache. *)
Lemma download_verify_cache_only E st target st' r :
  download_verify E st target = (st', r) → cache_only target st st'.
Proof.
  unfold download_verify. fold (archive_uri target). fold cache_dir. fold (cache_name target).
  destruct (new_request E (archive_uri target)); [intros [= <- <-]; apply cache_only_refl|].
  pose proof (cache_only_event target st (archive_uri target)) as Ha.
  set (sa := add_event st (EvHttpGet (archive_uri target))) in *.
  destruct (http_get E (archive_uri target)) as [e|resp]; [by intros [= <- <-]|].
  destruct (299 <? StatusCode resp)%Z; [by intros [= <- <-]|].
  destruct (strconv_Atoi (ContentLength resp)) as [size|]; [|by intros [= <- <-]].
  pose proof (os_MkdirAll_cache_only E target sa) as Hb.
  destruct (os_MkdirAll E sa cache_dir ModePerm) as [sb eb]. cbn [fst] in Hb.
  pose proof (os_Remove_cache_only target sb) as Hc.
  destruct (os_Remove sb (cache_name target)) as [sc ec]. cbn [fst] in Hc.
  pose proof (os_OpenFile_cache_only E target sc) as Hd.
  destruct (os_OpenFile E sc (cache_name target) ModePerm) as [sd [e|]] eqn:Hopen; cbn [fst] in Hd.
  { intros [= <- <-]. eauto using cache_only_trans. }
  destruct (os_OpenFile_ok _ _ _ _ _ Hopen) as (_ & _ & perm & Hfs & _ & _ & _).
  set (f0 := {| f_state := sd; f_name := clean_path (cache_name target); f_now := now E |}).
  assert (Hc0 : file_content f0 = Some []).
  { unfold file_content, f0. cbn [f_state f_name]. rewrite Hfs. by rewrite lookup_insert_eq. }
  unfold io_Copy.
  destruct (copy_loop_inv (chunks (Body resp)) f0 {| written := [] |}
              {| Total := size; current := 0 |} 0%N [] (final (Body resp)) Hc0)
    as (f' & h' & bar' & n' & err & X & Y & -> & _ & _ & _ & Hsame & _ & _).
  cbn [fst snd].
  pose proof (same_but_file_cache_only target f0 f' eq_refl Hsame) as He. cbn [f_state] in He.
  assert (Hse : cache_only target st (f_state f')) by eauto using cache_only_trans.
  destruct err as [e|]; [by intros [= <- <-]|].
  pose proof (cache_only_event target (f_state f') (archive_uri target +:+ ".sha256")) as Hf.
  assert (Hsf : cache_only target st
                  (add_event (f_state f') (EvHttpGet (archive_uri target +:+ ".sha256"))))
    by eauto using cache_only_trans.
  destruct (http_get E (archive_uri target +:+ ".sha256")) as [e|sresp]; [by intros [= <- <-]|].
  destruct (299 <? StatusCode sresp)%Z; [by intros [= <- <-]|].
  destruct (ioutil_ReadAll (Body sresp)) as [shasum [e|]]; [by intros [= <- <-]|].
  destruct (negb _); by intros [= <- <-].
Qed.

(** C10, amended.  When the download fails before the digests have been found
    equal, and no path of the cache (cache, cache/downloads, the cache file)
    lies at or below the destination, [downloadGoVersion] returns that
    error, every path at or below the destination is as before, and no
    extraction has been started. *)
Theorem failed_download_leaves_destination E st target dest st' e :
  download_verify E st target = (st', inl e) →
  (∀ q, q ∈ cache_paths target → ¬ under (clean_path dest) q) →
  downloadGoVersion E st target dest = (st', Some e)
  ∧ (∀ q, under (clean_path dest) q → fs st' !! q = fs st !! q)
  ∧ (∀ src d, EvExtract src d ∈ log st' → EvExtract src d ∈ log st).
Proof.
  intros Hdv Hdisj. destruct (download_verify_cache_only _ _ _ _ _ Hdv) as [Hfs Hlog].
  split; [|split].
  - unfold downloadGoVersion. by rewrite Hdv.
  - intros q Hq. apply Hfs. intros Hin. by apply (Hdisj q Hin).
  - intros src d Hev. destruct (Hlog _ Hev) as [H|[url H]]; [done|done].
Qed.

Lemma failed_download_leaves_destination_witness :
  let E := example_env ["a"; ""; "bc"] abc_digest_altered [] in
  let st' := (download_verify E installed_state "go1.tar.gz").1 in
  let e := ErrHashMismatch abc_digest abc_digest_altered in
  download_verify E installed_state "go1.tar.gz" = (st', inl e)
  ∧ (∀ q, q ∈ cache_paths "go1.tar.gz" → ¬ under (clean_path "/dest") q)
  ∧ downloadGoVersion E installed_state "go1.tar.gz" "/dest" = (st', Some e)
  ∧ fs st' !! (true, ["dest"]) = Some (Dir 493 10)
  ∧ fs st' !! (true, ["dest"; "VERSION"]) = Some (File 420 10 (list_byte_of_string "go1")).
Proof.
  intros E st' e.
  assert (H1 : download_verify E installed_state "go1.tar.gz" = (st', inl e))
    by (vm_compute; reflexivity).
  assert (H2 : ∀ q, q ∈ cache_paths "go1.tar.gz" → ¬ under (clean_path "/dest") q).
  { intros q Hq [Hr _]. apply list_elem_of_In in Hq. simpl in Hq.
    destruct Hq as [<- | [<- | [<- | []]]]; vm_compute in Hr; discriminate. }
  destruct (failed_download_leaves_destination E installed_state "go1.tar.gz" "/dest" st' e H1 H2)
    as (Ha & Hb & _).
  split; [exact H1|]. split; [exact H2|]. split; [exact Ha|]. split.
  - rewrite Hb; [reflexivity|]. split; [reflexivity|]. reflexivity.
  - rewrite Hb; [reflexivity|]. split; [reflexivity|]. by apply prefix_cons, prefix_nil.
Defined.

(** C10, as stated, fails: with the destination cache/downloads, which does
    not exist before, a download that ends in a digest mismatch has created
    the destination and has written the archive into it. *)
Lemma failed_download_creates_overlapping_destination :
  let E := example_env ["a"; ""; "bc"] abc_digest_altered [] in
  os_Stat empty_state "cache/downloads" = StatNotExist
  ∧ (downloadGoVersion E empty_state "go1.tar.gz" "cache/downloads").2
    = Some (ErrHashMismatch abc_digest abc_digest_altered)
  ∧ os_Stat (downloadGoVersion E empty_state "go1.tar.gz" "cache/downloads").1 "cache/downloads"
    = StatOk (Dir 511 1000)
  ∧ read_file (downloadGoVersion E empty_state "go1.tar.gz" "cache/downloads").1
      "cache/downloads/go1.tar.gz" = inr (list_byte_of_string "abc").
Proof. vm_compute. done. Qed.

(** ** Archives without entries *)

(** C9, amended.  When the archive, as read after the removal of the
    destination, decodes to no entries, the extraction succeeds and its
    only effects are the removal and the log entry; for a destination that
    is not empty and does not end in a dot, nothing exists at or below the
    destination afterwards: it is not created. *)
Theorem empty_archive_leaves_no_destination E st targetName dest bytes :
  read_file (os_RemoveAll st dest).1 targetName = inr bytes →
  empty_archive E bytes →
  extract_verified E st targetName dest
  = (add_event (os_RemoveAll st dest).1 (EvExtract targetName dest), None)
  ∧ (dest ≠ "" → endsWithDot dest = false →
     ∀ q, under (clean_path dest) q → fs (extract_verified E st targetName dest).1 !! q = None).
Proof.
  intros Hread Hempty.
  assert (Hex : extract_verified E st targetName dest
                = (add_event (os_RemoveAll st dest).1 (EvExtract targetName dest), None)).
  { unfold extract_verified. destruct (os_RemoveAll st dest) as [st1 e1]. cbn [fst] in *.
    unfold empty_archive in Hempty. destruct (windows E).
    - unfold unpackZip. 
      change (read_file (add_event st1 (EvExtract targetName dest)) targetName)
        with (read_file st1 targetName).
      rewrite Hread, Hempty. done.
    - unfold unpackTar.
      change (read_file (add_event st1 (EvExtract targetName dest)) targetName)
        with (read_file st1 targetName).
      rewrite Hread, Hempty. done. }
  split; [done|]. intros Hne Hdot q Hq. rewrite Hex. cbn [fst add_event fs].
  unfold os_RemoveAll. destruct (String.eqb_spec dest ""); [done|]. rewrite Hdot.
  cbn [fst set_fs fs]. apply map_lookup_filter_None. right. intros x _. cbn [fst]. tauto.
Qed.

Lemma empty_archive_leaves_no_destination_witness :
  let E := example_env ["a"; ""; "bc"] abc_digest [] in
  let st := (download_verify E installed_state "go1.tar.gz").1 in
  read_file (os_RemoveAll st "/dest").1 "cache/downloads/go1.tar.gz"
  = inr (list_byte_of_string "abc")
  ∧ empty_archive E (list_byte_of_string "abc")
  ∧ (extract_verified E st "cache/downloads/go1.tar.gz" "/dest").2 = None
  ∧ fs (extract_verified E st "cache/downloads/go1.tar.gz" "/dest").1 !! (true, ["dest"]) = None.
Proof.
  intros E st.
  assert (H1 : read_file (os_RemoveAll st "/dest").1 "cache/downloads/go1.tar.gz"
               = inr (list_byte_of_string "abc")) by (vm_compute; reflexivity).
  assert (H2 : empty_archive E (list_byte_of_string "abc")) by reflexivity.
  destruct (empty_archive_leaves_no_destination E st "cache/downloads/go1.tar.gz" "/dest"
              (list_byte_of_string "abc") H1 H2) as [Hex Hno].
  split; [exact H1|]. split; [exact H2|]. split; [by rewrite Hex|].
  apply Hno; [done|reflexivity|]. split; [reflexivity|]. apply prefix_cons, prefix_nil.
Defined.

(** C9, as stated, fails: after the successful installation of an archive
    without entries, the destination that existed before does not exist. *)
Lemma empty_archive_destination_missing :
  let E := example_env ["a"; ""; "bc"] abc_digest [] in
  os_Stat installed_state "/dest" = StatOk (Dir 493 10)
  ∧ (downloadGoVersion E installed_state "go1.tar.gz" "/dest").2 = None
  ∧ os_Stat (downloadGoVersion E installed_state "go1.tar.gz" "/dest").1 "/dest" = StatNotExist.
Proof. vm_compute. done. Qed.

(** ** The cache of the listing *)

Lemma time_Sub_fresh t u : (time_Sub t u <? Hour * 72)%Z = true ↔ (t - u < 72 * Hour)%Z.
Proof. rewrite Z.ltb_lt. unfold time_Sub, maxDuration, minDuration, Hour. lia. Qed.

Lemma time_Sub_stale t u : (time_Sub t u <? Hour * 72)%Z = false ↔ (72 * Hour <= t - u)%Z.
Proof. rewrite Z.ltb_ge. unfold time_Sub, maxDuration, minDuration, Hour. lia. Qed.

Lemma os_OpenFile_log E st name perm : log (os_OpenFile E st name perm).1 = log st.
Proof.
  unfold os_OpenFile. destruct (String.eqb name ""); [done|].
  destruct (stat_path (fs st) (clean_path name)) as [[?|? ? ?]| |]; try done.
  destruct (stat_path (fs st) (parent (clean_path name))) as [[?|? ? ?]| |]; done.
Qed.

Lemma file_Write_log f p : log (f_state (file_Write f p).1.1) = log (f_state f).
Proof.
  unfold file_Write. destruct (fs (f_state f) !! f_name f) as [[?|? ? ?]|]; done.
Qed.

Lemma ioutil_WriteFile_log E st name data perm :
  log (ioutil_WriteFile E st name data perm).1 = log st.
Proof.
  unfold ioutil_WriteFile. pose proof (os_OpenFile_log E st name perm) as Ho.
  destruct (os_OpenFile E st name perm) as [st1 [e|]]; [done|]. cbn [fst] in Ho.
  change (@Write os_File _) with file_Write.
  match goal with |- context [file_Write ?f data] =>
    pose proof (file_Write_log f data) as Hw; destruct (file_Write f data) as [[f' n] err] end.
  cbn [fst f_state] in Hw.
  destruct err; [|destruct (n <? length data)%nat]; cbn [fst]; congruence.
Qed.

Lemma ioutil_WriteFile_ok E st name data perm st' :
  ioutil_WriteFile E st name data perm = (st', None) → ioutil_ReadFile st' name = inr data.
Proof.
  unfold ioutil_WriteFile. destruct (os_OpenFile E st name perm) as [st1 [e|]] eqn:Ho; [done|].
  apply os_OpenFile_ok in Ho as (Hne & Hcomp & perm' & Hfs & Hb & Hl & Hstat).
  change (@Write os_File _) with file_Write. unfold file_Write. cbn [f_state f_name f_now].
  assert (Hlook : fs st1 !! clean_path name = Some (File perm' (now E) [])).
  { rewrite Hfs. apply lookup_insert_eq. }
  rewrite Hlook.
  destruct (N.leb_spec (N.of_nat (length data)) (budget st1)) as [Hle|Hgt].
  - rewrite Nat.ltb_irrefl. intros [= <-]. unfold ioutil_ReadFile, read_file. cbn [fs].
    destruct (String.eqb_spec name ""); [done|].
    destruct (clean_path name) as [r comps] eqn:Hp. cbn [snd] in Hcomp.
    rewrite (stat_path_rewrite _ _ _ _ _ Hcomp Hstat). by rewrite firstn_all.
  - destruct (N.to_nat (budget st1) <? length data)%nat eqn:Hlt; [done|].
    apply Nat.ltb_ge in Hlt. lia.
Qed.

(** C7.  When the cache file of the listing exists and is younger than 72
    hours, [getAllGoVersion] leaves the machine as it is (no request is
    made) and the result is computed from the file; when the file is missing
    or is 72 hours old or older, one request for the listing is made, and
    when it is answered and stored the result is computed from the answer
    and the cache file holds the answer.  A file of 71 hours is read, a file
    of 73 hours is replaced. *)
Theorem listing_cache_freshness E st :
  (cache_fresh E st →
     (getAllGoVersion E st).1 = st
     ∧ ∀ b, ioutil_ReadFile st version_cache = inr b →
            getAllGoVersion E st = (st, Ok (sorted_versions b)))
  ∧ (cache_stale E st →
     log (getAllGoVersion E st).1 = log st ++ [EvHttpGet DefaultSourceURL]
     ∧ ∀ resp b,
         http_get E DefaultSourceURL = HttpResponse resp →
         (StatusCode resp <= 299)%Z →
         ioutil_ReadAll (Body resp) = (b, None) →
         (ioutil_WriteFile E (add_event st (EvHttpGet DefaultSourceURL))
            version_cache b ModePerm).2 = None →
         ∃ st', getAllGoVersion E st = (st', Ok (sorted_versions b))
                ∧ ioutil_ReadFile st' version_cache = inr b)
  ∧ getAllGoVersion (listing_env (72 * Hour) ["1234 refs/tags/go1.3"])
      (cached_state Hour ("1234 refs/tags/go1.1" +:+ newline +:+ "1234 refs/tags/go1.2"))
    = (cached_state Hour ("1234 refs/tags/go1.1" +:+ newline +:+ "1234 refs/tags/go1.2"),
       Ok ["1.2"; "1.1"])
  ∧ (let r := getAllGoVersion (listing_env (73 * Hour) ["1234 refs/tags/go1.3"])
                (cached_state 0 ("1234 refs/tags/go1.1" +:+ newline +:+ "1234 refs/tags/go1.2")) in
     r.2 = Ok ["1.3"] ∧ log r.1 = [EvHttpGet DefaultSourceURL]
     ∧ ioutil_ReadFile r.1 version_cache = inr (list_byte_of_string "1234 refs/tags/go1.3")).
Proof.
  split; [|split; [|split]].
  - intros (fi & Hstat & Hage). unfold getAllGoVersion, load_listing.
    fold version_cache. rewrite Hstat. rewrite (proj2 (time_Sub_fresh _ _) Hage).
    split.
    + by destruct (ioutil_ReadFile st version_cache).
    + intros b Hb. by rewrite Hb.
  - intros Hstale.
    assert (Hload : load_listing E st = remote_listing E st version_cache).
    { unfold load_listing. fold version_cache.
      destruct Hstale as [Hstat | (fi & Hstat & Hage)]; rewrite Hstat; [done|].
      by rewrite (proj2 (time_Sub_stale _ _) Hage). }
    unfold getAllGoVersion. rewrite Hload. unfold remote_listing, getRemoteVersion.
    split.
    + destruct (http_get E DefaultSourceURL) as [e|resp]; [done|].
      destruct (299 <? StatusCode resp)%Z; [done|].
      destruct (ioutil_ReadAll (Body resp)) as [b [e|]]; [done|].
      pose proof (ioutil_WriteFile_log E (add_event st (EvHttpGet DefaultSourceURL))
                    version_cache b ModePerm) as Hlog.
      destruct (ioutil_WriteFile E (add_event st (EvHttpGet DefaultSourceURL))
                  version_cache b ModePerm) as [st1 [e|]]; exact Hlog.
    + intros resp b Hget Hstatus Hread Hwrite. rewrite Hget.
      replace (299 <? StatusCode resp)%Z with false by (symmetry; apply Z.ltb_ge; lia).
      rewrite Hread.
      destruct (ioutil_WriteFile E (add_event st (EvHttpGet DefaultSourceURL))
                  version_cache b ModePerm) as [st1 oe] eqn:Hw.
      cbn [snd] in Hwrite. subst oe. exists st1. split; [done|].
      by apply (ioutil_WriteFile_ok _ _ _ _ _ _ Hw).
  - vm_compute. reflexivity.
  - vm_compute. done.
Qed.

(** ** Names of archive entries; keys that collide or tie *)

Lemma strip_root_prefixed rest : strip_root ("go/" +:+ rest) = rest.
Proof. unfold strip_root, strings_HasPrefix. cbn. destruct rest; reflexivity. Qed.

Lemma strip_root_other name : strings_HasPrefix name "go/" = false → strip_root name = name.
Proof. unfold strip_root. by intros ->. Qed.

(** C8.  For an entry named go/rest, [unpack] works on the path that joins the
    destination with rest; for an entry whose name does not start with go/,
    on the path that joins the destination with the whole name.  So
    go/bin/tool and go/README go to /dest/bin/tool and /dest/README, and only
    one leading go/ is cut off. *)
Theorem unpack_strips_root E st dest fi :
  (∀ rest, unpack E st dest ("go/" +:+ rest) fi = unpack_at E st (filepath_Join [dest; rest]) fi)
  ∧ (∀ name, strings_HasPrefix name "go/" = false →
       unpack E st dest name fi = unpack_at E st (filepath_Join [dest; name]) fi)
  ∧ filepath_Join ["/dest"; strip_root "go/bin/tool"] = "/dest/bin/tool"
  ∧ filepath_Join ["/dest"; strip_root "go/README"] = "/dest/README"
  ∧ filepath_Join ["/dest"; strip_root "go/go/doc"] = "/dest/go/doc"
  ∧ filepath_Join ["/dest"; strip_root "misc/go/tool"] = "/dest/misc/go/tool".
Proof.
  split; [|split].
  - intros rest. unfold unpack. by rewrite strip_root_prefixed.
  - intros name Hname. unfold unpack. by rewrite strip_root_other.
  - vm_compute. done.
Qed.

(** An archive with the entries go/, go/bin/, go/bin/tool and go/README is
    installed into /dest: the files are /dest/bin/tool and /dest/README,
    there is no /dest/go, and the earlier content of /dest is gone. *)
Lemma go_archive_installed :
  let E := example_env ["a"; ""; "bc"] abc_digest go_entries in
  let r := downloadGoVersion E installed_state "go1.tar.gz" "/dest" in
  r.2 = None
  ∧ read_file r.1 "/dest/bin/tool" = inr (list_byte_of_string "#!tool")
  ∧ read_file r.1 "/dest/README" = inr (list_byte_of_string "read me")
  ∧ os_Stat r.1 "/dest/go" = StatNotExist
  ∧ os_Stat r.1 "/dest/VERSION" = StatNotExist
  ∧ log r.1 = [EvHttpGet "https://dl.google.com/go/go1.tar.gz";
               EvHttpGet "https://dl.google.com/go/go1.tar.gz.sha256";
               EvExtract "cache/downloads/go1.tar.gz" "/dest"].
Proof. vm_compute. done. Qed.

(** C5.  The tags 1.2 and 1.2.0 have the same sort key 1.2.0; the listing that
    retains both of them returns 1.2.0 twice and 1.2 not at all, because the
    map from keys to tags keeps the last tag of each key. *)
Theorem colliding_keys_repeat_one_tag :
  retained_tags (listing_of ["1.2"; "1.2.0"]) = ["1.2"; "1.2.0"]
  ∧ normalize "1.2" = "1.2.0" ∧ normalize "1.2.0" = "1.2.0"
  ∧ sorted_versions (listing_of ["1.2"; "1.2.0"]) = ["1.2.0"; "1.2.0"]
  ∧ (let st := cached_state Hour ("1234 refs/tags/go1.2" +:+ newline +:+ "1234 refs/tags/go1.2.0") in
     getAllGoVersion (listing_env (2 * Hour) []) st = (st, Ok ["1.2.0"; "1.2.0"])).
Proof. vm_compute. done. Qed.

Lemma sort_pair_swaps {A} (less : A → A → bool) x y :
  less y x = true → sort_SliceStable less [x; y] = [y; x].
Proof.
  intros H. unfold sort_SliceStable, stable_func. cbn. unfold Less. cbn. by rewrite H.
Qed.

(** C6.  Two keys that compare equal are put in the opposite order by the
    sort, since [less] is the non-strict [GE]: the tags 1.2.0+a and 1.2.0+b,
    whose keys both parse and compare equal, come back as 1.2.0+b, 1.2.0+a,
    and three tags whose keys do not parse come back reversed. *)
Theorem equal_versions_are_reversed :
  (∀ x y, Version_Compare (version_of x) (version_of y) = 0%Z →
          sort_SliceStable version_less [x; y] = [y; x])
  ∧ retained_tags (listing_of ["1.2.0+a"; "1.2.0+b"]) = ["1.2.0+a"; "1.2.0+b"]
  ∧ normalize "1.2.0+a" = "1.2.0+a" ∧ normalize "1.2.0+b" = "1.2.0+b"
  ∧ is_Some (semver_Make "1.2.0+a") ∧ is_Some (semver_Make "1.2.0+b")
  ∧ Version_Compare (version_of "1.2.0+a") (version_of "1.2.0+b") = 0%Z
  ∧ sorted_versions (listing_of ["1.2.0+a"; "1.2.0+b"]) = ["1.2.0+b"; "1.2.0+a"]
  ∧ sorted_versions (listing_of ["1.2.3.4"; "1.2.3.5"; "1.2.3.6"]) = ["1.2.3.6"; "1.2.3.5"; "1.2.3.4"].
Proof.
  split.
  - intros x y Hxy. apply sort_pair_swaps. unfold version_less, Version_GE.
    rewrite (cmp_antisym _ good_Version_Compare), Hxy. reflexivity.
  - vm_compute. repeat split; eauto.
Qed.

(** ** Further properties *)

Lemma tag_of_key_normalize tags t :
  (∀ t1 t2, t1 ∈ tags → t2 ∈ tags → normalize t1 = normalize t2 → t1 = t2) →
  t ∈ tags → tag_of_key tags (normalize t) = t.
Proof.
  intros Hinj Ht. unfold tag_of_key.
  destruct (filter (λ t0, normalize t0 = normalize t) tags) as [|t' l] eqn:Hf.
  - assert (t ∈ filter (λ t0, normalize t0 = normalize t) tags)
      by (by apply list_elem_of_filter). rewrite Hf in H. by apply elem_of_nil in H.
  - assert (Ht' : t' ∈ filter (λ t0, normalize t0 = normalize t) tags)
      by (rewrite Hf; left).
    apply list_elem_of_filter in Ht' as [Heq Hin]. simpl. by apply Hinj.
Qed.

Lemma map_tag_of_key tags l :
  (∀ t1 t2, t1 ∈ tags → t2 ∈ tags → normalize t1 = normalize t2 → t1 = t2) →
  (∀ t, t ∈ l → t ∈ tags) → map (tag_of_key tags) (map normalize l) = l.
Proof.
  intros Hinj. induction l as [|t l IH]; intros Hl; [done|]. simpl.
  rewrite tag_of_key_normalize by (auto; apply Hl; left). f_equal.
  apply IH. intros t' Ht'. apply Hl. by right.
Qed.

(** When no two retained tags share a key, the result holds each retained
    tag exactly as often as the listing does. *)
Theorem distinct_keys_return_every_tag (b : list byte) :
  (∀ t1 t2, t1 ∈ retained_tags b → t2 ∈ retained_tags b →
            normalize t1 = normalize t2 → t1 = t2) →
  sorted_versions b ≡ₚ retained_tags b.
Proof.
  intros Hinj. destruct (sorted_versions_keys b) as [Hkeys Hin].
  destruct (sort_SliceStable_sorts version_less version_less_total version_less_trans
              (map normalize (retained_tags b))) as [Hperm _].
  rewrite <- Hkeys in Hperm.
  rewrite <- (map_tag_of_key (retained_tags b) (sorted_versions b) Hinj Hin).
  rewrite <- (map_tag_of_key (retained_tags b) (retained_tags b) Hinj (λ t H, H)) at 2.
  by apply Permutation_map.
Qed.

Lemma distinct_keys_return_every_tag_witness :
  (∀ t1 t2, t1 ∈ retained_tags (listing_of ["1.2.3"; "1.10.0"]) →
            t2 ∈ retained_tags (listing_of ["1.2.3"; "1.10.0"]) →
            normalize t1 = normalize t2 → t1 = t2)
  ∧ sorted_versions (listing_of ["1.2.3"; "1.10.0"])
    ≡ₚ retained_tags (listing_of ["1.2.3"; "1.10.0"]).
Proof.
  assert (H : ∀ t1 t2, t1 ∈ retained_tags (listing_of ["1.2.3"; "1.10.0"]) →
                       t2 ∈ retained_tags (listing_of ["1.2.3"; "1.10.0"]) →
                       normalize t1 = normalize t2 → t1 = t2).
  { change (retained_tags (listing_of ["1.2.3"; "1.10.0"])) with ["1.2.3"; "1.10.0"].
    intros t1 t2 H1 H2. apply list_elem_of_In in H1, H2. simpl in H1, H2.
    destruct H1 as [<- | [<- | []]], H2 as [<- | [<- | []]]; vm_compute; congruence. }
  split; [exact H|]. exact (distinct_keys_return_every_tag _ H).
Defined.

(** Whatever the copy ends with, the digest and the counter have received
    the same bytes, in order, and the file holds these bytes followed by
    at most a part of the chunk at which a write failed. *)
Theorem fan_out_keeps_sinks_aligned (f : os_File) (h : hasher) (bar : ProgressBar)
    (src : reader) (c : list byte) :
  file_content f = Some c →
  ∃ f' h' bar' n err X Y,
    io_Copy (f, (h, bar)) src = ((f', (h', bar')), n, err)
    ∧ file_content f' = Some (c ++ X ++ Y)
    ∧ written h' = written h ++ X
    ∧ current bar' = (current bar + N.of_nat (length X))%N
    ∧ (X ++ Y) `prefix_of` concat (chunks src)
    ∧ (err = None → X = concat (chunks src) ∧ Y = [] ∧ final src = None).
Proof.
  intros Hc. unfold io_Copy.
  destruct (copy_loop_inv (chunks src) f h bar 0 c (final src) Hc)
    as (f' & h' & bar' & n' & err & X & Y & Hcopy & Hf & Hh & Hb & _ & Hp & He).
  exists f', h', bar', n', err, X, Y. done.
Qed.

Lemma fan_out_keeps_sinks_aligned_witness :
  file_content small_disk_file = Some []
  ∧ ∃ f' h' bar' n err X Y,
      io_Copy (small_disk_file, ({| written := [] |}, {| Total := 3; current := 0 |}))
        (served ["a"; ""; "bcd"]) = ((f', (h', bar')), n, err)
      ∧ file_content f' = Some ([] ++ X ++ Y)
      ∧ written h' = [] ++ X
      ∧ current bar' = (0 + N.of_nat (length X))%N
      ∧ (X ++ Y) `prefix_of` concat (chunks (served ["a"; ""; "bcd"]))
      ∧ (err = None → X = concat (chunks (served ["a"; ""; "bcd"])) ∧ Y = []
                      ∧ final (served ["a"; ""; "bcd"]) = None).
Proof.
  split; [reflexivity|].
  exact (fan_out_keeps_sinks_aligned small_disk_file {| written := [] |}
           {| Total := 3; current := 0 |} (served ["a"; ""; "bcd"]) [] eq_refl).
Defined.

(** The copy onto a disk with room for two bytes: the file has [a] and
    the one byte of [bcd] that fitted, the digest and the counter have [a]. *)
Lemma fan_out_on_full_disk :
  let r := io_Copy (small_disk_file, ({| written := [] |}, {| Total := 3; current := 0 |}))
             (served ["a"; ""; "bcd"]) in
  file_content r.1.1.1 = Some (list_byte_of_string "ab")
  ∧ written r.1.1.2.1 = list_byte_of_string "a"
  ∧ current r.1.1.2.2 = 1%N
  ∧ r.1.2 = 2%N
  ∧ r.2 = Some enospc.
Proof. vm_compute. done. Qed.

(** When [os.Stat] fails for another reason than absence, [fi] is nil and
    the call [fi.ModTime()] panics. *)
Theorem listing_panics_on_stat_error E st :
  os_Stat st version_cache = StatNotDir → getAllGoVersion E st = (st, Panic).
Proof.
  intros H. unfold getAllGoVersion, load_listing. fold version_cache. by rewrite H.
Qed.

Lemma listing_panics_on_stat_error_witness :
  os_Stat blocked_state version_cache = StatNotDir
  ∧ getAllGoVersion (listing_env Hour ["1234 refs/tags/go1.3"]) blocked_state
    = (blocked_state, Panic).
Proof.
  assert (H : os_Stat blocked_state version_cache = StatNotDir) by (vm_compute; reflexivity).
  split; [exact H|]. exact (listing_panics_on_stat_error _ _ H).
Defined.

(** The listing operation does not create the cache directory: without it
    a fetched listing cannot be stored and the operation fails. *)
Lemma listing_needs_cache_directory :
  getAllGoVersion (listing_env Hour ["1234 refs/tags/go1.3"]) empty_state
  = (add_event empty_state (EvHttpGet DefaultSourceURL), Err (ErrCacheWrite enoent)).
Proof. vm_compute. reflexivity. Qed.

(** ** Further properties of the listing *)

Lemma sorted_versions_sorted (b : list byte) :
  StronglySorted (λ x y, version_less (normalize x) (normalize y) = true) (sorted_versions b).
Proof.
  destruct (sorted_versions_keys b) as [Hkeys _].
  destruct (sort_SliceStable_sorts version_less version_less_total version_less_trans
              (map normalize (retained_tags b))) as [_ Hsorted].
  apply (StronglySorted_map_inv normalize (le_by version_less)). by rewrite Hkeys.
Qed.

Lemma StronglySorted_lookup_lt {A} (R : relation A) (l : list A) i j x y :
  StronglySorted R l → l !! i = Some x → l !! j = Some y → (i < j)%nat → R x y.
Proof.
  intros Hs. revert i j. induction Hs as [|a l Hs IH Hall]; intros i j Hi Hj Hlt; [done|].
  destruct j as [|j]; [lia|]. destruct i as [|i]; simpl in *.
  - injection Hi as <-. rewrite Forall_forall in Hall. apply Hall.
    by apply list_elem_of_lookup_2 in Hj.
  - apply (IH i j); [done|done|lia].
Qed.

(** The result has one entry for each retained line, and every entry is
    the tag of a retained line. *)
Theorem listing_returns_retained_tags (b : list byte) :
  length (sorted_versions b) = length (retained_tags b)
  ∧ ∀ t, t ∈ sorted_versions b → t ∈ retained_tags b.
Proof.
  destruct (sorted_versions_keys b) as [Hkeys Hin]. split; [|done].
  destruct (sort_SliceStable_sorts version_less version_less_total version_less_trans
              (map normalize (retained_tags b))) as [Hperm _].
  rewrite <- Hkeys in Hperm. apply Permutation_length in Hperm.
  by rewrite !length_map in Hperm.
Qed.

(** A tag whose key [semver.Make] rejects is sorted as version 0.0.0: it
    comes after every tag whose key is a version above 0.0.0. *)
Theorem unparsed_keys_sort_last (b : list byte) (i j : nat) (t u : string) (v : Version) :
  sorted_versions b !! i = Some t →
  sorted_versions b !! j = Some u →
  semver_Make (normalize t) = None →
  semver_Make (normalize u) = Some v →
  Version_Compare v Version_zero = 1%Z →
  (j < i)%nat.
Proof.
  intros Hi Hj Ht Hu Hv.
  destruct (Nat.lt_trichotomy i j) as [Hlt | [-> | Hgt]]; [|congruence|done].
  pose proof (StronglySorted_lookup_lt _ _ _ _ _ _ (sorted_versions_sorted b) Hi Hj Hlt) as Hle.
  unfold version_less, version_of, Version_GE in Hle. rewrite Ht, Hu in Hle. simpl in Hle.
  rewrite (cmp_antisym _ good_Version_Compare), Hv in Hle. done.
Qed.

Lemma unparsed_keys_sort_last_witness :
  let b := listing_of ["1.2.3.4"; "1.9"] in
  sorted_versions b !! 1%nat = Some "1.2.3.4"
  ∧ sorted_versions b !! 0%nat = Some "1.9"
  ∧ semver_Make (normalize "1.2.3.4") = None
  ∧ semver_Make (normalize "1.9") = Some (release 1 9 0 None)
  ∧ Version_Compare (release 1 9 0 None) Version_zero = 1%Z
  ∧ (0 < 1)%nat.
Proof.
  intros b.
  assert (H1 : sorted_versions b !! 1%nat = Some "1.2.3.4") by (vm_compute; reflexivity).
  assert (H2 : sorted_versions b !! 0%nat = Some "1.9") by (vm_compute; reflexivity).
  assert (H3 : semver_Make (normalize "1.2.3.4") = None) by (vm_compute; reflexivity).
  assert (H4 : semver_Make (normalize "1.9") = Some (release 1 9 0 None))
    by (vm_compute; reflexivity).
  assert (H5 : Version_Compare (release 1 9 0 None) Version_zero = 1%Z) by reflexivity.
  repeat (split; [assumption|]).
  exact (unparsed_keys_sort_last b 1 0 "1.2.3.4" "1.9" _ H1 H2 H3 H4 H5).
Defined.

(** ** The order of release tags *)

(** The versions that the keys of release tags stand for. *)
Lemma release_tag_versions (a b c m d : string) :
  numeric_section a → numeric_section b → numeric_section c →
  marker m → all_digits d = true →
  version_of (normalize a) = release (value_from 0 a) 0 0 None
  ∧ version_of (normalize (a +:+ "." +:+ b)) = release (value_from 0 a) (value_from 0 b) 0 None
  ∧ version_of (normalize (a +:+ "." +:+ b +:+ m +:+ d))
    = release (value_from 0 a) (value_from 0 b) 0 (Some (m +:+ d))
  ∧ version_of (normalize (a +:+ "." +:+ b +:+ "." +:+ c))
    = release (value_from 0 a) (value_from 0 b) (value_from 0 c) None
  ∧ version_of (normalize (a +:+ "." +:+ b +:+ "." +:+ c +:+ m +:+ d))
    = release (value_from 0 a) (value_from 0 b) (value_from 0 c) (Some (m +:+ d)).
Proof.
  intros Ha Hb Hc Hm Hd.
  destruct (marker_digits_pre m d Hm Hd) as (Hmd_dot & Hmd_plus & Hmd_pre).
  assert (Hdot : ∀ s, numeric_section s → no_byte "." s = true)
    by (intros s; by apply numeric_no_byte).
  assert (Hlen2 : length (strings_Split ((a +:+ "." +:+ b) +:+ m +:+ d) ".") = 2%nat).
  { rewrite !append_assoc. rewrite Split_two; [done|auto|].
    rewrite no_byte_append, Hdot by done. done. }
  assert (Hlen3 : length (strings_Split ((a +:+ "." +:+ b +:+ "." +:+ c) +:+ m +:+ d) ".")
                  = 3%nat).
  { rewrite !append_assoc. rewrite Split_three; [done|auto|auto|].
    rewrite no_byte_append, Hdot by done. done. }
  unfold version_of, semver_Make. repeat split.
  - unfold normalize. rewrite Split_one by auto. cbn [length].
    change (a +:+ ".0.0") with (a +:+ "." +:+ "0" +:+ "." +:+ "0").
    by rewrite (Parse_plain a "0" "0") by (done || apply numeric_zero).
  - unfold normalize. rewrite Split_two by auto. cbn [length].
    rewrite (Contains_no_byte "b") by (by apply no_byte_dotted).
    rewrite (Contains_no_byte "r") by (by apply no_byte_dotted).
    rewrite !append_assoc.
    change (a +:+ "." +:+ b +:+ ".0") with (a +:+ "." +:+ b +:+ "." +:+ "0").
    by rewrite (Parse_plain a b "0") by (done || apply numeric_zero).
  - unfold normalize.
    replace (a +:+ "." +:+ b +:+ m +:+ d) with ((a +:+ "." +:+ b) +:+ m +:+ d)
      by (by rewrite !append_assoc).
    destruct (normalize_marked (a +:+ "." +:+ b) m d ".0-"
                (((a +:+ "." +:+ b) +:+ m +:+ d) +:+ ".0") 2 Hm Hd) as [Hn _];
      [intros ch ? ?; by apply no_byte_dotted|done|].
    rewrite Hlen2.
    change (".0-" +:+ "beta") with ".0-beta" in Hn.
    change (".0-" +:+ "rc") with ".0-rc" in Hn.
    rewrite Hn, !append_assoc.
    change (a +:+ "." +:+ b +:+ ".0-" +:+ m +:+ d)
      with (a +:+ "." +:+ b +:+ "." +:+ "0" +:+ "-" +:+ m +:+ d).
    by rewrite (Parse_pre a b "0" (m +:+ d)) by (done || apply numeric_zero).
  - unfold normalize. rewrite Split_three by auto. cbn [length].
    rewrite (Contains_no_byte "r") by (by apply no_byte_dotted3).
    rewrite (Contains_no_byte "b") by (by apply no_byte_dotted3).
    by rewrite Parse_plain.
  - unfold normalize.
    replace (a +:+ "." +:+ b +:+ "." +:+ c +:+ m +:+ d)
      with ((a +:+ "." +:+ b +:+ "." +:+ c) +:+ m +:+ d) by (by rewrite !append_assoc).
    destruct (normalize_marked (a +:+ "." +:+ b +:+ "." +:+ c) m d "-"
                ((a +:+ "." +:+ b +:+ "." +:+ c) +:+ m +:+ d) 3 Hm Hd) as [_ Hn];
      [intros ch ? ?; by apply no_byte_dotted3|done|].
    rewrite Hlen3.
    change ("-" +:+ "beta") with "-beta" in Hn.
    change ("-" +:+ "rc") with "-rc" in Hn.
    rewrite Hn, !append_assoc.
    by rewrite (Parse_pre a b c (m +:+ d)).
Qed.

Lemma GE_releases x y z x' y' z' :
  Version_GE (release x y z None) (release x' y' z' None) = true
  ↔ (x' < x ∨ (x' = x ∧ (y' < y ∨ (y' = y ∧ z' <= z))))%N.
Proof.
  unfold Version_GE, Version_Compare, release. cbn [Major Minor Patch Pre].
  rewrite Z.leb_le.
  destruct (N.eqb_spec x x'), (N.ltb_spec x' x), (N.eqb_spec y y'), (N.ltb_spec y' y),
    (N.eqb_spec z z'), (N.ltb_spec z' z); cbn [negb]; lia.
Qed.

(** Releases are ordered by the numbers of their sections, most significant
    first; a tag with fewer than three sections stands for the version
    with zeros in the missing places. *)
Theorem releases_ordered_by_numbers (a b c a' b' c' : string) :
  numeric_section a → numeric_section b → numeric_section c →
  numeric_section a' → numeric_section b' → numeric_section c' →
  let n := value_from 0 in
  (version_less (normalize (a +:+ "." +:+ b +:+ "." +:+ c))
                (normalize (a' +:+ "." +:+ b' +:+ "." +:+ c')) = true
   ↔ (n a' < n a ∨ (n a' = n a ∧ (n b' < n b ∨ (n b' = n b ∧ n c' <= n c))))%N)
  ∧ (version_less (normalize (a +:+ "." +:+ b)) (normalize (a' +:+ "." +:+ b')) = true
     ↔ (n a' < n a ∨ (n a' = n a ∧ n b' <= n b))%N)
  ∧ version_of (normalize (a +:+ "." +:+ b)) = version_of (normalize (a +:+ "." +:+ b +:+ ".0"))
  ∧ version_of (normalize a) = version_of (normalize (a +:+ ".0.0")).
Proof.
  intros Ha Hb Hc Ha' Hb' Hc' n.
  assert (Hm : marker "rc") by (by right).
  destruct (release_tag_versions a b c "rc" "" Ha Hb Hc Hm eq_refl) as (V1 & V2 & _ & V3 & _).
  destruct (release_tag_versions a' b' c' "rc" "" Ha' Hb' Hc' Hm eq_refl)
    as (_ & V2' & _ & V3' & _).
  destruct (release_tag_versions a b "0" "rc" "" Ha Hb numeric_zero Hm eq_refl)
    as (_ & _ & _ & V30 & _).
  destruct (release_tag_versions a "0" "0" "rc" "" Ha numeric_zero numeric_zero Hm eq_refl)
    as (_ & _ & _ & V300 & _).
  repeat split.
  - unfold version_less. rewrite V3, V3'. by intros ?%GE_releases.
  - unfold version_less. rewrite V3, V3'. by intros ?%GE_releases.
  - unfold version_less. rewrite V2, V2'. intros ?%GE_releases. unfold n. lia.
  - unfold version_less. rewrite V2, V2'. intros ?. apply GE_releases. unfold n in *. lia.
  - rewrite V2. change (a +:+ "." +:+ b +:+ ".0") with (a +:+ "." +:+ b +:+ "." +:+ "0").
    by rewrite V30.
  - rewrite V1. change (a +:+ ".0.0") with (a +:+ "." +:+ "0" +:+ "." +:+ "0").
    by rewrite V300.
Qed.

Lemma releases_ordered_by_numbers_witness :
  numeric_section "1" ∧ numeric_section "10" ∧ numeric_section "0"
  ∧ numeric_section "9" ∧ numeric_section "7"
  ∧ version_less (normalize "1.10.0") (normalize "1.9.7") = true
  ∧ version_less (normalize "1.9.7") (normalize "1.10.0") = false.
Proof.
  assert (H1 : numeric_section "1") by (by vm_compute).
  assert (H10 : numeric_section "10") by (by vm_compute).
  assert (H0 : numeric_section "0") by (by vm_compute).
  assert (H9 : numeric_section "9") by (by vm_compute).
  assert (H7 : numeric_section "7") by (by vm_compute).
  destruct (releases_ordered_by_numbers "1" "10" "0" "1" "9" "7" H1 H10 H0 H1 H9 H7)
    as ([_ Hge] & _).
  destruct (releases_ordered_by_numbers "1" "9" "7" "1" "10" "0" H1 H9 H7 H1 H10 H0)
    as ([Hlt _] & _).
  repeat (split; [assumption|]). split.
  - apply Hge. vm_compute. right. split; [done|]. by left.
  - destruct (version_less (normalize "1.9.7") (normalize "1.10.0")) eqn:E; [|done].
    specialize (Hlt E). vm_compute in Hlt.
    destruct Hlt as [?|[_ [?|[? _]]]]; done.
Defined.

Lemma compare_append_same (m d d' : string) :
  String.compare (m +:+ d) (m +:+ d') = String.compare d d'.
Proof.
  induction m as [|c m IH]; [done|]. rewrite !append_cons. cbn [String.compare].
  unfold Ascii.compare. by rewrite N.compare_refl.
Qed.

Lemma eqb_append_same (m d d' : string) : String.eqb (m +:+ d) (m +:+ d') = String.eqb d d'.
Proof.
  induction m as [|c m IH]; [done|]. rewrite !append_cons. cbn [String.eqb].
  by rewrite Ascii.eqb_refl.
Qed.

Lemma Compare_release_pre x y z s :
  Version_Compare (release x y z None) (release x y z (Some s)) = 1%Z
  ∧ Version_Compare (release x y z (Some s)) (release x y z None) = (-1)%Z.
Proof.
  unfold Version_Compare, release. cbn [Major Minor Patch Pre]. by rewrite !N.eqb_refl.
Qed.

Lemma Compare_pre_pre x y z s s' :
  Version_Compare (release x y z (Some s)) (release x y z (Some s')) = compare_str s s'.
Proof.
  unfold Version_Compare, release, compare_str. cbn [Major Minor Patch Pre].
  rewrite !N.eqb_refl. cbn [negb Pre_Compare]. unfold PRVersion_Compare.
  cbn [IsNum VersionStr andb negb].
  destruct (String.eqb s s'); [done|]. by destruct (String.compare s s').
Qed.

(** A release is newer than its betas and release candidates, a release
    candidate is newer than a beta, and two pre-releases of one kind are
    ordered by the text after the marker, byte by byte (so that rc2 comes
    out newer than rc10). *)
Theorem prereleases_ordered_as_text (a b m d d' : string) :
  numeric_section a → numeric_section b → marker m →
  all_digits d = true → all_digits d' = true →
  let rel := a +:+ "." +:+ b in
  (version_less (normalize rel) (normalize (rel +:+ m +:+ d)) = true
   ∧ version_less (normalize (rel +:+ m +:+ d)) (normalize rel) = false)
  ∧ (version_less (normalize (rel +:+ m +:+ d)) (normalize (rel +:+ m +:+ d')) = true
     ↔ d = d' ∨ String.compare d d' = Gt)
  ∧ version_less (normalize (rel +:+ "beta" +:+ d)) (normalize (rel +:+ "rc" +:+ d')) = false.
Proof.
  intros Ha Hb Hm Hd Hd' rel. unfold rel. rewrite !append_assoc.
  destruct (release_tag_versions a b "0" m d Ha Hb numeric_zero Hm Hd) as (_ & V2 & Vm & _).
  destruct (release_tag_versions a b "0" m d' Ha Hb numeric_zero Hm Hd') as (_ & _ & Vm' & _).
  destruct (release_tag_versions a b "0" "beta" d Ha Hb numeric_zero (or_introl eq_refl) Hd)
    as (_ & _ & Vb & _).
  destruct (release_tag_versions a b "0" "rc" d' Ha Hb numeric_zero (or_intror eq_refl) Hd')
    as (_ & _ & Vr & _).
  unfold version_less, Version_GE. rewrite V2, Vm, Vm', Vb, Vr.
  destruct (Compare_release_pre (value_from 0 a) (value_from 0 b) 0 (m +:+ d)) as [-> ->].
  rewrite !Compare_pre_pre. split; [done|]. split; [|done].
  unfold compare_str. rewrite eqb_append_same, compare_append_same.
  destruct (String.eqb_spec d d') as [->|Hne]; [by split; [left|]|].
  destruct (String.compare d d'); split; intros H; try done; try (by right);
    destruct H; done.
Qed.

Lemma prereleases_ordered_as_text_witness :
  numeric_section "1" ∧ numeric_section "9" ∧ marker "rc"
  ∧ all_digits "2" = true ∧ all_digits "10" = true
  ∧ version_less (normalize "1.9") (normalize "1.9rc2") = true
  ∧ version_less (normalize "1.9rc2") (normalize "1.9rc10") = true
  ∧ version_less (normalize "1.9beta2") (normalize "1.9rc10") = false.
Proof.
  assert (H1 : numeric_section "1") by (by vm_compute).
  assert (H9 : numeric_section "9") by (by vm_compute).
  assert (Hm : marker "rc") by (by right).
  destruct (prereleases_ordered_as_text "1" "9" "rc" "2" "10" H1 H9 Hm eq_refl eq_refl)
    as ([Hrel _] & [_ Hpre] & Hbeta).
  split; [exact H1|]. split; [exact H9|]. split; [exact Hm|].
  split; [reflexivity|]. split; [reflexivity|].
  split; [exact Hrel|]. split; [|exact Hbeta].
  apply Hpre. by right.
Defined.

(** ** The cache of the listing: failures and reuse *)

Lemma version_cache_path : clean_path version_cache = (false, ["cache"; "VERSION"]).
Proof. reflexivity. Qed.

Lemma load_listing_stale E st :
  cache_stale E st → load_listing E st = remote_listing E st version_cache.
Proof.
  intros Hstale. unfold load_listing. fold version_cache.
  destruct Hstale as [Hstat | (fi & Hstat & Hage)]; rewrite Hstat; [done|].
  by rewrite (proj2 (time_Sub_stale _ _) Hage).
Qed.

(** A refetch that fails before the answer is stored leaves the file
    system as it was: the old cache file, if any, keeps its content and
    its age. *)
Theorem failed_refetch_keeps_cache E st :
  cache_stale E st →
  let st' := add_event st (EvHttpGet DefaultSourceURL) in
  (∀ e, http_get E DefaultSourceURL = HttpError e →
        getAllGoVersion E st = (st', Err (ErrConnect e)))
  ∧ (∀ resp, http_get E DefaultSourceURL = HttpResponse resp →
             (299 < StatusCode resp)%Z →
             getAllGoVersion E st = (st', Err (ErrListStatus (StatusCode resp))))
  ∧ (∀ resp e, http_get E DefaultSourceURL = HttpResponse resp →
               (StatusCode resp <= 299)%Z → final (Body resp) = Some e →
               getAllGoVersion E st = (st', Err e))
  ∧ fs st' = fs st.
Proof.
  intros Hstale st'. unfold getAllGoVersion. rewrite (load_listing_stale _ _ Hstale).
  unfold remote_listing, getRemoteVersion. fold st'. repeat split.
  - by intros e ->.
  - intros resp -> Hcode. by rewrite (proj2 (Z.ltb_lt _ _) Hcode).
  - intros resp e -> Hcode Hfin. rewrite (proj2 (Z.ltb_ge _ _) Hcode).
    unfold ioutil_ReadAll. by rewrite Hfin.
Qed.

Lemma failed_refetch_keeps_cache_witness :
  let E := example_env [] "" [] in
  let st := cached_state (1000 - 73 * Hour) ("1234 refs/tags/go1.1" +:+ newline) in
  cache_stale E st
  ∧ getAllGoVersion E st
    = (add_event st (EvHttpGet DefaultSourceURL), Err (ErrConnect (ErrLib "no such host")))
  ∧ ioutil_ReadFile (getAllGoVersion E st).1 version_cache
    = inr (list_byte_of_string ("1234 refs/tags/go1.1" +:+ newline)).
Proof.
  intros E st.
  assert (H : cache_stale E st).
  { right. eexists. split; [vm_compute; reflexivity|]. vm_compute. discriminate. }
  destruct (failed_refetch_keeps_cache E st H) as (Hconn & _).
  split; [exact H|]. split; [by apply Hconn|]. rewrite (Hconn _ eq_refl). reflexivity.
Defined.

Lemma ioutil_WriteFile_stat E st name data perm st' :
  ioutil_WriteFile E st name data perm = (st', None) →
  ∃ perm', stat_path (fs st') (clean_path name) = StatOk (File perm' (now E) data).
Proof.
  unfold ioutil_WriteFile. destruct (os_OpenFile E st name perm) as [st1 [e|]] eqn:Ho; [done|].
  apply os_OpenFile_ok in Ho as (Hne & Hcomp & perm' & Hfs & Hb & Hl & Hstat).
  change (@Write os_File _) with file_Write. unfold file_Write. cbn [f_state f_name f_now].
  assert (Hlook : fs st1 !! clean_path name = Some (File perm' (now E) [])).
  { rewrite Hfs. apply lookup_insert_eq. }
  rewrite Hlook.
  destruct (N.leb_spec (N.of_nat (length data)) (budget st1)) as [Hle|Hgt].
  - rewrite Nat.ltb_irrefl. intros [= <-]. exists perm'. cbn [fs].
    destruct (clean_path name) as [r comps] eqn:Hp. cbn [snd] in Hcomp.
    rewrite (stat_path_rewrite _ _ _ _ _ Hcomp Hstat). by rewrite firstn_all.
  - destruct (N.to_nat (budget st1) <? length data)%nat eqn:Hlt; [done|].
    apply Nat.ltb_ge in Hlt. lia.
Qed.

Lemma fresh_file_is_read E st perm mt b :
  stat_path (fs st) (clean_path version_cache) = StatOk (File perm mt b) →
  (now E - mt < 72 * Hour)%Z →
  getAllGoVersion E st = (st, Ok (sorted_versions b)).
Proof.
  intros Hstat Hage. unfold getAllGoVersion, load_listing. fold version_cache.
  unfold os_Stat, ioutil_ReadFile, read_file.
  change (String.eqb version_cache "") with false. cbn match. rewrite Hstat.
  cbn [ModTime]. by rewrite (proj2 (time_Sub_fresh _ _) Hage).
Qed.

(** A listing that has just been fetched is served from the cache by every
    call made less than 72 hours later: the same result, no request, no
    change of the machine. *)
Theorem refetched_listing_is_reused E E' st st' l :
  cache_stale E st →
  getAllGoVersion E st = (st', Ok l) →
  (now E' - now E < 72 * Hour)%Z →
  getAllGoVersion E' st' = (st', Ok l).
Proof.
  intros Hstale Hrun Hage. unfold getAllGoVersion in Hrun.
  rewrite (load_listing_stale _ _ Hstale) in Hrun.
  unfold remote_listing, getRemoteVersion in Hrun.
  destruct (http_get E DefaultSourceURL) as [e|resp]; [done|].
  destruct (299 <? StatusCode resp)%Z; [done|].
  destruct (ioutil_ReadAll (Body resp)) as [b [e|]]; [done|].
  destruct (ioutil_WriteFile E (add_event st (EvHttpGet DefaultSourceURL)) version_cache b ModePerm)
    as [st1 [e|]] eqn:Hw; [done|].
  injection Hrun as <- <-.
  destruct (ioutil_WriteFile_stat _ _ _ _ _ _ Hw) as [perm Hstat].
  by apply (fresh_file_is_read E' st1 perm (now E) b).
Qed.

Lemma refetched_listing_is_reused_witness :
  let E := listing_env (73 * Hour) ["1234 refs/tags/go1.3"] in
  let E' := example_env [] "" [] in
  let st := cached_state 0 ("1234 refs/tags/go1.1" +:+ newline) in
  let st' := (getAllGoVersion E st).1 in
  cache_stale E st
  ∧ getAllGoVersion E st = (st', Ok ["1.3"])
  ∧ (now E' - now E < 72 * Hour)%Z
  ∧ getAllGoVersion E' st' = (st', Ok ["1.3"]).
Proof.
  intros E E' st st'.
  assert (H1 : cache_stale E st).
  { right. eexists. split; [vm_compute; reflexivity|]. vm_compute. discriminate. }
  assert (H2 : getAllGoVersion E st = (st', Ok ["1.3"])) by (vm_compute; reflexivity).
  assert (H3 : (now E' - now E < 72 * Hour)%Z) by (vm_compute; reflexivity).
  split; [exact H1|]. split; [exact H2|]. split; [exact H3|].
  exact (refetched_listing_is_reused E E' st st' _ H1 H2 H3).
Defined.

(** The listing operation does not create the directory [cache]: without
    it the fetched listing cannot be stored, and the operation fails
    although the server has answered. *)
Theorem listing_fails_without_cache_directory E st resp b :
  os_Stat st "cache" = StatNotExist →
  http_get E DefaultSourceURL = HttpResponse resp →
  (StatusCode resp <= 299)%Z →
  ioutil_ReadAll (Body resp) = (b, None) →
  getAllGoVersion E st
  = (add_event st (EvHttpGet DefaultSourceURL), Err (ErrCacheWrite enoent)).
Proof.
  intros Hdir Hget Hcode Hread.
  assert (Hnone : fs st !! (false, ["cache"]) = None).
  { unfold os_Stat, stat_path in Hdir. cbn in Hdir.
    by destruct (fs st !! (false, ["cache"])). }
  assert (Hstat : ∀ m, m !! (false, ["cache"]) = None →
                       stat_path m (false, ["cache"; "VERSION"]) = StatNotExist).
  { intros m Hm. unfold stat_path. cbn. by rewrite Hm. }
  unfold getAllGoVersion, load_listing. fold version_cache. unfold os_Stat.
  change (String.eqb version_cache "") with false. cbn match.
  rewrite version_cache_path, (Hstat _ Hnone).
  unfold remote_listing, getRemoteVersion. rewrite Hget.
  rewrite (proj2 (Z.ltb_ge _ _) Hcode), Hread.
  unfold ioutil_WriteFile, os_OpenFile.
  change (String.eqb version_cache "") with false. cbn match.
  rewrite version_cache_path. cbn [add_event fs]. rewrite (Hstat _ Hnone).
  unfold parent. cbn [fst snd removelast]. unfold stat_path. cbn [walk fst snd rev app].
  by rewrite Hnone.
Qed.

Lemma listing_fails_without_cache_directory_witness :
  let E := listing_env Hour ["1234 refs/tags/go1.3"] in
  os_Stat empty_state "cache" = StatNotExist
  ∧ http_get E DefaultSourceURL
    = HttpResponse {| StatusCode := 200; ContentLength := "";
                      Body := served ["1234 refs/tags/go1.3"] |}
  ∧ (200 <= 299)%Z
  ∧ ioutil_ReadAll (served ["1234 refs/tags/go1.3"])
    = (list_byte_of_string "1234 refs/tags/go1.3", None)
  ∧ getAllGoVersion E empty_state
    = (add_event empty_state (EvHttpGet DefaultSourceURL), Err (ErrCacheWrite enoent)).
Proof.
  intros E.
  assert (H1 : os_Stat empty_state "cache" = StatNotExist) by reflexivity.
  assert (H2 : http_get E DefaultSourceURL
               = HttpResponse {| StatusCode := 200; ContentLength := "";
                                 Body := served ["1234 refs/tags/go1.3"] |}) by reflexivity.
  assert (H3 : (200 <= 299)%Z) by lia.
  assert (H4 : ioutil_ReadAll (served ["1234 refs/tags/go1.3"])
               = (list_byte_of_string "1234 refs/tags/go1.3", None)) by reflexivity.
  split; [exact H1|]. split; [exact H2|]. split; [exact H3|]. split; [exact H4|].
  exact (listing_fails_without_cache_directory E empty_state _ _ H1 H2 H3 H4).
Defined.

(** A listing larger than the room left on the disk: the operation fails,
    but the cache file now holds the part that fitted and carries the
    current time, so that every call within the next 72 hours returns the
    tags of the truncated listing without fetching anything. *)
Theorem short_write_leaves_truncated_cache E st resp b st1 :
  cache_stale E st →
  http_get E DefaultSourceURL = HttpResponse resp →
  (StatusCode resp <= 299)%Z →
  ioutil_ReadAll (Body resp) = (b, None) →
  os_OpenFile E (add_event st (EvHttpGet DefaultSourceURL)) version_cache ModePerm = (st1, None) →
  (budget st < N.of_nat (length b))%N →
  let kept := take (N.to_nat (budget st)) b in
  ∃ st', getAllGoVersion E st = (st', Err (ErrCacheWrite enospc))
         ∧ ioutil_ReadFile st' version_cache = inr kept
         ∧ ∀ E', (now E' - now E < 72 * Hour)%Z →
                 getAllGoVersion E' st' = (st', Ok (sorted_versions kept)).
Proof.
  intros Hstale Hget Hcode Hread Hopen Hroom kept.
  unfold getAllGoVersion. rewrite (load_listing_stale _ _ Hstale).
  unfold remote_listing, getRemoteVersion. rewrite Hget.
  rewrite (proj2 (Z.ltb_ge _ _) Hcode), Hread.
  unfold ioutil_WriteFile. rewrite Hopen.
  apply os_OpenFile_ok in Hopen as (Hne & Hcomp & perm' & Hfs & Hb & Hl & Hstat).
  cbn [add_event budget] in Hb.
  change (@Write os_File _) with file_Write. unfold file_Write. cbn [f_state f_name f_now].
  assert (Hlook : fs st1 !! clean_path version_cache = Some (File perm' (now E) [])).
  { rewrite Hfs. apply lookup_insert_eq. }
  rewrite Hlook, Hb.
  destruct (N.leb_spec (N.of_nat (length b)) (budget st)) as [Hle|_]; [lia|].
  assert (Hlt : (N.to_nat (budget st) <? length b)%nat = true) by (apply Nat.ltb_lt; lia).
  rewrite Hlt. cbn [f_state app]. fold kept.
  eexists. split; [reflexivity|].
  assert (Hst : stat_path (<[clean_path version_cache := File perm' (now E) kept]> (fs st1))
                  (clean_path version_cache) = StatOk (File perm' (now E) kept)).
  { rewrite version_cache_path in *. by apply (stat_path_rewrite _ _ _ _ _ Hcomp Hstat). }
  split.
  - unfold ioutil_ReadFile, read_file. change (String.eqb version_cache "") with false.
    cbn match. cbn [fs]. by rewrite Hst.
  - intros E' Hage. by apply (fresh_file_is_read E' _ perm' (now E) kept).
Qed.

Lemma short_write_leaves_truncated_cache_witness :
  let E := listing_env Hour ["1234 refs/tags/go1.3"; String (ascii_of_N 10) "";
                             "1234 refs/tags/go1.4"] in
  let st := {| fs := {[ (false, ["cache"]) := Dir 493 0 ]}; budget := 23; log := [] |} in
  let b := list_byte_of_string
             ("1234 refs/tags/go1.3" +:+ newline +:+ "1234 refs/tags/go1.4") in
  cache_stale E st
  ∧ (budget st < N.of_nat (length b))%N
  ∧ (getAllGoVersion E st).2 = Err (ErrCacheWrite enospc)
  ∧ getAllGoVersion E (getAllGoVersion E st).1 = ((getAllGoVersion E st).1, Ok ["1.3"]).
Proof.
  intros E st b.
  assert (H1 : cache_stale E st) by (left; reflexivity).
  assert (H2 : http_get E DefaultSourceURL
               = HttpResponse {| StatusCode := 200; ContentLength := "";
                                 Body := served ["1234 refs/tags/go1.3";
                                                 String (ascii_of_N 10) "";
                                                 "1234 refs/tags/go1.4"] |}) by reflexivity.
  assert (H3 : (200 <= 299)%Z) by lia.
  assert (H4 : ioutil_ReadAll (served ["1234 refs/tags/go1.3"; String (ascii_of_N 10) "";
                                       "1234 refs/tags/go1.4"]) = (b, None)) by reflexivity.
  assert (H6 : (budget st < N.of_nat (length b))%N) by (vm_compute; reflexivity).
  destruct (short_write_leaves_truncated_cache E st _ b _ H1 H2 H3 H4 eq_refl H6)
    as (st' & Hrun & _ & Hnext).
  split; [exact H1|]. split; [exact H6|]. rewrite Hrun. split; [reflexivity|].
  cbn [fst]. rewrite (Hnext E); [reflexivity|]. vm_compute. reflexivity.
Defined.

(** ** The download: refusals, interruptions, archives that do not decode *)

(** When the request cannot be built, the server cannot be reached, the
    status is above 299, or the Content-Length header is missing or not a
    number, the operation fails before the cache directory is created: no
    file or directory is created, changed or removed, and nothing is
    extracted. *)
Theorem refused_response_touches_no_file E st target dest :
  response_refused E target →
  ∃ e, (downloadGoVersion E st target dest).2 = Some e
       ∧ fs (downloadGoVersion E st target dest).1 = fs st
       ∧ (∀ src d, EvExtract src d ∈ log (downloadGoVersion E st target dest).1 →
                   EvExtract src d ∈ log st).
Proof.
  intros Href. unfold downloadGoVersion, download_verify. fold (archive_uri target).
  assert (Hlog : ∀ src d, EvExtract src d ∈ log (add_event st (EvHttpGet (archive_uri target))) →
                          EvExtract src d ∈ log st).
  { intros src d. cbn [add_event log]. rewrite elem_of_app, list_elem_of_singleton.
    by intros [?|?]. }
  destruct (new_request E (archive_uri target)) as [e|] eqn:Hreq.
  { exists e. cbn [fst snd]. split; [done|]. split; [done|]. auto. }
  destruct Href as [[e He] | [[e He] | (resp & Hget & Hbad)]]; [congruence| |].
  - rewrite He. eexists. cbn [fst snd]. split; [done|]. split; [done|]. exact Hlog.
  - rewrite Hget. destruct (299 <? StatusCode resp)%Z eqn:Hcode.
    { eexists. cbn [fst snd]. split; [done|]. split; [done|]. exact Hlog. }
    destruct Hbad as [Hbad | ->]; [apply Z.ltb_ge in Hcode; lia|].
    eexists. cbn [fst snd]. split; [done|]. split; [done|]. exact Hlog.
Qed.

Lemma refused_response_touches_no_file_witness :
  let E := {| now := 1000; windows := false; new_request := λ _, None;
              http_get := λ _, HttpResponse {| StatusCode := 200; ContentLength := "";
                                               Body := served ["abc"] |};
              gzip_tar := λ _, inl (ErrLib "gzip: invalid header");
              zip_reader := λ _, inl (ErrLib "zip: not a valid zip file") |} in
  response_refused E "go1.tar.gz"
  ∧ ∃ e, (downloadGoVersion E installed_state "go1.tar.gz" "/dest").2 = Some e
         ∧ fs (downloadGoVersion E installed_state "go1.tar.gz" "/dest").1 = fs installed_state
         ∧ (∀ src d,
              EvExtract src d ∈ log (downloadGoVersion E installed_state "go1.tar.gz" "/dest").1 →
              EvExtract src d ∈ log installed_state).
Proof.
  intros E.
  assert (H : response_refused E "go1.tar.gz").
  { right. right. eexists. split; [reflexivity|]. right. reflexivity. }
  split; [exact H|]. exact (refused_response_touches_no_file E installed_state _ "/dest" H).
Defined.

(** A body that breaks off with a read error: the operation returns that
    error, the bytes received so far stay in the cache file, and neither
    the digest is requested nor anything extracted. *)
Theorem interrupted_download_leaves_partial_file E st target dest resp size st1 e :
  archive_offered E target resp size →
  cache_file_created E st target st1 →
  final (Body resp) = Some e →
  (N.of_nat (length (concat (chunks (Body resp)))) <= budget st1)%N →
  ∃ st', downloadGoVersion E st target dest = (st', Some e)
         ∧ read_file st' (cache_name target) = inr (concat (chunks (Body resp)))
         ∧ log st' = log st ++ [EvHttpGet (archive_uri target)].
Proof.
  intros (Hreq & Hget & Hstatus & Hsize) Hcreated Hfin Hbudget.
  pose proof (cache_file_created_log _ _ _ _ Hcreated) as Hlog1.
  destruct (os_OpenFile_ok _ _ _ _ _ Hcreated) as (Hname & Hcomps & perm & Hfs1 & Hb1 & Hl1 & Hstat1).
  set (f0 := {| f_state := st1; f_name := clean_path (cache_name target); f_now := now E |}).
  assert (Hl0 : fs (f_state f0) !! f_name f0 = Some (File perm (now E) [])).
  { subst f0. cbn [f_state f_name]. rewrite Hfs1. by rewrite lookup_insert_eq. }
  destruct (copy_loop_ok (chunks (Body resp)) f0 {| written := [] |}
              {| Total := size; current := 0 |} 0%N perm (now E) [] (final (Body resp)) Hl0)
    as [mt' Hcopy]; [done|].
  cbn [f_state f_name f_now app written current Total] in Hcopy.
  unfold downloadGoVersion, download_verify. fold (archive_uri target). rewrite Hreq, Hget.
  replace (299 <? StatusCode resp)%Z with false by (symmetry; apply Z.ltb_ge; lia).
  rewrite Hsize. fold cache_dir. fold (cache_name target).
  unfold cache_file_created in Hcreated.
  destruct (os_MkdirAll E (add_event st (EvHttpGet (archive_uri target))) cache_dir ModePerm)
    as [sta ea]. cbn [fst] in Hcreated.
  destruct (os_Remove sta (cache_name target)) as [stb eb]. cbn [fst] in Hcreated.
  rewrite Hcreated. unfold io_Copy. fold f0. rewrite Hcopy. cbn [fst snd f_state].
  rewrite Hfin. eexists. split; [reflexivity|]. split; [|done].
  unfold read_file. destruct (String.eqb_spec (cache_name target) ""); [done|].
  cbn [fs]. destruct (clean_path (cache_name target)) as [r comps] eqn:Hp.
  match goal with |- context [stat_path ?m ?p] =>
    assert (Hst : stat_path m p = StatOk (File perm mt' (concat (chunks (Body resp)))))
      by (by apply (stat_path_rewrite (fs st1) r comps (File perm (now E) [])))
  end.
  by rewrite Hst.
Qed.

Lemma interrupted_download_leaves_partial_file_witness :
  let resp := {| StatusCode := 200; ContentLength := "3";
                 Body := {| chunks := [list_byte_of_string "ab"];
                            final := Some (ErrLib "unexpected EOF") |} |} in
  let E := {| now := 1000; windows := false; new_request := λ _, None;
              http_get := λ _, HttpResponse resp;
              gzip_tar := λ _, inl (ErrLib "gzip: invalid header");
              zip_reader := λ _, inl (ErrLib "zip: not a valid zip file") |} in
  let st1 := (os_OpenFile E
                (os_Remove
                   (os_MkdirAll E (add_event installed_state (EvHttpGet (archive_uri "go1.tar.gz")))
                      cache_dir ModePerm).1 (cache_name "go1.tar.gz")).1
                (cache_name "go1.tar.gz") ModePerm).1 in
  archive_offered E "go1.tar.gz" resp 3
  ∧ cache_file_created E installed_state "go1.tar.gz" st1
  ∧ final (Body resp) = Some (ErrLib "unexpected EOF")
  ∧ (N.of_nat (length (concat (chunks (Body resp)))) <= budget st1)%N
  ∧ ∃ st', downloadGoVersion E installed_state "go1.tar.gz" "/dest"
           = (st', Some (ErrLib "unexpected EOF"))
           ∧ read_file st' (cache_name "go1.tar.gz") = inr (list_byte_of_string "ab")
           ∧ log st' = [EvHttpGet (archive_uri "go1.tar.gz")].
Proof.
  intros resp E st1.
  assert (H1 : archive_offered E "go1.tar.gz" resp 3).
  { repeat split; try reflexivity. vm_compute. discriminate. }
  assert (H2 : cache_file_created E installed_state "go1.tar.gz" st1)
    by (vm_compute; reflexivity).
  assert (H3 : final (Body resp) = Some (ErrLib "unexpected EOF")) by reflexivity.
  assert (H4 : (N.of_nat (length (concat (chunks (Body resp)))) <= budget st1)%N)
    by (vm_compute; discriminate).
  split; [exact H1|]. split; [exact H2|]. split; [exact H3|]. split; [exact H4|].
  exact (interrupted_download_leaves_partial_file E installed_state "go1.tar.gz" "/dest"
           resp 3 st1 _ H1 H2 H3 H4).
Defined.

(** A verified archive that the decoder rejects: the operation fails with
    the decoder's error wrapped for the destination, and the earlier
    content of the destination is already gone. *)
Theorem undecodable_archive_loses_destination E st target dest st1 name sum bytes e :
  download_verify E st target = (st1, inr (name, sum)) →
  read_file (os_RemoveAll st1 dest).1 name = inr bytes →
  archive_rejected E bytes e →
  dest ≠ "" → endsWithDot dest = false →
  ∃ st', downloadGoVersion E st target dest = (st', Some (ErrUnpack dest e))
         ∧ ∀ q, under (clean_path dest) q → fs st' !! q = None.
Proof.
  intros Hdv Hread Hrej Hne Hdot. unfold downloadGoVersion. rewrite Hdv.
  unfold extract_verified.
  assert (Hgone : ∀ q, under (clean_path dest) q → fs (os_RemoveAll st1 dest).1 !! q = None).
  { intros q Hq. unfold os_RemoveAll. destruct (String.eqb_spec dest ""); [done|].
    rewrite Hdot. cbn [fst set_fs fs]. apply map_lookup_filter_None. right.
    intros x _. cbn [fst]. tauto. }
  destruct (os_RemoveAll st1 dest) as [st2 e2]. cbn [fst] in *.
  unfold archive_rejected in Hrej. destruct (windows E).
  - unfold unpackZip.
    change (read_file (add_event st2 (EvExtract name dest)) name) with (read_file st2 name).
    rewrite Hread, Hrej. eexists. split; [reflexivity|]. exact Hgone.
  - unfold unpackTar.
    change (read_file (add_event st2 (EvExtract name dest)) name) with (read_file st2 name).
    rewrite Hread, Hrej. eexists. split; [reflexivity|]. exact Hgone.
Qed.

Lemma undecodable_archive_loses_destination_witness :
  let E := {| now := 1000; windows := false; new_request := λ _, None;
              http_get := http_get (example_env ["a"; ""; "bc"] abc_digest []);
              gzip_tar := λ _, inl (ErrLib "gzip: invalid header");
              zip_reader := λ _, inl (ErrLib "zip: not a valid zip file") |} in
  let st1 := (download_verify E installed_state "go1.tar.gz").1 in
  download_verify E installed_state "go1.tar.gz"
  = (st1, inr ("cache/downloads/go1.tar.gz", abc_digest))
  ∧ read_file (os_RemoveAll st1 "/dest").1 "cache/downloads/go1.tar.gz"
    = inr (list_byte_of_string "abc")
  ∧ archive_rejected E (list_byte_of_string "abc") (ErrLib "gzip: invalid header")
  ∧ os_Stat installed_state "/dest/VERSION" = StatOk (File 420 10 (list_byte_of_string "go1"))
  ∧ ∃ st', downloadGoVersion E installed_state "go1.tar.gz" "/dest"
           = (st', Some (ErrUnpack "/dest" (ErrLib "gzip: invalid header")))
           ∧ fs st' !! (true, ["dest"; "VERSION"]) = None.
Proof.
  intros E st1.
  assert (H1 : download_verify E installed_state "go1.tar.gz"
               = (st1, inr ("cache/downloads/go1.tar.gz", abc_digest)))
    by (vm_compute; reflexivity).
  assert (H2 : read_file (os_RemoveAll st1 "/dest").1 "cache/downloads/go1.tar.gz"
               = inr (list_byte_of_string "abc")) by (vm_compute; reflexivity).
  assert (H3 : archive_rejected E (list_byte_of_string "abc") (ErrLib "gzip: invalid header"))
    by reflexivity.
  split; [exact H1|]. split; [exact H2|]. split; [exact H3|]. split; [reflexivity|].
  destruct (undecodable_archive_loses_destination E installed_state "go1.tar.gz" "/dest"
              st1 _ _ _ _ H1 H2 H3) as (st' & Hrun & Hgone); [done|reflexivity|].
  exists st'. split; [exact Hrun|]. apply Hgone.
  split; [reflexivity|]. by apply prefix_cons, prefix_nil.
Defined.

(** The published digest is compared byte for byte: the right digest
    followed by a line break, as [sha256sum] writes it, is a mismatch. *)
Theorem digest_with_line_break_rejected E st target dest resp size st1 :
  archive_offered E target resp size →
  cache_file_created E st target st1 →
  final (Body resp) = None →
  (N.of_nat (length (concat (chunks (Body resp)))) <= budget st1)%N →
  let sum := hex (sha256_Sum256 (concat (chunks (Body resp)))) in
  digest_published E target (list_byte_of_string (sum +:+ newline)) →
  (downloadGoVersion E st target dest).2 = Some (ErrHashMismatch sum (sum +:+ newline)).
Proof.
  intros Hoff Hcreated Hfin Hbudget sum Hpub.
  destruct (download_verify_reaches_digest E st target resp size st1 _
              Hoff Hcreated Hfin Hbudget Hpub) as (st2 & _ & _ & Hdv).
  fold sum in Hdv. rewrite string_of_list_byte_of_string in Hdv.
  destruct (String.eqb_spec sum (sum +:+ newline)) as [Heq|_].
  { apply (f_equal String.length) in Heq. rewrite length_append in Heq. cbn in Heq. lia. }
  unfold downloadGoVersion. by rewrite Hdv.
Qed.

Lemma digest_with_line_break_rejected_witness :
  let E := example_env ["a"; ""; "bc"] (abc_digest +:+ newline) [] in
  let resp := {| StatusCode := 200; ContentLength := "3"; Body := served ["a"; ""; "bc"] |} in
  let st1 := (os_OpenFile E
                (os_Remove
                   (os_MkdirAll E (add_event empty_state (EvHttpGet (archive_uri "go1.tar.gz")))
                      cache_dir ModePerm).1 (cache_name "go1.tar.gz")).1
                (cache_name "go1.tar.gz") ModePerm).1 in
  archive_offered E "go1.tar.gz" resp 3
  ∧ cache_file_created E empty_state "go1.tar.gz" st1
  ∧ final (Body resp) = None
  ∧ (N.of_nat (length (concat (chunks (Body resp)))) <= budget st1)%N
  ∧ digest_published E "go1.tar.gz" (list_byte_of_string (abc_digest +:+ newline))
  ∧ (downloadGoVersion E empty_state "go1.tar.gz" "/dest").2
    = Some (ErrHashMismatch abc_digest (abc_digest +:+ newline)).
Proof.
  intros E resp st1.
  assert (H1 : archive_offered E "go1.tar.gz" resp 3).
  { repeat split; try reflexivity. vm_compute. discriminate. }
  assert (H2 : cache_file_created E empty_state "go1.tar.gz" st1) by (vm_compute; reflexivity).
  assert (H3 : final (Body resp) = None) by reflexivity.
  assert (H4 : (N.of_nat (length (concat (chunks (Body resp)))) <= budget st1)%N)
    by (vm_compute; discriminate).
  assert (Hsum : hex (sha256_Sum256 (concat (chunks (Body resp)))) = abc_digest)
    by (vm_compute; reflexivity).
  assert (H5 : digest_published E "go1.tar.gz" (list_byte_of_string (abc_digest +:+ newline))).
  { eexists. split; [vm_compute; reflexivity|]. split; [vm_compute; discriminate|].
    vm_compute. reflexivity. }
  split; [exact H1|]. split; [exact H2|]. split; [exact H3|]. split; [exact H4|].
  split; [exact H5|].
  pose proof (digest_with_line_break_rejected E empty_state "go1.tar.gz" "/dest" resp 3 st1
                H1 H2 H3 H4) as H.
  cbv zeta in H. rewrite Hsum in H. exact (H H5).
Defined.

(** ** Extraction *)

(** One round of the fan-out of [unpack]: the file takes a part [Y] of the
    chunk, all of it when there is no error. *)
Lemma unpack_Write_inv (f : os_File) (bar : ProgressBar) p c :
  file_content f = Some c →
  ∃ f' bar' n err Y,
    Write (f, bar) p = ((f', bar'), n, err)
    ∧ file_content f' = Some (c ++ Y)
    ∧ same_but_file f f'
    ∧ ((err = None ∧ n = length p ∧ Y = p) ∨ (err ≠ None ∧ Y `prefix_of` p)).
Proof.
  intros Hc. destruct (file_Write_inv f p c Hc) as (f' & n & err & Hw & Hc' & Hn & Herr & Hsame).
  unfold Write at 1. unfold MultiWriter. cbn [fst snd].
  unfold Write at 1. unfold os_File_Writer. rewrite Hw.
  destruct err as [e|].
  - exists f', bar, n, (Some e), (take n p). split; [done|]. split; [done|]. split; [done|].
    right. split; [done|]. apply prefix_take.
  - rewrite (Herr eq_refl) in *. rewrite Nat.eqb_refl. cbn [negb].
    unfold Write at 1. unfold ProgressBar_Writer. rewrite Nat.eqb_refl. cbn [negb].
    eexists f', _, (length p), None, p. split; [done|].
    rewrite firstn_all in Hc'. split; [done|]. split; [done|]. by left.
Qed.

Lemma unpack_copy_inv cs : ∀ (f : os_File) (bar : ProgressBar) n c fin,
  file_content f = Some c →
  ∃ f' bar' n' err Y,
    copy_loop (f, bar) cs fin n = ((f', bar'), n', err)
    ∧ file_content f' = Some (c ++ Y)
    ∧ same_but_file f f'
    ∧ Y `prefix_of` concat cs
    ∧ (err = None → Y = concat cs ∧ fin = None).
Proof.
  induction cs as [|ch cs IH]; intros f bar n c fin Hc.
  - exists f, bar, n, fin, []. cbn [copy_loop concat]. rewrite app_nil_r. done.
  - destruct ch as [|b0 ch0]; [apply IH; done|].
    cbn [copy_loop]. remember (b0 :: ch0) as ch eqn:Hch. clear Hch. cbn [concat].
    destruct (unpack_Write_inv f bar ch c Hc)
      as (f1 & bar1 & n1 & e1 & Y1 & -> & Hc1 & Hs1 & Hcase).
    destruct Hcase as [(-> & -> & ->)|(He & HY)].
    + rewrite Nat.ltb_irrefl, Nat.eqb_refl. cbn [negb].
      destruct (IH f1 bar1 (n + N.of_nat (length ch))%N (c ++ ch) fin Hc1)
        as (f' & bar' & n' & err & Y & -> & Hc' & Hs' & Hpre & Herr).
      exists f', bar', n', err, (ch ++ Y). split; [done|].
      rewrite <- app_assoc in Hc'. split; [done|].
      split; [by eapply same_but_file_trans|]. split; [by apply prefix_app|].
      intros He. destruct (Herr He) as (-> & ->). done.
    + destruct e1 as [e|]; [|done].
      assert (Hend : ∃ n' e', (let '(nw, ew) :=
                  if (length ch <? n1)%nat
                  then (0%nat, Some (default (ErrLib "invalid write result") (Some e)))
                  else (n1, Some e) in
                match ew with
                | Some e0 => ((f1, bar1), (n + N.of_nat nw)%N, Some e0)
                | None =>
                    if negb (length ch =? nw)%nat
                    then ((f1, bar1), (n + N.of_nat nw)%N, Some ErrShortWrite)
                    else copy_loop (f1, bar1) cs fin (n + N.of_nat nw)
                end) = ((f1, bar1), n', Some e')).
      { destruct (length ch <? n1)%nat; eauto. }
      destruct Hend as (n' & e' & ->).
      exists f1, bar1, n', (Some e'), Y1. split; [done|]. split; [done|]. split; [done|].
      split; [|done]. by apply prefix_app_r.
Qed.

(** [unpack_at] changes nothing but the path and, for a directory, the
    directories on the way to it. *)
Lemma unpack_at_frame E st name fi q :
  ¬ under q (clean_path name) → fs (unpack_at E st name fi).1 !! q = fs st !! q.
Proof.
  intros Hq. unfold unpack_at. destruct (IsDir fi).
  - unfold os_MkdirAll. destruct (String.eqb name ""); [done|].
    destruct (clean_path name) as [r comps] eqn:Hp. cbn [fst snd].
    pose proof (mkdir_walk_frame (now E) (Mode fi) r comps [] (fs st) q) as Hframe.
    destruct (mkdir_walk (now E) (Mode fi) (fs st) r [] comps) as [m err]. cbn [fst snd] in *.
    apply Hframe. intros k Hk ->. apply Hq. split; [done|]. cbn [fst snd app rev].
    apply prefix_take.
  - destruct (os_OpenFile E st name (Mode fi)) as [st1 [e|]] eqn:Ho.
    + cbn [fst]. unfold os_OpenFile in Ho. destruct (String.eqb name ""); [by injection Ho as <-|].
      destruct (stat_path (fs st) (clean_path name)) as [[?|? ? ?]| |];
        try (by injection Ho as <-).
      destruct (stat_path (fs st) (parent (clean_path name))) as [[?|? ? ?]| |];
        by injection Ho as <-.
    + destruct (os_OpenFile_ok _ _ _ _ _ Ho) as (_ & _ & perm & Hfs & _ & _ & _).
      set (f0 := {| f_state := st1; f_name := clean_path name; f_now := now E |}).
      assert (Hc0 : file_content f0 = Some []).
      { unfold file_content, f0. cbn [f_state f_name]. rewrite Hfs. by rewrite lookup_insert_eq. }
      unfold io_Copy.
      destruct (unpack_copy_inv (chunks (Data fi)) f0 {| Total := 0; current := 0 |} 0%N []
                  (final (Data fi)) Hc0) as (f' & bar' & n' & err & Y & -> & _ & Hsame & _).
      cbn [fst snd]. destruct Hsame as (_ & _ & _ & Hother).
      assert (Hne : q ≠ clean_path name).
      { intros ->. apply Hq. split; done. }
      rewrite (Hother q Hne). unfold f0. cbn [f_state]. rewrite Hfs. by rewrite lookup_insert_ne.
Qed.

Lemma unpackTar_loop_frame E dest q es : ∀ st fin,
  (∀ e, e ∈ es → ¬ under q (entry_path dest e)) →
  fs (unpackTar_loop E st dest es fin).1 !! q = fs st !! q.
Proof.
  induction es as [|e es IH]; intros st fin Hes; [done|]. cbn [unpackTar_loop].
  pose proof (unpack_at_frame E st (filepath_Join [dest; strip_root (Name e)]) e q) as H1.
  unfold unpack.
  destruct (unpack_at E st (filepath_Join [dest; strip_root (Name e)]) e) as [st1 [err|]];
    cbn [fst] in H1.
  - cbn [fst]. apply H1. apply Hes. left.
  - rewrite IH by (intros e' He'; apply Hes; by right). apply H1. apply Hes. left.
Qed.

Lemma unpackZip_loop_frame E dest q files : ∀ st,
  (∀ e, e ∈ map zf_entry files → ¬ under q (entry_path dest e)) →
  fs (unpackZip_loop E st dest files).1 !! q = fs st !! q.
Proof.
  induction files as [|f files IH]; intros st Hes; [done|]. cbn [unpackZip_loop].
  destruct (zf_open f); [done|].
  pose proof (unpack_at_frame E st (filepath_Join [dest; strip_root (Name (zf_entry f))])
                (zf_entry f) q) as H1.
  unfold unpack.
  destruct (unpack_at E st (filepath_Join [dest; strip_root (Name (zf_entry f))]) (zf_entry f))
    as [st1 [err|]]; cbn [fst] in H1.
  - cbn [fst]. apply H1. apply Hes. left.
  - rewrite IH by (intros e' He'; apply Hes; by right). apply H1. apply Hes. left.
Qed.

(** Whatever exists at or below the destination after the extraction of a
    verified archive, successful or not, is the place of an entry of the
    archive or a directory on the way to one: nothing of the earlier
    content of the destination is left. *)
Theorem destination_holds_only_entries E st target dest st1 name sum bytes q :
  download_verify E st target = (st1, inr (name, sum)) →
  read_file (os_RemoveAll st1 dest).1 name = inr bytes →
  dest ≠ "" → endsWithDot dest = false →
  under (clean_path dest) q →
  is_Some (fs (downloadGoVersion E st target dest).1 !! q) →
  ∃ e, e ∈ archive_entries E bytes ∧ under q (entry_path dest e).
Proof.
  intros Hdv Hread Hne Hdot Hq Hsome.
  unfold downloadGoVersion in Hsome. rewrite Hdv in Hsome. unfold extract_verified in Hsome.
  assert (Hgone : fs (os_RemoveAll st1 dest).1 !! q = None).
  { unfold os_RemoveAll. destruct (String.eqb_spec dest ""); [done|].
    rewrite Hdot. cbn [fst set_fs fs]. apply map_lookup_filter_None. right.
    intros x _. cbn [fst]. tauto. }
  destruct (os_RemoveAll st1 dest) as [st2 e2]. cbn [fst] in *.
  destruct (decide (Exists (λ e, under q (entry_path dest e)) (archive_entries E bytes)))
    as [Hex|Hnone].
  { apply Exists_exists in Hex as (e & He & Hu). by exists e. }
  exfalso. rewrite <- Forall_Exists_neg, Forall_forall in Hnone.
  set (st3 := add_event st2 (EvExtract name dest)) in *.
  assert (Hread3 : read_file st3 name = inr bytes) by done.
  assert (Hfs : fs ((if windows E then unpackZip else unpackTar) E st3 name dest).1 !! q = None).
  { unfold archive_entries in Hnone. destruct (windows E).
    - unfold unpackZip. rewrite Hread3. destruct (zip_reader E bytes) as [e|files]; [done|].
      by rewrite unpackZip_loop_frame.
    - unfold unpackTar. rewrite Hread3. destruct (gzip_tar E bytes) as [e|archive]; [done|].
      by rewrite unpackTar_loop_frame. }
  destruct ((if windows E then unpackZip else unpackTar) E st3 name dest) as [st4 [e|]];
    cbn [fst] in *; rewrite Hfs in Hsome; by destruct Hsome.
Qed.

Lemma destination_holds_only_entries_witness :
  let E := example_env ["a"; ""; "bc"] abc_digest go_entries in
  let st1 := (download_verify E installed_state "go1.tar.gz").1 in
  let q := (true, ["dest"; "bin"]) in
  download_verify E installed_state "go1.tar.gz"
  = (st1, inr ("cache/downloads/go1.tar.gz", abc_digest))
  ∧ read_file (os_RemoveAll st1 "/dest").1 "cache/downloads/go1.tar.gz"
    = inr (list_byte_of_string "abc")
  ∧ under (clean_path "/dest") q
  ∧ is_Some (fs (downloadGoVersion E installed_state "go1.tar.gz" "/dest").1 !! q)
  ∧ ∃ e, e ∈ archive_entries E (list_byte_of_string "abc") ∧ under q (entry_path "/dest" e).
Proof.
  intros E st1 q.
  assert (H1 : download_verify E installed_state "go1.tar.gz"
               = (st1, inr ("cache/downloads/go1.tar.gz", abc_digest)))
    by (vm_compute; reflexivity).
  assert (H2 : read_file (os_RemoveAll st1 "/dest").1 "cache/downloads/go1.tar.gz"
               = inr (list_byte_of_string "abc")) by (vm_compute; reflexivity).
  assert (H3 : under (clean_path "/dest") q).
  { split; [reflexivity|]. by apply prefix_cons, prefix_nil. }
  assert (H4 : is_Some (fs (downloadGoVersion E installed_state "go1.tar.gz" "/dest").1 !! q)).
  { vm_compute. eauto. }
  split; [exact H1|]. split; [exact H2|]. split; [exact H3|]. split; [exact H4|].
  apply (destination_holds_only_entries E installed_state "go1.tar.gz" "/dest" st1 _ _ _ q
           H1 H2); [done|reflexivity|exact H3|exact H4].
Defined.

(** When [unpack] returns without error for an entry that is a file, the
    file at the entry's place holds exactly the bytes of the entry. *)
Theorem extracted_file_holds_entry_bytes E st dest name fi st' :
  IsDir fi = false →
  unpack E st dest name fi = (st', None) →
  ioutil_ReadFile st' (filepath_Join [dest; strip_root name]) = inr (concat (chunks (Data fi))).
Proof.
  intros Hfile. unfold unpack, unpack_at. rewrite Hfile.
  set (p := filepath_Join [dest; strip_root name]).
  destruct (os_OpenFile E st p (Mode fi)) as [st1 [e|]] eqn:Ho; [done|].
  destruct (os_OpenFile_ok _ _ _ _ _ Ho) as (Hname & Hcomps & perm & Hfs & _ & _ & Hstat).
  set (f0 := {| f_state := st1; f_name := clean_path p; f_now := now E |}).
  assert (Hc0 : file_content f0 = Some []).
  { unfold file_content, f0. cbn [f_state f_name]. rewrite Hfs. by rewrite lookup_insert_eq. }
  unfold io_Copy.
  destruct (unpack_copy_inv (chunks (Data fi)) f0 {| Total := 0; current := 0 |} 0%N []
              (final (Data fi)) Hc0) as (f' & bar' & n' & err & Y & -> & Hc' & Hsame & _ & Herr).
  cbn [fst snd]. intros [= <- ->]. destruct (Herr eq_refl) as [-> _].
  destruct Hsame as (Hn & _ & _ & Hother). cbn [app] in Hc'.
  unfold ioutil_ReadFile, read_file. destruct (String.eqb_spec p ""); [done|].
  destruct (clean_path p) as [r comps] eqn:Hp. cbn [snd] in Hcomps.
  unfold file_content in Hc'.
  destruct (fs (f_state f') !! f_name f') as [[?|perm' mt' c']|] eqn:Hl; try done.
  injection Hc' as ->. rewrite Hn in Hl. unfold f0 in Hl, Hother. cbn [f_name f_state] in *.
  apply stat_path_ok in Hstat as [Habove _]; [|done].
  assert (Hstat' : stat_path (fs (f_state f')) (r, comps)
                   = StatOk (File perm' mt' (concat (chunks (Data fi))))).
  { apply stat_path_ok; [done|]. split; [|done].
    intros k Hk. destruct (Habove k Hk) as (pm & mt & Hd). exists pm, mt.
    rewrite Hother; [done|]. intros [= Heq]. by apply (take_proper_ne comps k); [lia|]. }
  by rewrite Hstat'.
Qed.

Lemma extracted_file_holds_entry_bytes_witness :
  let E := example_env [] "" [] in
  let fi := {| Name := "go/VERSION"; IsDir := false; Mode := 420; Data := served ["go"; "1.3"] |} in
  let st' := (unpack E installed_state "/dest" "go/VERSION" fi).1 in
  IsDir fi = false
  ∧ unpack E installed_state "/dest" "go/VERSION" fi = (st', None)
  ∧ ioutil_ReadFile st' "/dest/VERSION" = inr (list_byte_of_string "go1.3").
Proof.
  intros E fi st'.
  assert (H1 : IsDir fi = false) by reflexivity.
  assert (H2 : unpack E installed_state "/dest" "go/VERSION" fi = (st', None))
    by (vm_compute; reflexivity).
  split; [exact H1|]. split; [exact H2|].
  exact (extracted_file_holds_entry_bytes E installed_state "/dest" "go/VERSION" fi st' H1 H2).
Defined.

Lemma stat_path_removed m d p n :
  (∀ q, under d q → m !! q = None) → under d p → p.2 ≠ [] → stat_path m p ≠ StatOk n.
Proof.
  intros Hgone Hp Hne Hstat. destruct p as [r comps]. cbn [snd] in Hne.
  apply stat_path_ok in Hstat as [_ Hl]; [|done]. specialize (Hgone _ Hp). unfold path in *. congruence.
Qed.

Lemma os_OpenFile_fails E st name perm :
  (∀ n, stat_path (fs st) (clean_path name) ≠ StatOk n) →
  (∀ n, stat_path (fs st) (parent (clean_path name)) ≠ StatOk n) →
  ∃ err, (err = enoent ∨ err = enotdir) ∧ os_OpenFile E st name perm = (st, Some err).
Proof.
  intros Hp Hpar. unfold os_OpenFile. destruct (String.eqb name ""); [by exists enoent; auto|].
  destruct (stat_path (fs st) (clean_path name)) as [n| |]; [by destruct (Hp n)| |by eauto].
  destruct (stat_path (fs st) (parent (clean_path name))) as [n| |];
    [by destruct (Hpar n)| |]; cbn [stat_error]; eauto.
Qed.

Lemma under_parent d p : d.2 ≠ [] → under d (parent p) → under d p ∧ p.2 ≠ [] ∧ (parent p).2 ≠ [].
Proof.
  destruct d as [rd cd], p as [r comps]. unfold under, parent. cbn [fst snd].
  intros Hd [-> [k Hk]].
  assert (Hpar : removelast comps ≠ []) by (rewrite Hk; by destruct cd).
  assert (Hcomps : comps ≠ []) by (by intros ->).
  split; [|done]. split; [done|].
  rewrite (app_removelast_last "" Hcomps), Hk, <- app_assoc. by eexists.
Qed.

(** Extraction begins in a destination that has just been removed, and a
    file is created only in a directory that exists: when the first entry
    of the archive is a file inside the destination, nothing is extracted
    and the operation fails with "no such file or directory" (or "not a
    directory" when a file stands in the way to the destination). *)
Theorem archive_must_start_with_directory E st target dest st1 name sum bytes e :
  download_verify E st target = (st1, inr (name, sum)) →
  read_file (os_RemoveAll st1 dest).1 name = inr bytes →
  first_entry E bytes e →
  IsDir e = false →
  dest ≠ "" → endsWithDot dest = false → (clean_path dest).2 ≠ [] →
  under (clean_path dest) (parent (entry_path dest e)) →
  ∃ err, (err = enoent ∨ err = enotdir)
         ∧ downloadGoVersion E st target dest
           = (add_event (os_RemoveAll st1 dest).1 (EvExtract name dest),
              Some (ErrUnpack dest err)).
Proof.
  intros Hdv Hread Hfirst Hfile Hne Hdot Hroot Hunder.
  unfold downloadGoVersion. rewrite Hdv. unfold extract_verified.
  assert (Hgone : ∀ q, under (clean_path dest) q → fs (os_RemoveAll st1 dest).1 !! q = None).
  { intros q Hq. unfold os_RemoveAll. destruct (String.eqb_spec dest ""); [done|].
    rewrite Hdot. cbn [fst set_fs fs]. apply map_lookup_filter_None. right.
    intros x _. cbn [fst]. tauto. }
  destruct (os_RemoveAll st1 dest) as [st2 e2]. cbn [fst] in *.
  set (st3 := add_event st2 (EvExtract name dest)).
  assert (Hread3 : read_file st3 name = inr bytes) by done.
  destruct (under_parent _ _ Hroot Hunder) as (Hp & Hp2 & Hpar2).
  destruct (os_OpenFile_fails E st3 (filepath_Join [dest; strip_root (Name e)]) (Mode e))
    as (err & Herr & Hopen).
  { intros n. by apply (stat_path_removed _ (clean_path dest)). }
  { intros n. by apply (stat_path_removed _ (clean_path dest)). }
  assert (Hunpack : unpack E st3 dest (Name e) e = (st3, Some err)).
  { unfold unpack, unpack_at. by rewrite Hfile, Hopen. }
  exists err. split; [done|]. unfold first_entry in Hfirst. destruct (windows E).
  - destruct Hfirst as (f & files & Hzip & Hzopen & <-).
    unfold unpackZip. rewrite Hread3, Hzip. cbn [unpackZip_loop]. rewrite Hzopen.
    by rewrite Hunpack.
  - destruct Hfirst as (archive & es & Htar & Hes).
    unfold unpackTar. rewrite Hread3, Htar, Hes. cbn [unpackTar_loop]. by rewrite Hunpack.
Qed.

Lemma archive_must_start_with_directory_witness :
  let fi := {| Name := "go/VERSION"; IsDir := false; Mode := 420; Data := served ["go1.3"] |} in
  let E := example_env ["a"; ""; "bc"] abc_digest [fi] in
  let st1 := (download_verify E installed_state "go1.tar.gz").1 in
  download_verify E installed_state "go1.tar.gz"
  = (st1, inr ("cache/downloads/go1.tar.gz", abc_digest))
  ∧ read_file (os_RemoveAll st1 "/dest").1 "cache/downloads/go1.tar.gz"
    = inr (list_byte_of_string "abc")
  ∧ first_entry E (list_byte_of_string "abc") fi
  ∧ IsDir fi = false
  ∧ under (clean_path "/dest") (parent (entry_path "/dest" fi))
  ∧ (downloadGoVersion E installed_state "go1.tar.gz" "/dest").2
    = Some (ErrUnpack "/dest" enoent).
Proof.
  intros fi E st1.
  assert (H1 : download_verify E installed_state "go1.tar.gz"
               = (st1, inr ("cache/downloads/go1.tar.gz", abc_digest)))
    by (vm_compute; reflexivity).
  assert (H2 : read_file (os_RemoveAll st1 "/dest").1 "cache/downloads/go1.tar.gz"
               = inr (list_byte_of_string "abc")) by (vm_compute; reflexivity).
  assert (H3 : first_entry E (list_byte_of_string "abc") fi).
  { exists {| tar_entries := [fi]; tar_end := None |}, []. split; reflexivity. }
  assert (H4 : under (clean_path "/dest") (parent (entry_path "/dest" fi))).
  { split; [reflexivity|]. exists []. reflexivity. }
  assert (H5 : "/dest" ≠ "") by discriminate.
  assert (H6 : (clean_path "/dest").2 ≠ []) by discriminate.
  split; [exact H1|]. split; [exact H2|]. split; [exact H3|]. split; [reflexivity|].
  split; [exact H4|].
  destruct (archive_must_start_with_directory E installed_state "go1.tar.gz" "/dest" st1
              _ _ _ fi H1 H2 H3 eq_refl H5 eq_refl H6 H4) as (err & _ & Hrun).
  rewrite Hrun. cbn [snd]. vm_compute in Hrun. by injection Hrun as <-.
Defined.

(** A destination that contains the cache file: the removal of the
    destination takes the verified archive with it, so that the archive
    cannot be opened any more and the operation fails. *)
Theorem destination_containing_cache_fails E st target dest st1 name sum :
  download_verify E st target = (st1, inr (name, sum)) →
  dest ≠ "" → endsWithDot dest = false →
  under (clean_path dest) (clean_path name) → (clean_path name).2 ≠ [] →
  ∃ err, (err = enoent ∨ err = enotdir)
         ∧ downloadGoVersion E st target dest
           = (add_event (os_RemoveAll st1 dest).1 (EvExtract name dest),
              Some (ErrUnpack dest err))
         ∧ ∀ n, os_Stat (downloadGoVersion E st target dest).1 name ≠ StatOk n.
Proof.
  intros Hdv Hne Hdot Hunder Hcomps.
  unfold downloadGoVersion. rewrite Hdv. unfold extract_verified.
  assert (Hgone : ∀ q, under (clean_path dest) q → fs (os_RemoveAll st1 dest).1 !! q = None).
  { intros q Hq. unfold os_RemoveAll. destruct (String.eqb_spec dest ""); [done|].
    rewrite Hdot. cbn [fst set_fs fs]. apply map_lookup_filter_None. right.
    intros x _. cbn [fst]. tauto. }
  destruct (os_RemoveAll st1 dest) as [st2 e2]. cbn [fst] in *.
  set (st3 := add_event st2 (EvExtract name dest)).
  assert (Hstat : ∀ n, stat_path (fs st3) (clean_path name) ≠ StatOk n).
  { intros n. by apply (stat_path_removed _ (clean_path dest)). }
  assert (Hread : ∃ err, (err = enoent ∨ err = enotdir) ∧ read_file st3 name = inl err).
  { unfold read_file. destruct (String.eqb name ""); [by exists enoent; auto|].
    destruct (stat_path (fs st3) (clean_path name)) as [n| |];
      [by destruct (Hstat n)| |]; cbn [stat_error]; eauto. }
  destruct Hread as (err & Herr & Hread). exists err. split; [done|].
  assert (Hrun : (if windows E then unpackZip else unpackTar) E st3 name dest = (st3, Some err)).
  { destruct (windows E); [unfold unpackZip|unfold unpackTar]; by rewrite Hread. }
  rewrite Hrun. split; [done|]. cbn [fst]. intros n. unfold os_Stat.
  destruct (String.eqb name ""); [done|]. apply Hstat.
Qed.

Lemma destination_containing_cache_fails_witness :
  let E := example_env ["a"; ""; "bc"] abc_digest go_entries in
  let st1 := (download_verify E installed_state "go1.tar.gz").1 in
  download_verify E installed_state "go1.tar.gz"
  = (st1, inr ("cache/downloads/go1.tar.gz", abc_digest))
  ∧ under (clean_path "cache") (clean_path "cache/downloads/go1.tar.gz")
  ∧ os_Stat st1 "cache/downloads/go1.tar.gz"
    = StatOk (File 511 1000 (list_byte_of_string "abc"))
  ∧ (downloadGoVersion E installed_state "go1.tar.gz" "cache").2
    = Some (ErrUnpack "cache" enoent)
  ∧ os_Stat (downloadGoVersion E installed_state "go1.tar.gz" "cache").1
      "cache/downloads/go1.tar.gz" = StatNotExist.
Proof.
  intros E st1.
  assert (H1 : download_verify E installed_state "go1.tar.gz"
               = (st1, inr ("cache/downloads/go1.tar.gz", abc_digest)))
    by (vm_compute; reflexivity).
  assert (H2 : under (clean_path "cache") (clean_path "cache/downloads/go1.tar.gz")).
  { split; [reflexivity|]. exists ["downloads"; "go1.tar.gz"]. reflexivity. }
  assert (H3 : "cache" ≠ "") by discriminate.
  assert (H4 : (clean_path "cache/downloads/go1.tar.gz").2 ≠ []) by discriminate.
  destruct (destination_containing_cache_fails E installed_state "go1.tar.gz" "cache" st1
              _ _ H1 H3 eq_refl H2 H4) as (err & _ & Hrun & Hgone).
  split; [exact H1|]. split; [exact H2|]. split; [vm_compute; reflexivity|].
  assert (Herr : err = enoent).
  { vm_compute in Hrun. by injection Hrun as <-. }
  subst err. rewrite Hrun. split; [reflexivity|]. vm_compute. reflexivity.
Defined.

(** ** Entries that leave the destination *)

Lemma split_go_more c t : ∀ n,
  (S (String.length t) ≤ n)%nat →
  split_go (String c "") n 0 t = split_go (String c "") (S (String.length t)) 0 t.
Proof.
  induction t as [|d t IH]; intros n Hn; [done|].
  cbn [String.length] in *. cbn [split_go String.length String.prefix Nat.sub].
  assert (H1 : (1 <? n)%nat = true) by (apply Nat.ltb_lt; lia).
  assert (H2 : (1 <? S (S (String.length t)))%nat = true) by (apply Nat.ltb_lt; lia).
  rewrite H1, H2. cbn [andb].
  destruct (ascii_dec c d) as [->|Hne].
  - rewrite String_prefix_empty. rewrite (IH (n - 1)%nat) by lia. done.
  - rewrite (IH n) by lia. rewrite (IH (S (S (String.length t)))) by lia. done.
Qed.

Lemma Split_sep c a t :
  no_byte c a = true →
  strings_Split (a +:+ String c t) (String c "") = a :: strings_Split t (String c "").
Proof.
  intros Ha. unfold strings_Split, strings_SplitN.
  rewrite split_go_append by done. rewrite split_go_sep.
  2:{ rewrite length_append. cbn [String.length]. lia. }
  cbn [fst snd]. rewrite append_nil_r.
  rewrite (split_go_more c t) by (rewrite length_append; cbn [String.length]; lia).
  by destruct (split_go (String c "") (S (String.length t)) 0 t).
Qed.

Lemma Split_plain c a : no_byte c a = true → strings_Split a (String c "") = [a].
Proof. intros Ha. unfold strings_Split, strings_SplitN. by rewrite split_go_no_byte. Qed.

Lemma plain_name_eqb s :
  plain_name s →
  String.eqb s "" = false ∧ String.eqb s "." = false ∧ String.eqb s ".." = false.
Proof. intros (H1 & H2 & H3 & _). by rewrite !String.eqb_neq. Qed.

Lemma clean_rooted_name d : plain_name d → clean_path ("/" +:+ d) = (true, [d]).
Proof.
  intros Hd. destruct (plain_name_eqb d Hd) as (E1 & E2 & E3). destruct Hd as (_ & _ & _ & Hs).
  unfold clean_path. change ("/" +:+ d) with ("" +:+ String "/" d).
  rewrite (Split_sep "/" "" d eq_refl), (Split_plain "/" d Hs).
  cbn [String.prefix append]. cbn [clean_go String.eqb orb].
  rewrite E1, E2, E3. rewrite append_nil_l. cbn. by rewrite String_prefix_empty.
Qed.

Lemma join_parent_name d x :
  plain_name d → plain_name x → filepath_Join ["/" +:+ d; "../" +:+ x] = "/" +:+ x.
Proof.
  intros Hd Hx. destruct (plain_name_eqb d Hd) as (D1 & D2 & D3).
  destruct (plain_name_eqb x Hx) as (X1 & X2 & X3).
  destruct Hd as (_ & _ & _ & Hds), Hx as (_ & _ & _ & Hxs).
  unfold filepath_Join. change (String.eqb ("/" +:+ d) "") with false. cbn match.
  unfold filepath_Clean, clean_path.
  replace (String.concat "/" ["/" +:+ d; "../" +:+ x])
    with ("" +:+ String "/" (d +:+ String "/" (".." +:+ String "/" x))).
  2:{ reflexivity. }
  rewrite (Split_sep "/" "" _ eq_refl), (Split_sep "/" d _ Hds), (Split_sep "/" ".." _ eq_refl),
    (Split_plain "/" x Hxs).
  cbn [clean_go String.eqb orb].
  rewrite D1, D2, D3. cbn. rewrite X1, X2, X3. cbn.
  rewrite append_nil_l. cbn [String.prefix]. destruct (ascii_dec "/" "/"); [|done].
  rewrite String_prefix_empty. unfold render. cbn [fst snd String.concat]. done.
Qed.

Lemma strip_root_parent x : strip_root ("../" +:+ x) = "../" +:+ x.
Proof. reflexivity. Qed.

(** [unpack] joins the name of an entry to the destination without
    looking at it: an entry named [../x] (or [go/../x]) of an archive
    extracted to [/d] is put at [/x], which is not inside [/d]. *)
Theorem entry_can_leave_destination E st d x fi :
  plain_name d → plain_name x →
  unpack E st ("/" +:+ d) ("../" +:+ x) fi = unpack_at E st ("/" +:+ x) fi
  ∧ unpack E st ("/" +:+ d) ("go/../" +:+ x) fi = unpack_at E st ("/" +:+ x) fi
  ∧ (x ≠ d → ¬ under (clean_path ("/" +:+ d)) (clean_path ("/" +:+ x))).
Proof.
  intros Hd Hx. split; [|split].
  - unfold unpack. by rewrite strip_root_parent, join_parent_name.
  - unfold unpack. change ("go/../" +:+ x) with ("go/" +:+ ("../" +:+ x)).
    by rewrite strip_root_prefixed, join_parent_name.
  - intros Hne. rewrite !clean_rooted_name by done. intros [_ [k Hk]].
    cbn [snd app] in Hk. by injection Hk.
Qed.

Lemma entry_can_leave_destination_witness :
  let E := example_env [] "" [] in
  let fi := {| Name := "go/../evil"; IsDir := false; Mode := 493; Data := served ["#!"] |} in
  plain_name "dest" ∧ plain_name "evil"
  ∧ ioutil_ReadFile (unpack E installed_state "/dest" "go/../evil" fi).1 "/evil"
    = inr (list_byte_of_string "#!")
  ∧ ¬ under (clean_path "/dest") (clean_path "/evil").
Proof.
  intros E fi.
  assert (H1 : plain_name "dest") by (by vm_compute).
  assert (H2 : plain_name "evil") by (by vm_compute).
  destruct (entry_can_leave_destination E installed_state "dest" "evil" fi H1 H2)
    as (_ & Hgo & Hout).
  split; [exact H1|]. split; [exact H2|]. split.
  - change ("/dest") with ("/" +:+ "dest"). change "go/../evil" with ("go/../" +:+ "evil").
    rewrite Hgo. vm_compute. reflexivity.
  - apply Hout. discriminate.
Defined.

(** ** The lines of the listing *)

Lemma space_width_graphic c s : byte_in 33 126 c = true → space_width (String c s) = 0%nat.
Proof.
  unfold byte_in, is_byte. intros [H1 H2]%andb_prop.
  apply N.leb_le in H1, H2. cbn [space_width]. unfold byte_in, is_byte.
  destruct (N.leb_spec 9 (N_of_ascii c)), (N.leb_spec (N_of_ascii c) 13); try lia.
  cbn [andb orb].
  destruct (N.eqb_spec (N_of_ascii c) 32); [lia|].
  destruct (N.eqb_spec (N_of_ascii c) 194); [lia|].
  destruct (N.eqb_spec (N_of_ascii c) 225); [lia|].
  destruct (N.eqb_spec (N_of_ascii c) 226); [lia|].
  destruct (N.eqb_spec (N_of_ascii c) 227); [lia|].
  cbn [andb]. destruct s as [|d [|e s]]; done.
Qed.

Lemma fields_go_word w rest :
  word w = true →
  fields_go 0 (w +:+ rest) = (w +:+ (fields_go 0 rest).1, (fields_go 0 rest).2).
Proof.
  induction w as [|c w IH]; intros Hw.
  - rewrite !append_nil_l. by destruct (fields_go 0 rest).
  - cbn [word] in Hw. apply andb_prop in Hw as [Hc Hw]. rewrite !append_cons.
    cbn [fields_go]. rewrite (space_width_graphic c _ Hc). rewrite (IH Hw).
    cbn [fst snd]. done.
Qed.

Lemma fields_go_blank rest :
  fields_go 0 (String " " rest)
  = ("", cons_field (fields_go 0 rest).1 (fields_go 0 rest).2).
Proof.
  cbn [fields_go]. change (space_width (String " " rest)) with 1%nat.
  cbn match. by destruct (fields_go 0 rest).
Qed.

Lemma Fields_two h r :
  word h = true → word r = true → h ≠ "" → r ≠ "" →
  strings_Fields (h +:+ " " +:+ r) = [h; r].
Proof.
  intros Hh Hr Hhne Hrne. unfold strings_Fields.
  rewrite (fields_go_word h _ Hh). change (" " +:+ r) with (String " " r).
  rewrite fields_go_blank. cbn [fst snd]. rewrite append_nil_r.
  replace r with (r +:+ "") at 1 2 by apply append_nil_r.
  rewrite (fields_go_word r "" Hr). cbn [fields_go fst snd]. rewrite append_nil_r.
  unfold cons_field. by rewrite (proj2 (String.eqb_neq _ _) Hhne), (proj2 (String.eqb_neq _ _) Hrne).
Qed.

Lemma replace_go_absent old new s :
  strings_Contains s old = false → replace_go old new 0 s = s.
Proof.
  induction s as [|c s IH]; [done|]. cbn [strings_Contains replace_go].
  destruct (String.prefix old (String c s)); [done|]. intros H. by rewrite IH.
Qed.

Lemma replace_go_skip old new a : ∀ t,
  replace_go old new (String.length a) (a +:+ t) = replace_go old new 0 t.
Proof.
  induction a as [|c a IH]; intros t; [by rewrite append_nil_l|].
  rewrite append_cons. cbn [String.length replace_go]. apply IH.
Qed.

Lemma prefix_append a t : String.prefix a (a +:+ t) = true.
Proof.
  induction a as [|c a IH]; [apply String_prefix_empty|]. rewrite append_cons.
  cbn [String.prefix]. by destruct (ascii_dec c c).
Qed.

Lemma Contains_leading c a t : strings_Contains (String c a +:+ t) (String c a) = true.
Proof.
  rewrite append_cons. cbn [strings_Contains]. rewrite <- append_cons.
  by rewrite prefix_append.
Qed.

Lemma Replace_leading c a t :
  strings_Contains t (String c a) = false →
  strings_Replace (String c a +:+ t) (String c a) "" = t.
Proof.
  intros Ht. unfold strings_Replace. cbn [String.eqb]. rewrite append_cons.
  cbn [replace_go]. rewrite <- append_cons. rewrite prefix_append. rewrite append_nil_l.
  cbn [String.length Nat.sub]. rewrite Nat.sub_0_r, replace_go_skip. by apply replace_go_absent.
Qed.

Lemma word_append a b : word (a +:+ b) = word a && word b.
Proof.
  induction a as [|c a IH]; [by rewrite append_nil_l|]. rewrite append_cons. cbn [word].
  by rewrite IH, andb_assoc.
Qed.

(** A line of the listing that names a tag of a Go release - an object
    name, a blank, and [refs/tags/go] followed by the tag - is retained
    with that tag; the same line with a third field is dropped, and so is
    every line without [refs/tags/go]. *)
Theorem listing_line_gives_tag (h t : string) :
  word h = true → h ≠ "" → word t = true →
  strings_Contains t "refs/tags/go" = false →
  parse_line (h +:+ " refs/tags/go" +:+ t) = Some t
  ∧ parse_line (h +:+ " refs/tags/go" +:+ t +:+ " " +:+ h) = None
  ∧ (∀ line, strings_Contains line "refs/tags/go" = false → parse_line line = None).
Proof.
  intros Hh Hhne Ht Hno. split; [|split].
  - unfold parse_line. rewrite Contains_append.
    2:{ change (" refs/tags/go" +:+ t) with (" " +:+ "refs/tags/go" +:+ t).
        apply Contains_append. apply Contains_leading. }
    change (" refs/tags/go" +:+ t) with (" " +:+ ("refs/tags/go" +:+ t)).
    rewrite Fields_two; [|done|by rewrite word_append, Ht|done|done].
    by rewrite (Replace_leading "r" "efs/tags/go" t Hno).
  - unfold parse_line. rewrite Contains_append.
    2:{ change (" refs/tags/go" +:+ t +:+ " " +:+ h)
          with (" " +:+ "refs/tags/go" +:+ (t +:+ " " +:+ h)).
        apply Contains_append. apply Contains_leading. }
    unfold strings_Fields. rewrite (fields_go_word h _ Hh).
    change (" refs/tags/go" +:+ t +:+ " " +:+ h)
      with (String " " (("refs/tags/go" +:+ t) +:+ String " " h)).
    rewrite fields_go_blank. rewrite (fields_go_word ("refs/tags/go" +:+ t)).
    2:{ by rewrite word_append, Ht. }
    rewrite fields_go_blank.
    assert (Hlast : fields_go 0 h = (h, [])).
    { rewrite <- (append_nil_r h) at 1. by rewrite (fields_go_word h "" Hh), append_nil_r. }
    rewrite Hlast. cbn [fst snd]. rewrite !append_nil_r.
    unfold cons_field. rewrite (proj2 (String.eqb_neq _ _) Hhne).
    by change ("refs/tags/go" +:+ t) with (String "r" ("efs/tags/go" +:+ t)).
  - intros line Hline. unfold parse_line. by rewrite Hline.
Qed.

Lemma listing_line_gives_tag_witness :
  word "0123abcd" = true ∧ "0123abcd" ≠ "" ∧ word "1.9rc2" = true
  ∧ strings_Contains "1.9rc2" "refs/tags/go" = false
  ∧ parse_line "0123abcd refs/tags/go1.9rc2" = Some "1.9rc2".
Proof.
  assert (H2 : "0123abcd" ≠ "") by discriminate.
  destruct (listing_line_gives_tag "0123abcd" "1.9rc2" eq_refl H2 eq_refl eq_refl) as [H _].
  split; [reflexivity|]. split; [exact H2|]. split; [reflexivity|]. split; [reflexivity|].
  exact H.
Defined.

